(** * Sentence permutation and masked-sentence batching (STAS)

    A shallow embedding of
    [fairseq/data/sents_perm_and_predict_mask_after_shff_dataset.py]:
    the sentence splitter, the truncating shuffler, the sentence masker,
    the two batch tensorizers and the collation step that compares them.

    Conventions of the embedding.
    - Token ids are [Z]; lengths, indices and positions are [nat];
      configuration integers that the source takes from the command line are
      [Z], and Python's slice rules for a negative bound are written out.
      The ints that [docs2tensor], [doc2tensor], [masked_sents2tensor] and
      the tensor of sample ids write into a [LongTensor] must be int64
      ([torch.long]); the ids that a [Dictionary] gives are taken to be.
    - Probabilities are given by rationals ([Q]).  A draw of [rng.uniform()]
      is [k / 2^53] for a 53-bit [k], which is how the generator builds a
      double.  The product [len * masked_sent_prob] is the product of two
      doubles ([float]), the rational standing for the double nearest to it.
      The product [len * fix_ratio], the length of the fixed window, is
      taken exactly before [int] truncates it.
    - A Python exception is a value of [exn]; code that can raise returns a
      [result]; code that also uses the random generator lives in the state
      and error monad [M].
    - The random generator is an interface ([RandomState]) with one
      primitive, the next raw draw; [randint], [uniform], [shuffle] and
      [permutation] are derived from it as numpy derives them. *)

From Stdlib Require Import ZArith QArith Qround.
From stdpp Require Import base tactics option list strings sorting.

Local Open Scope Z_scope.
Local Open Scope nat_scope.
Local Open Scope list_scope.

(** ** Exceptions and results *)

Inductive exn : Set :=
| AssertionError
| ValueError
| IndexError
| KeyError
| RuntimeError
| TypeError
| UnboundLocalError
| OverflowError.

Inductive result (A : Type) : Type :=
| Ok (a : A)
| Raise (e : exn).
Arguments Ok {A} a.
Arguments Raise {A} e.

#[global] Instance result_ret : MRet result := fun A a => Ok a.
#[global] Instance result_bind : MBind result := fun A B f m =>
  match m with
  | Ok a => f a
  | Raise e => Raise e
  end.

(** [assert b] *)
Definition py_assert (b : bool) : result unit :=
  if b then Ok tt else Raise AssertionError.

(** ** Python lists *)

Module py.

(** [l[0:stop]], also written [l[:stop]]: a negative [stop] counts from the
    end of the list. *)
Definition take {A} (stop : Z) (l : list A) : list A :=
  if (stop <? 0)%Z
  then firstn (length l - Z.to_nat (- stop)) l
  else firstn (Z.to_nat stop) l.

(** [l[i]] for [i >= 0] *)
Definition index {A} (l : list A) (i : nat) : result A :=
  match l !! i with
  | Some a => Ok a
  | None => Raise IndexError
  end.

(** [l[-1]] *)
Definition last {A} (l : list A) : result A :=
  match list.last l with
  | Some a => Ok a
  | None => Raise IndexError
  end.

(** [l[i] = a] for [i >= 0] *)
Definition set_index {A} (l : list A) (i : nat) (a : A) : result (list A) :=
  if decide (i < length l) then Ok (<[i:=a]> l) else Raise IndexError.

(** [l[-1] = a] *)
Definition set_last {A} (l : list A) (a : A) : result (list A) :=
  match l with
  | [] => Raise IndexError
  | _ => Ok (<[length l - 1:=a]> l)
  end.

(** [sum([len(s) for s in l])] *)
Definition sum_len {A} (l : list (list A)) : nat :=
  foldr (fun s n => length s + n) 0 l.

(** [int(x)] on a real number: truncation towards zero. *)
Definition int (x : Q) : Z := Z.quot (Qnum x) (Z.pos (Qden x)).

(** [for a in l: s = f(s, a)], in the monad of the body *)
Fixpoint for_each {F : Type → Type} `{!MBind F, !MRet F} {A S}
    (f : S → A → F S) (s : S) (l : list A) : F S :=
  match l with
  | [] => mret s
  | a :: l' => s' ← f s a; for_each f s' l'
  end.

(** [max(l)]: the empty list raises. *)
Definition max_list (l : list nat) : result nat :=
  match l with
  | [] => Raise ValueError
  | _ => Ok (foldr Nat.max 0 l)
  end.

(** [enumerate(l)] *)
Definition enumerate {A} (l : list A) : list (nat * A) :=
  zip (seq 0 (length l)) l.

(** [l[i]] for an index of either sign *)
Definition index_z {A} (l : list A) (i : Z) : result A :=
  if (i <? 0)%Z
  then (if (Z.of_nat (length l) + i <? 0)%Z then Raise IndexError
        else index l (Z.to_nat (Z.of_nat (length l) + i)))
  else index l (Z.to_nat i).

End py.

(** ** Floats *)

(** A Python float is an IEEE double.  A finite double is kept as its exact
    rational value (the sign of a zero is not kept); an operation rounds its
    exact result to the nearest double, ties to even, and overflows to
    infinity, as the hardware does. *)
Module float.

Inductive t : Type :=
| Finite (x : Q)
| Infinity (negative : bool)
| NaN.

(** [(n / d) / 2^g] as a fraction *)
Definition scale (n d g : Z) : Z * Z :=
  if (0 <=? g)%Z then (n, d * 2 ^ g)%Z else (n * 2 ^ (- g), d)%Z.

(** [floor(log2(n / d))] *)
Definition ilog2 (n d : positive) : Z :=
  let e := (Z.log2 (Z.pos n) - Z.log2 (Z.pos d))%Z in
  let '(a, b) := scale (Z.pos n) (Z.pos d) e in
  if (a <? b)%Z then (e - 1)%Z else e.

(** The integer nearest to [a / b], ties to even *)
Definition round_half_even (a b : Z) : Z :=
  let q := (a / b)%Z in
  match (2 * (a mod b) ?= b)%Z with
  | Lt => q
  | Gt => (q + 1)%Z
  | Eq => if Z.even q then q else (q + 1)%Z
  end.

(** [m * 2^g] *)
Definition dyadic (m g : Z) : Q :=
  if (0 <=? g)%Z then inject_Z (m * 2 ^ g) else Qred (m # Z.to_pos (2 ^ (- g))).

(** The double nearest to [n / d]: 53 bits above the exponent [-1022],
    multiples of [2^-1074] below; infinity from [2^1024] on. *)
Definition round (n d : positive) : option Q :=
  let e := ilog2 n d in
  let g := Z.max (e - 52) (- 1074) in
  let '(a, b) := scale (Z.pos n) (Z.pos d) g in
  let m := round_half_even a b in
  if (2 ^ 1024 <=? m * 2 ^ g)%Z then None else Some (dyadic m g).

(** The float a number stands for: [float(x)] *)
Definition of_Q (x : Q) : t :=
  match Qnum x with
  | Z0 => Finite 0
  | Z.pos n =>
      match round n (Qden x) with
      | Some y => Finite y
      | None => Infinity false
      end
  | Z.neg n =>
      match round n (Qden x) with
      | Some y => Finite (- y)
      | None => Infinity true
      end
  end.

(** The conversion of an [int] operand: too large an [int] raises. *)
Definition of_int (n : Z) : result t :=
  match of_Q (inject_Z n) with
  | Infinity _ => Raise OverflowError
  | x => Ok x
  end.

(** [x * y] *)
Definition mul (x y : t) : t :=
  match x, y with
  | NaN, _ | _, NaN => NaN
  | Finite a, Finite b => of_Q (a * b)
  | Infinity s, Infinity s' => Infinity (xorb s s')
  | Infinity s, Finite a | Finite a, Infinity s =>
      if Qeq_bool a 0 then NaN
      else Infinity (xorb s (Z.ltb (Qnum a) 0))
  end.

(** [int(x)]: truncation towards zero *)
Definition to_int (x : t) : result Z :=
  match x with
  | Finite x => Ok (py.int x)
  | Infinity _ => Raise OverflowError
  | NaN => Raise ValueError
  end.

End float.

(** ** The sentence splitter *)

Abbreviation token := Z (only parsing).
Abbreviation sentence := (list token) (only parsing).

(** The loop of [split_list]: [sublist] is the sentence being read and [res]
    the sentences closed so far.  The test [len(sublist) > 0] inside the loop
    is kept as the source has it. *)
Fixpoint split_list_loop (lst : list token) (key : token)
    (sublist : sentence) (res : list sentence) : list sentence * sentence :=
  match lst with
  | [] => (res, sublist)
  | v :: lst' =>
      let sublist := sublist ++ [v] in
      if (v =? key)%Z then
        let res := if 0 <? length sublist then res ++ [sublist] else res in
        split_list_loop lst' key [] res
      else split_list_loop lst' key sublist res
  end.

Definition split_list (lst : list token) (key : token) : list sentence :=
  let '(res, sublist) := split_list_loop lst key [] [] in
  if 0 <? length sublist then res ++ [sublist] else res.

(** A sentence closed by the separator: the separator is its last token and
    occurs nowhere before. *)
Definition closed_sentence (key : token) (s : sentence) : Prop :=
  ∃ body, s = body ++ [key] ∧ key ∉ body.

(** ** The random generator and the monad of batch construction *)

(** The generator the dataset is given ([rng], a [numpy.random.RandomState]):
    a state from which the next raw draw is taken. *)
Class RandomState (G : Type) := random_raw : G → Z * G.

(** The simplest generator: a tape of prepared draws, read from the left;
    an exhausted tape keeps giving 0. *)
#[global] Instance tape_random_state : RandomState (list Z) := fun tape =>
  match tape with
  | [] => (0%Z, [])
  | r :: tape' => (r, tape')
  end.

Definition M (G A : Type) : Type := G → result (A * G).

#[global] Instance M_ret {G} : MRet (M G) := fun A a g => Ok (a, g).
#[global] Instance M_bind {G} : MBind (M G) := fun A B f m g =>
  match m g with
  | Ok (a, g') => f a g'
  | Raise e => Raise e
  end.

(** A computation that raises or returns without touching the generator. *)
Definition lift {G A} (r : result A) : M G A := fun g =>
  match r with
  | Ok a => Ok (a, g)
  | Raise e => Raise e
  end.

Definition raise {G A} (e : exn) : M G A := fun _ => Raise e.

(** ** numpy *)

Module np.

(** [np.arange(n)] and [np.arange(start, start + n)] *)
Definition arange (n : nat) : list nat := seq 0 n.

(** [np.delete(arr, obj)] for an array [obj] of non-negative indices: an
    index out of bounds raises.  (An empty [obj] deletes nothing.) *)
Definition delete {A} (arr : list A) (obj : list nat) : result (list A) :=
  if decide (Forall (λ i, i < length arr) obj)
  then Ok (snd <$> filter (λ p, p.1 ∉ obj) (py.enumerate arr))
  else Raise IndexError.

(** [arr[idxs]] for an index array [idxs] *)
Fixpoint getitem {A} (arr : list A) (idxs : list nat) : result (list A) :=
  match idxs with
  | [] => Ok []
  | i :: idxs' =>
      a ← py.index arr i; rest ← getitem arr idxs'; mret (a :: rest)
  end.

(** The writes of [arr[idxs] = vals], in order. *)
Fixpoint setitem_loop {A} (arr : list A) (idxs : list nat) (vals : list A)
  : result (list A) :=
  match idxs, vals with
  | i :: idxs', a :: vals' =>
      arr' ← py.set_index arr i a; setitem_loop arr' idxs' vals'
  | _, _ => Ok arr
  end.

(** [arr[idxs] = vals] for an index array [idxs]: the values must be as
    many as the indices, or a single value that is written everywhere. *)
Definition setitem {A} (arr : list A) (idxs : list nat) (vals : list A)
  : result (list A) :=
  if decide (length vals = length idxs) then setitem_loop arr idxs vals
  else match vals with
       | [a] => setitem_loop arr idxs (replicate (length idxs) a)
       | _ => Raise ValueError
       end.

(** [x[i], x[j] = x[j], x[i]] *)
Definition swap {A} (x : list A) (i j : nat) : list A :=
  match x !! i, x !! j with
  | Some a, Some b => <[j:=a]> (<[i:=b]> x)
  | _, _ => x
  end.

Section random.
Context {G : Type} `{RandomState G}.

(** A draw in [[0, max]], both ends included. *)
Definition random_interval (max : nat) : M G nat := fun g =>
  let '(r, g') := random_raw g in
  Ok (Z.to_nat (r mod (Z.of_nat max + 1)), g').

(** [rng.randint(high)] and [rng.randint(0, high)]: a draw in
    [[0, high)]; an empty range raises. *)
Definition randint (high : Z) : M G nat :=
  if (high <=? 0)%Z then raise ValueError
  else random_interval (Z.to_nat (high - 1)).

(** [rng.uniform()]: a draw in [[0, 1)] with 53 random bits. *)
Definition uniform : M G Q := fun g =>
  let '(r, g') := random_raw g in
  Ok (Qmake (r mod 2 ^ 53) (2 ^ 53), g').

(** [rng.shuffle(x)]: for [i] from [len(x) - 1] down to 1, swap
    [x[i]] with [x[j]] for a draw [j] in [[0, i]]. *)
Fixpoint shuffle_loop {A} (i : nat) (x : list A) : M G (list A) :=
  match i with
  | 0 => mret x
  | S i' => j ← random_interval i; shuffle_loop i' (swap x i j)
  end.

Definition shuffle {A} (x : list A) : M G (list A) :=
  shuffle_loop (length x - 1) x.

(** [rng.permutation(x)]: a shuffled copy. *)
Definition permutation {A} (x : list A) : M G (list A) := shuffle x.

End random.

End np.

(** [a < b] on probabilities *)
Definition Qltb (a b : Q) : bool := negb (Qle_bool b a).

(** ** The truncating shuffler ([shuffle_sents] in [create_src_tok_batch]) *)

(** The first loop of [shuffle_sents]: keep sentences while they fit in
    [max_tokens_len] tokens, stop at the first that does not. *)
Fixpoint truncate_loop (max_tokens_len : Z) (truncate_sents sents : list sentence)
  : list sentence :=
  match sents with
  | [] => truncate_sents
  | sent :: sents' =>
      if (Z.of_nat (py.sum_len truncate_sents) + Z.of_nat (length sent)
            <=? max_tokens_len)%Z
      then truncate_loop max_tokens_len (truncate_sents ++ [sent]) sents'
      else truncate_sents
  end.

(** [for idx, order in enumerate(target_order): slots[order] = sents[idx]] *)
Definition place_sents (sents : list sentence) (target_order : list nat)
    (slots : list (option sentence)) : result (list (option sentence)) :=
  py.for_each
    (λ slots '(idx, order),
       sent ← py.index sents idx; py.set_index slots order (Some sent))
    slots (py.enumerate target_order).

(** The list [[None] * n] once the loop above has written to it.  A slot
    left at [None] is not a sentence, and the first [len] of it raises. *)
Fixpoint sentences_of (slots : list (option sentence)) : result (list sentence) :=
  match slots with
  | [] => Ok []
  | Some sent :: slots' => rest ← sentences_of slots'; mret (sent :: rest)
  | None :: _ => Raise TypeError
  end.

Section shuffler.
Context {G : Type} `{RandomState G}.
Variable fix_ratio : Q.
Variable max_tokens_len : Z.

(** The window that stays fixed: its length [len_fixed] and its start
    [start_pos], for [count] retained sentences. *)
Definition fixed_window (count : nat) : M G (nat * Z) :=
  let len_fixed := py.int (inject_Z (Z.of_nat count) * fix_ratio) in
  start_pos ← np.randint (Z.of_nat count - len_fixed);
  mret (start_pos, len_fixed).

(** [target_order] as [shuffle_sents] leaves it. *)
Definition shuffle_order (count : nat) : M G (list nat) :=
  let target_order := np.arange count in
  if Qeq_bool fix_ratio 0 then np.shuffle target_order
  else
    '(start_pos, len_fixed) ← fixed_window count;
    let fixed_indexes := seq start_pos (Z.to_nat len_fixed) in
    shuffled_indexes ← lift (np.delete target_order fixed_indexes);
    chosen ← lift (np.getitem target_order shuffled_indexes);
    permuted ← np.permutation chosen;
    target_order ← lift (np.setitem target_order shuffled_indexes permuted);
    kept ← lift (np.getitem target_order fixed_indexes);
    _ ← lift (py_assert (bool_decide (kept = fixed_indexes)));
    mret target_order.

Definition shuffle_sents (sents : list sentence)
  : M G (list sentence * list nat) :=
  let truncate_sents := truncate_loop max_tokens_len [] sents in
  let slots := replicate (length truncate_sents) None in
  target_order ← shuffle_order (length truncate_sents);
  slots ← lift (place_sents sents target_order slots);
  shuffled ← lift (sentences_of slots);
  mret (shuffled, target_order).

End shuffler.

(** ** torch tensors *)

Module torch.

(** A tensor: its size and its elements as nested lists (a list of rows for
    two dimensions, and so on). *)
Record tensor (A : Type) : Type := Tensor { size : list nat; data : A }.
Arguments Tensor {A} size data.
Arguments size {A} t.
Arguments data {A} t.

#[global] Instance tensor_eq_dec {A} `{EqDecision A} : EqDecision (tensor A).
Proof. solve_decision. Defined.

(** [a.equal(b)]: same size and same elements *)
Definition equal {A} `{EqDecision A} (a b : tensor A) : bool :=
  bool_decide (a = b).

(** [torch.XTensor(r, c).fill_(v)] *)
Definition full2 {A} (r c : nat) (v : A) : tensor (list (list A)) :=
  Tensor [r; c] (replicate r (replicate c v)).

(** The ints a [LongTensor] holds: those of 64 bits. *)
Definition fits_long (v : Z) : bool :=
  (- 2 ^ 63 <=? v)%Z && (v <? 2 ^ 63)%Z.

(** A Python int on its way into a [LongTensor]: one that is not an int64
    raises (Overflow when unpacking long). *)
Definition long (v : Z) : result Z :=
  if fits_long v then Ok v else Raise RuntimeError.

(** [torch.LongTensor(l)] for a list of ints, and for a list of positions *)
Definition LongTensor (l : list Z) : result (list Z) :=
  if forallb fits_long l then Ok l else Raise RuntimeError.

Definition LongTensor_nat (l : list nat) : result (list nat) :=
  if forallb (λ p, fits_long (Z.of_nat p)) l then Ok l else Raise RuntimeError.

(** [torch.XTensor(b, r, c).fill_(v)] *)
Definition full3 {A} (b r c : nat) (v : A) : tensor (list (list (list A))) :=
  Tensor [b; r; c] (replicate b (replicate r (replicate c v))).

(** The slice [start:stop] of a dimension of length [n], as torch clamps
    it: its first index and its length. *)
Definition clamp_slice (n start stop : nat) : nat * nat :=
  let stop := stop `min` n in
  let start := start `min` stop in
  (start, stop - start).

(** [row[start:stop] = vals]: as many values as the slice is long, or one
    value that is broadcast. *)
Definition set_slice {A} (row : list A) (start stop : nat) (vals : list A)
  : result (list A) :=
  let '(start, n) := clamp_slice (length row) start stop in
  if decide (length vals = n)
  then Ok (take start row ++ vals ++ drop (start + n) row)
  else match vals with
       | [a] => Ok (take start row ++ replicate n a ++ drop (start + n) row)
       | _ => Raise RuntimeError
       end.

(** [row[start:stop] = v] for a number [v] *)
Definition fill_slice {A} (row : list A) (start stop : nat) (v : A) : list A :=
  let '(start, n) := clamp_slice (length row) start stop in
  take start row ++ replicate n v ++ drop (start + n) row.

(** [t[i, start:stop] = vals] *)
Definition set_row_slice {A} (t : tensor (list (list A))) (i start stop : nat)
    (vals : list A) : result (tensor (list (list A))) :=
  row ← py.index (data t) i;
  row ← set_slice row start stop vals;
  mret (Tensor (size t) (<[i:=row]> (data t))).

(** [t[i, start:stop] = v] *)
Definition fill_row_slice {A} (t : tensor (list (list A))) (i start stop : nat)
    (v : A) : result (tensor (list (list A))) :=
  row ← py.index (data t) i;
  mret (Tensor (size t) (<[i:=fill_slice row start stop v]> (data t))).

(** [t[i, j] = v] *)
Definition set_entry {A} (t : tensor (list (list A))) (i j : nat) (v : A)
  : result (tensor (list (list A))) :=
  row ← py.index (data t) i;
  row ← py.set_index row j v;
  mret (Tensor (size t) (<[i:=row]> (data t))).

(** [t[i, j, start:stop] = vals] *)
Definition set_row_slice3 {A} (t : tensor (list (list (list A))))
    (i j start stop : nat) (vals : list A)
  : result (tensor (list (list (list A)))) :=
  plane ← py.index (data t) i;
  row ← py.index plane j;
  row ← set_slice row start stop vals;
  mret (Tensor (size t) (<[i:=<[j:=row]> plane]> (data t))).

(** [t[:, :, k] = v] *)
Definition fill_column3 {A} (t : tensor (list (list (list A)))) (k : nat) (v : A)
  : result (tensor (list (list (list A)))) :=
  match size t with
  | [_; _; c] =>
      if decide (k < c)
      then Ok (Tensor (size t) (map (map (λ row, <[k:=v]> row)) (data t)))
      else Raise IndexError
  | _ => Raise IndexError
  end.

End torch.

Abbreviation tensor2 A := (torch.tensor (list (list A))).
Abbreviation tensor3 A := (torch.tensor (list (list (list A)))).
Abbreviation tensor4 A := (torch.tensor (list (list (list (list A))))).

(** ** The dictionary *)

(** The vocabulary object ([src_dict], [tgt_dict], [vocab]) is fairseq's
    [Dictionary], which is not part of the file embedded here; it is taken as
    given, as the lookups this file makes on it. *)
Record Dictionary : Type := {
  index : string → token;
  unk_index : token;
  pad_index : token;
  cls_index : token;
  bos_index : token;
  eos_index : token;
}.

(** [d.pad()] *)
Definition pad (d : Dictionary) : token := pad_index d.

Definition sent_sep_dic : list (string * string) :=
  [ ("roberta-base", "</s>");
    ("roberta-large", "</s>");
    ("bert-base-uncased", "[SEP]");
    ("bert-base-chinese", "[SEP]") ]%string.

Definition SENT_MASK : string := "<sent_mask>".

(** [d[k]] for a dict of strings *)
Fixpoint dict_get {V} (d : list (string * V)) (k : string) : result V :=
  match d with
  | [] => Raise KeyError
  | (k', v) :: d' => if String.eqb k' k then Ok v else dict_get d' k
  end.

(** ** Samples and their sentences *)

(** What [__getitem__] returns. *)
Record sample : Type := {
  id : Z;
  source : list token;
  target : option (list token);
}.

(** [sent if len(sent) <= max_sent_length else
     sent[0:max_sent_length-1] + [sep_id]] *)
Definition cap_sentence (sep_id : token) (max_sent_length : Z) (sent : sentence)
  : sentence :=
  if (Z.of_nat (length sent) <=? max_sent_length)%Z then sent
  else py.take (max_sent_length - 1) sent ++ [sep_id].

(** [if sents[-1][-1] != sep_id: sents[-1].append(sep_id)] *)
Definition close_last (sep_id : token) (sents : list sentence)
  : result (list sentence) :=
  last_sent ← py.last sents;
  last_token ← py.last last_sent;
  if (last_token =? sep_id)%Z then Ok sents
  else py.set_last sents (last_sent ++ [sep_id]).

(** The loop that flattens a document and records where each sentence
    starts, stopping at the first sentence over the budget. *)
Fixpoint flatten_loop (max_tokens_len : Z) (truncate_doc : list token)
    (cls_pos : list nat) (sents : list sentence) : list token * list nat :=
  match sents with
  | [] => (truncate_doc, cls_pos)
  | sent :: sents' =>
      if (Z.of_nat (length truncate_doc) + Z.of_nat (length sent)
            <=? max_tokens_len)%Z
      then flatten_loop max_tokens_len (truncate_doc ++ sent)
             (cls_pos ++ [length truncate_doc]) sents'
      else (truncate_doc, cls_pos)
  end.

(** ** The batch tensorizer of the permutation path *)

(** The two maxima computed by the first loop of [docs2tensor]. *)
Definition max_lens (docs : list (list token * list nat)) : nat * nat :=
  foldl (λ '(max_doc_len, max_nsent) '(doc, cls_pos),
           (length doc `max` max_doc_len, max_nsent `max` length cls_pos))
        (0, 0) docs.

Definition docs2tensor (docs : list (list token * list nat))
    (pad_idx sep_id : token)
  : result (tensor2 token * tensor2 bool * tensor2 Z * tensor2 nat * list nat) :=
  let bsz := length docs in
  let '(max_doc_len, max_nsent) := max_lens docs in
  fill ← torch.long pad_idx;
  let src_tokens := torch.full2 bsz max_doc_len fill in
  let segment_ids := torch.full2 bsz max_doc_len 0%Z in
  let cpos := torch.full2 bsz max_nsent 0 in
  let doc_pad_mask := torch.full2 bsz max_nsent true in
  '(src_tokens, doc_pad_mask, cpos, nsents) ←
    py.for_each
      (λ '(src_tokens, doc_pad_mask, cpos, nsents) '(i, (doc, cls_pos)),
         let cls_len := length cls_pos in
         doc_pad_mask ← torch.fill_row_slice doc_pad_mask i 0 cls_len false;
         positions ← torch.LongTensor_nat cls_pos;
         cpos ← torch.set_row_slice cpos i 0 cls_len positions;
         let doc_len := length doc in
         tokens ← torch.LongTensor doc;
         src_tokens ← torch.set_row_slice src_tokens i 0 doc_len tokens;
         mret (src_tokens, doc_pad_mask, cpos, nsents ++ [cls_len]))
      (src_tokens, doc_pad_mask, cpos, []) (py.enumerate docs);
  mret (src_tokens, doc_pad_mask, segment_ids, cpos, nsents).

Section permutation_path.
Context {G : Type} `{RandomState G}.

(** The body of the loop over samples in [create_src_tok_batch]. *)
Definition src_tok_doc (sep_id cls_idx : token) (fix_ratio : Q)
    (max_doc_length max_sent_length : option Z) (max_tokens_len : Z)
    (acc : list (list token * list nat) * list (list nat)) (s : sample)
  : M G (list (list token * list nat) * list (list nat)) :=
  let '(docs, target_orders) := acc in
  let src := source s in
  let sents := split_list src sep_id in
  let sents :=
    match max_doc_length with
    | Some n => if (n =? 0)%Z then sents else py.take n sents
    | None => sents
    end in
  let sents :=
    match max_sent_length with
    | Some n => cap_sentence sep_id n <$> sents
    | None => sents
    end in
  let sents := (λ sent, cls_idx :: sent) <$> sents in
  match sents with
  | [] => mret (docs, target_orders)
  | _ =>
      sents ← lift (close_last sep_id sents);
      '(truncate_sents, target_order) ←
        shuffle_sents fix_ratio max_tokens_len sents;
      let '(truncate_doc, cls_pos) :=
        flatten_loop max_tokens_len [] [] truncate_sents in
      mret (docs ++ [(truncate_doc, cls_pos)],
            target_orders ++ [target_order])
  end.

Definition create_src_tok_batch (samples : list sample) (src_dict : Dictionary)
    (fix_ratio : Q) (max_doc_length max_sent_length : option Z)
    (max_tokens_len : Z) (bert_model : string)
  : M G (tensor2 token * tensor2 bool * tensor2 Z * tensor2 nat * list nat
         * list (list nat)) :=
  sep ← lift (dict_get sent_sep_dic bert_model);
  let sep_id := index src_dict sep in
  let cls_idx := cls_index src_dict in
  let pad_idx := pad src_dict in
  _ ← lift (py_assert (negb (sep_id =? 1)%Z));
  '(docs, target_orders) ←
    py.for_each
      (src_tok_doc sep_id cls_idx fix_ratio max_doc_length max_sent_length
         max_tokens_len)
      ([], []) samples;
  '(src_tokens, doc_pad_mask, segment_ids, cpos, nsents) ←
    lift (docs2tensor docs pad_idx sep_id);
  mret (src_tokens, doc_pad_mask, segment_ids, cpos, nsents, target_orders).

End permutation_path.

(** [create_target_batch]: the permutation targets and their teacher-forcing
    inputs. *)
Definition create_target_batch (tgt_orders : list (list nat))
    (tgt_dict : Dictionary) (nsents : list nat) (poniter_net : bool)
  : result (tensor2 Z * tensor2 Z) :=
  maxlen ← py.max_list nsents;
  let bsz := length tgt_orders in
  let target := torch.full2 bsz (maxlen + 1) (pad_index tgt_dict) in
  let prev_output_tokens := torch.full2 bsz (maxlen + 1) (pad_index tgt_dict) in
  py.for_each
    (λ '(target, prev_output_tokens) '(i, s),
       tgt_len ← py.index nsents i;
       _ ← py_assert (bool_decide (tgt_len = length s));
       let s := Z.of_nat <$> s in
       target ← torch.set_row_slice target i 0 tgt_len s;
       prev_output_tokens ←
         torch.set_entry prev_output_tokens i 0 (bos_index tgt_dict);
       target ←
         (if negb poniter_net
          then torch.set_entry target i tgt_len (eos_index tgt_dict)
          else torch.set_entry target i tgt_len (Z.of_nat maxlen));
       prev_output_tokens ←
         torch.set_row_slice prev_output_tokens i 1 (tgt_len + 1) s;
       mret (target, prev_output_tokens))
    (target, prev_output_tokens) (py.enumerate tgt_orders).

(** ** The documents of the masking path *)

(** The loop of [get_docs] over the sentences of one sample. *)
Fixpoint get_docs_loop (sep_id : token) (max_tokens_len : Z)
    (truncate_doc : list token) (cls_pos : list nat)
    (truncate_doc_sents sents : list sentence)
  : result (list sentence * list nat) :=
  match sents with
  | [] => Ok (truncate_doc_sents, cls_pos)
  | sent :: sents' =>
      last_token ← py.last sent;
      _ ← py_assert (last_token =? sep_id)%Z;
      if (Z.of_nat (length truncate_doc) + Z.of_nat (length sent)
            <=? max_tokens_len)%Z
      then get_docs_loop sep_id max_tokens_len (truncate_doc ++ sent)
             (cls_pos ++ [length truncate_doc])
             (truncate_doc_sents ++ [sent]) sents'
      else Ok (truncate_doc_sents, cls_pos)
  end.

(** The body of the loop over samples in [get_docs]. *)
Definition get_doc (sep_id cls_idx : token) (max_sent_length max_doc_length : option Z)
    (max_tokens_len : Z)
    (acc : list (list sentence) * list (list nat)) (s : sample)
  : result (list (list sentence) * list (list nat)) :=
  let '(docs, cls_poses) := acc in
  let source := source s in
  let sents := split_list source sep_id in
  let sents :=
    match max_doc_length with
    | Some n => py.take n sents
    | None => sents
    end in
  let sents :=
    match max_sent_length with
    | Some n => cap_sentence sep_id n <$> sents
    | None => sents
    end in
  let sents := (λ sent, cls_idx :: sent) <$> sents in
  match sents with
  | [] => Ok (docs, cls_poses)
  | _ =>
      sents ← close_last sep_id sents;
      '(truncate_doc_sents, cls_pos) ←
        get_docs_loop sep_id max_tokens_len [] [] [] sents;
      mret (docs ++ [truncate_doc_sents], cls_poses ++ [cls_pos])
  end.

Definition get_docs (samples : list sample) (vocab : Dictionary)
    (maxlen max_doc_length : option Z) (max_tokens_len : Z) (bert_model : string)
  : result (list (list sentence) * list (list nat)) :=
  sep ← dict_get sent_sep_dic bert_model;
  let sep_id := index vocab sep in
  _ ← py_assert (negb (sep_id =? unk_index vocab)%Z);
  let cls_idx := cls_index vocab in
  let max_sent_length := maxlen in
  py.for_each (get_doc sep_id cls_idx max_sent_length max_doc_length max_tokens_len)
    ([], []) samples.

(** ** The dataset *)

(** The arguments of [__init__] that batch construction reads.  The options
    without which no batch can be built ([max_sent_len], [masked_sent_prob],
    [max_predictions_per_doc]) are taken as given numbers: with [None], the
    default of [max_sent_len], [collate] raises [TypeError] at
    [self.max_sent_len + 1], before it calls anything. *)
Record options : Type := {
  src_dict : Dictionary;
  tgt_dict : Dictionary;
  is_poniter_net : bool;
  max_sent_len : Z;
  max_doc_len : option Z;
  masked_sent_prob : Q;
  max_predictions_per_doc : Z;
  shuffle_prob : Q;
  mask_other_sents : bool;
  max_tokens_len : Z;
  fix_ratio : Q;
  bert_model : string;
}.

(** The dataset object ([self]): its options and the attributes that
    [__init__] computes. *)
Record SentsPermAndPredictMaskDataset : Type := {
  opts :> options;
  min_predictions_per_doc : Z;
  sent_sep_idx : token;
  sent_mask_idx : token;
}.

(** [__init__] *)
Definition init (o : options) : result SentsPermAndPredictMaskDataset :=
  sep ← dict_get sent_sep_dic (bert_model o);
  let sent_sep_idx := index (src_dict o) sep in
  _ ← py_assert (negb (sent_sep_idx =? unk_index (src_dict o))%Z);
  let sent_mask_idx := index (src_dict o) SENT_MASK in
  mret {| opts := o;
          min_predictions_per_doc := 1;
          sent_sep_idx := sent_sep_idx;
          sent_mask_idx := sent_mask_idx |}.

(** ** The batch tensorizer of the masking path *)

(** The first loop of [doc2tensor]: flatten every document. *)
Definition flatten_doc (doc_ : list sentence) : list token * list nat :=
  foldl (λ '(doc, cls_pos) sent, (doc ++ sent, cls_pos ++ [length doc]))
        ([], []) doc_.

Definition doc2tensor (self : SentsPermAndPredictMaskDataset)
    (docs_ : list (list sentence)) (vocab : Dictionary)
  : result (tensor2 token * tensor2 bool * tensor2 Z * tensor2 nat * list nat) :=
  let docs := flatten_doc <$> docs_ in
  let pad_idx := pad vocab in
  let sep_idx := sent_sep_idx self in
  let bsz := length docs in
  let '(max_doc_len, max_nsent) := max_lens docs in
  fill ← torch.long pad_idx;
  let src_tokens := torch.full2 bsz max_doc_len fill in
  let segment_ids := torch.full2 bsz max_doc_len 0%Z in
  let cpos := torch.full2 bsz max_nsent 0 in
  let doc_pad_mask := torch.full2 bsz max_nsent true in
  '(src_tokens, doc_pad_mask, cpos, nsents) ←
    py.for_each
      (λ '(src_tokens, doc_pad_mask, cpos, nsents) '(i, (doc, cls_pos)),
         let cls_len := length cls_pos in
         doc_pad_mask ← torch.fill_row_slice doc_pad_mask i 0 cls_len false;
         positions ← torch.LongTensor_nat cls_pos;
         cpos ← torch.set_row_slice cpos i 0 cls_len positions;
         let doc_len := length doc in
         tokens ← torch.LongTensor doc;
         src_tokens ← torch.set_row_slice src_tokens i 0 doc_len tokens;
         mret (src_tokens, doc_pad_mask, cpos, nsents ++ [cls_len]))
      (src_tokens, doc_pad_mask, cpos, []) (py.enumerate docs);
  mret (src_tokens, doc_pad_mask, segment_ids, cpos, nsents).

(** ** The sentence masker *)

Section masking_path.
Context {G : Type} `{RandomState G}.
Variable self : SentsPermAndPredictMaskDataset.

(** The retry loop of [get_rnd_sent]: [tries] draws of a document index,
    stopping at the first that is not [index]. *)
Fixpoint draw_rnd_idx (tries : nat) (index : nat) (ndocs : nat) (rnd_idx : Z)
  : M G Z :=
  match tries with
  | 0 => mret rnd_idx
  | S tries' =>
      rnd_idx ← np.randint (Z.of_nat ndocs);
      if decide (rnd_idx ≠ index) then mret (Z.of_nat rnd_idx)
      else draw_rnd_idx tries' index ndocs (Z.of_nat rnd_idx)
  end.

Definition get_rnd_sent (index : nat) (docs : list (list sentence))
  : M G sentence :=
  rnd_idx ← draw_rnd_idx 10 index (length docs) (-1);
  sampled_doc ← lift (py.index_z docs rnd_idx);
  k ← np.randint (Z.of_nat (length sampled_doc));
  lift (py.index sampled_doc k).

(** [shuffle_sents] as nested in [mask_sentences]: the positions in
    [fixed_indexes] keep their sentence; with probability [shuffle_prob]
    the others are permuted, otherwise the result is a copy.  For an empty
    list [np.array(fixed_indexes)] is an array of floats, which [np.delete]
    refuses as indices. *)
Definition shuffle_sents_except (sents : list sentence)
    (fixed_indexes : list nat) (shuffle_prob : Q) : M G (list sentence) :=
  let truncate_sents := truncate_loop (max_tokens_len self) [] sents in
  let slots := replicate (length truncate_sents) None in
  let target_order := np.arange (length truncate_sents) in
  shuffled_indexes ←
    lift (match fixed_indexes with
          | [] => Raise IndexError
          | _ => np.delete target_order fixed_indexes
          end);
  u ← np.uniform;
  if Qltb u shuffle_prob then
    chosen ← lift (np.getitem target_order shuffled_indexes);
    permuted ← np.permutation chosen;
    target_order ← lift (np.setitem target_order shuffled_indexes permuted);
    kept ← lift (np.getitem target_order fixed_indexes);
    _ ← lift (py_assert (bool_decide (kept = fixed_indexes)));
    slots ← lift (place_sents sents target_order slots);
    lift (sentences_of slots)
  else mret truncate_sents.

(** [int(n * masked_sent_prob)] for a length [n]: the length becomes a
    float, the product is the product of two doubles, and [int] truncates
    it. *)
Definition scaled_len (n : nat) (masked_sent_prob : Q) : result Z :=
  len ← float.of_int (Z.of_nat n);
  float.to_int (float.mul len (float.of_Q masked_sent_prob)).

(** [num_pred] for a document of [n] sentences *)
Definition num_pred (n : nat) (masked_sent_prob : Q)
    (max_predictions_per_doc : Z) : result Z :=
  scaled ← scaled_len n masked_sent_prob;
  mret (Z.min (Z.max (min_predictions_per_doc self) scaled)
              max_predictions_per_doc).

(** The replacement sentence of the third branch, adjusted to the length
    [ori_len] of the sentence it replaces. *)
Definition fit_rnd_sent (rnd_sent : sentence) (ori_len : nat) : result sentence :=
  if decide (ori_len < length rnd_sent) then
    last_token ← py.last rnd_sent;
    mret (py.take (Z.of_nat ori_len - 1) rnd_sent ++ [last_token])
  else if decide (length rnd_sent < ori_len) then
    mret (py.take (-1) rnd_sent
            ++ replicate (ori_len - length rnd_sent) (sent_mask_idx self)
            ++ [sent_sep_idx self])
  else mret rnd_sent.

(** The body of the loop over [selected_indexes]. *)
Definition corrupt (index : nat) (docs : list (list sentence)) (doc : list sentence)
    (acc : list sentence * list sentence) (i : nat)
  : M G (list sentence * list sentence) :=
  let '(output_doc, masked_sents) := acc in
  u ← np.uniform;
  output_doc ←
    (if Qltb u (8 # 10) then
       current ← lift (py.index output_doc i);
       let masked_sent := replicate (length current) (sent_mask_idx self) in
       masked_sent ← lift (py.set_index masked_sent 0 (cls_index (src_dict self)));
       masked_sent ← lift (py.set_last masked_sent (sent_sep_idx self));
       lift (py.set_index output_doc i masked_sent)
     else
       u ← np.uniform;
       if Qltb u (1 # 2) then
         original ← lift (py.index doc i);
         lift (py.set_index output_doc i original)
       else
         rnd_sent ← get_rnd_sent index docs;
         original ← lift (py.index doc i);
         let ori_len := length original in
         rnd_sent ← lift (fit_rnd_sent rnd_sent ori_len);
         lift (py.set_index output_doc i rnd_sent));
  original ← lift (py.index doc i);
  mret (output_doc, masked_sents ++ [original]).

Definition mask_sentences (index : nat) (docs : list (list sentence))
    (masked_sent_prob : Q) (max_predictions_per_doc : Z) (vocab : Dictionary)
  : M G (list sentence * list nat * list sentence) :=
  doc ← lift (py.index docs index);
  candi_indexes ← np.shuffle (seq 0 (length doc));
  num_pred ←
    lift (num_pred (length candi_indexes) masked_sent_prob
            max_predictions_per_doc);
  _ ← lift (py_assert
              (bool_decide (length (py.take num_pred candi_indexes) =
                            length (remove_dups (py.take num_pred candi_indexes)))));
  let selected_indexes := py.take num_pred candi_indexes in
  output_doc ← shuffle_sents_except doc selected_indexes (shuffle_prob self);
  let selected_indexes := merge_sort (≤) selected_indexes in
  '(output_doc, masked_sents) ←
    py.for_each (corrupt index docs doc) (output_doc, []) selected_indexes;
  mret (output_doc, selected_indexes, masked_sents).

End masking_path.

(** ** Tensors of the masked sentences *)

(** The body of the loop that writes one target sentence. *)
Definition masked_sent2rows (self : SentsPermAndPredictMaskDataset) (i : nat)
    (acc : tensor3 token * tensor3 token) (js : nat * sentence)
  : result (tensor3 token * tensor3 token) :=
  let '(tgt_input_masked_sents, tgt_masked_sents) := acc in
  let '(j, sent) := js in
  first_token ← py.index sent 0;
  _ ← py_assert (first_token =? cls_index (src_dict self))%Z;
  let sent := drop 1 sent in
  let sent_len := length sent in
  last_token ← py.last sent;
  _ ← py_assert (last_token =? sent_sep_idx self)%Z;
  input ← torch.LongTensor (py.take (-1) sent);
  tgt_input_masked_sents ←
    torch.set_row_slice3 tgt_input_masked_sents i j 1 sent_len input;
  target ← torch.LongTensor sent;
  tgt_masked_sents ←
    torch.set_row_slice3 tgt_masked_sents i j 0 sent_len target;
  mret (tgt_input_masked_sents, tgt_masked_sents).

Definition masked_sents2tensor (self : SentsPermAndPredictMaskDataset)
    (docs_selected_indexes : list (list nat))
    (docs_masked_sents : list (list sentence))
  : result (tensor2 nat * tensor3 token * tensor3 token) :=
  let bsz := length docs_selected_indexes in
  max_nsent ← py.max_list (length <$> docs_selected_indexes);
  let tgt_selected_indexes := torch.full2 bsz max_nsent 0 in
  tgt_selected_indexes ←
    py.for_each
      (λ tgt_selected_indexes '(i, sel_idxs),
         let si_len := length sel_idxs in
         positions ← torch.LongTensor_nat sel_idxs;
         torch.set_row_slice tgt_selected_indexes i 0 si_len positions)
      tgt_selected_indexes (py.enumerate docs_selected_indexes);
  '(max_nsent2, max_sent_len) ←
    py.for_each
      (λ '(max_nsent2, max_sent_len) masked_sents,
         let max_nsent2 := max_nsent2 `max` length masked_sents in
         local_max_sent_len ← py.max_list (length <$> masked_sents);
         mret (max_nsent2, max_sent_len `max` local_max_sent_len))
      (0, 0) docs_masked_sents;
  _ ← py_assert (bool_decide (max_nsent = max_nsent2));
  let tgt_input_masked_sents :=
    torch.full3 bsz max_nsent max_sent_len (pad (src_dict self)) in
  tgt_input_masked_sents ←
    torch.fill_column3 tgt_input_masked_sents 0 (cls_index (src_dict self));
  let tgt_masked_sents :=
    torch.full3 bsz max_nsent max_sent_len (pad (src_dict self)) in
  '(tgt_input_masked_sents, tgt_masked_sents) ←
    py.for_each
      (λ acc '(i, masked_sents),
         py.for_each (masked_sent2rows self i) acc (py.enumerate masked_sents))
      (tgt_input_masked_sents, tgt_masked_sents)
      (py.enumerate docs_masked_sents);
  mret (tgt_selected_indexes, tgt_input_masked_sents, tgt_masked_sents).

Section create_batch.
Context {G : Type} `{RandomState G}.
Variable self : SentsPermAndPredictMaskDataset.

Definition create_batch (samples : list sample) (vocab : Dictionary)
    (max_sent_length : Z)
  : M G (tensor2 token * tensor2 bool * tensor2 nat * tensor3 token
         * tensor3 token * tensor2 Z * tensor2 nat * list nat) :=
  '(docs, cls_poses) ←
    lift (get_docs samples vocab (Some (max_sent_length + 1)%Z)
            (max_doc_len self) (max_tokens_len self) (bert_model self));
  '(new_docs, docs_selected_indexes, docs_masked_sents) ←
    py.for_each
      (λ '(new_docs, docs_selected_indexes, docs_masked_sents) i,
         '(new_doc, selected_indexes, masked_sents) ←
           mask_sentences self i docs (masked_sent_prob self)
             (max_predictions_per_doc self) vocab;
         mret (new_docs ++ [new_doc],
               docs_selected_indexes ++ [selected_indexes],
               docs_masked_sents ++ [masked_sents]))
      ([], [], []) (seq 0 (length docs));
  '(src_tokens, doc_pad_mask, segment_ids, cpos, nsents) ←
    lift (doc2tensor self new_docs vocab);
  '(tgt_selected_indexes, tgt_input_masked_sents, tgt_masked_sents) ←
    lift (masked_sents2tensor self docs_selected_indexes docs_masked_sents);
  mret (src_tokens, doc_pad_mask, tgt_selected_indexes, tgt_input_masked_sents,
        tgt_masked_sents, segment_ids, cpos, nsents).

End create_batch.

(** ** Attention masks *)

(** The values a batch holds. *)
Inductive pyval : Type :=
| PInt (n : Z)
| PLong1 (t : list Z)
| PLong2 (t : tensor2 Z)
| PLong3 (t : tensor3 Z)
| PIndex2 (t : tensor2 nat)
| PBool2 (t : tensor2 bool)
| PBool4 (t : tensor4 bool)
| PDict (d : list (string * pyval)).

(** [m[a:b, a:b] = True] on a square of booleans *)
Definition set_block (m : list (list bool)) (a b : nat) : list (list bool) :=
  let '(start, n) := torch.clamp_slice (length m) a b in
  take start m
    ++ ((λ row, torch.fill_slice row a b true) <$> take n (drop start m))
    ++ drop (start + n) m.

(** The inner loop of [mask_others] over the pairs of consecutive sentence
    starts; [jk] holds the loop variables [j] and [k], which the code reads
    after the loop. *)
Fixpoint sentence_blocks (pairs : list (nat * nat)) (jk : option (nat * nat))
    (plane : list (list (list bool)))
  : option (nat * nat) * list (list (list bool)) :=
  match pairs with
  | [] => (jk, plane)
  | (j, k) :: pairs' =>
      if k =? 0 then (Some (j, k), plane)
      else sentence_blocks pairs' (Some (j, k))
             ((λ m, set_block m j k) <$> plane)
  end.

Definition mask_others (src_tokens : tensor2 token) (cpos : tensor2 nat)
    (mask_other_sents : bool) (pad_idx : token) : result pyval :=
  let token_mask := map (map (λ t, negb (t =? pad_idx)%Z)) (torch.data src_tokens) in
  if mask_other_sents then
    let n_tokens := (λ row, length (filter (λ b, b = true) row)) <$> token_mask in
    match torch.size src_tokens, torch.size cpos with
    | [bsz; width], [cpos_rows; _] =>
        let token_mask := replicate bsz [replicate width (replicate width false)] in
        '(_, token_mask) ←
          py.for_each
            (λ '(jk, token_mask) i,
               cpos_i ← py.index (torch.data cpos) i;
               plane ← py.index token_mask i;
               let '(jk, plane) :=
                 sentence_blocks (zip (py.take (-1) cpos_i) (drop 1 cpos_i))
                   jk plane in
               match jk with
               | None => Raise UnboundLocalError
               | Some (j, k) =>
                   n ← py.index n_tokens i;
                   let plane :=
                     if k =? 0 then (λ m, set_block m j n) <$> plane
                     else (λ m, set_block m k n) <$> plane in
                   mret (jk, <[i:=plane]> token_mask)
               end)
            (None, token_mask) (seq 0 cpos_rows);
        mret (PBool4 (torch.Tensor [bsz; 1; width; width] token_mask))
    | _, _ => Raise IndexError
    end
  else mret (PBool2 (torch.Tensor (torch.size src_tokens) token_mask)).

(** ** Collation *)

(** The three assertions of [collate] on the two views of the batch. *)
Definition check_views (doc_pad_mask doc_pad_mask_2 : tensor2 bool)
    (segment_ids segment_ids_2 : tensor2 Z) (nsents nsents_2 : list nat)
  : result unit :=
  _ ← py_assert (torch.equal doc_pad_mask doc_pad_mask_2);
  _ ← py_assert (torch.equal segment_ids segment_ids_2);
  py_assert (bool_decide (nsents = nsents_2)).

(** A batch is a dictionary; [{}] is the empty one. *)
Definition batch : Type := list (string * pyval).

Section collate.
Context {G : Type} `{RandomState G}.
Variable self : SentsPermAndPredictMaskDataset.

(** [self.src_dict], which [collate] reads next to its argument
    [src_dict]. *)
Let self_src_dict : Dictionary := src_dict self.

Definition collate (samples : list sample) (src_dict tgt_dict : Dictionary)
    (is_poniter_net : bool) (max_doc_len : option Z) : M G batch :=
  if decide (length samples = 0) then mret []
  else
    ids ← lift (torch.LongTensor (id <$> samples));
    '(src_tokens, doc_pad_mask, segment_ids, cpos, nsents, tgt_orders) ←
      create_src_tok_batch samples src_dict (fix_ratio self) max_doc_len
        (Some (max_sent_len self + 1)%Z) (max_tokens_len self)
        (bert_model self);
    '(src_tokens_with_mask, doc_pad_mask_2, tgt_selected_indexes,
      tgt_input_masked_sents, tgt_masked_sents, segment_ids_2, cpos_mask,
      nsents_2) ←
      create_batch self samples src_dict (max_sent_len self);
    _ ← lift (check_views doc_pad_mask doc_pad_mask_2 segment_ids segment_ids_2
                nsents nsents_2);
    token_mask ←
      lift (mask_others src_tokens cpos (mask_other_sents self)
              (pad self_src_dict));
    token_mask_with_mask ←
      lift (mask_others src_tokens_with_mask cpos_mask (mask_other_sents self)
              (pad self_src_dict));
    first_row ← lift (py.index (torch.data src_tokens) 0);
    first_token ← lift (py.index first_row 0);
    let doc_pos_tok :=
      torch.Tensor (torch.size doc_pad_mask)
        (map (map (λ b : bool, if b then pad src_dict else first_token))
             (torch.data doc_pad_mask)) in
    let ntokens_sent := foldr Nat.add 0 nsents in
    let ntokens :=
      length (filter (λ t, t ≠ pad self_src_dict)
                (concat (concat (torch.data tgt_masked_sents)))) in
    '(target_perm, prev_output_tokens_perm) ←
      lift (create_target_batch tgt_orders tgt_dict nsents is_poniter_net);
    mret [ ("id", PLong1 ids);
           ("ntokens", PInt (Z.of_nat ntokens));
           ("ntokens_sent", PInt (Z.of_nat ntokens_sent));
           ("net_input", PDict [
              ("src_tokens", PLong2 src_tokens);
              ("src_tokens_with_mask", PLong2 src_tokens_with_mask);
              ("doc_pad_mask", PBool2 doc_pad_mask);
              ("token_mask", token_mask);
              ("token_mask_with_mask", token_mask_with_mask);
              ("segment_ids", PLong2 segment_ids);
              ("doc_pos_tok", PLong2 doc_pos_tok);
              ("prev_output_tokens_perm", PLong2 prev_output_tokens_perm);
              ("cls_pos", PIndex2 cpos);
              ("cls_pos_mask", PIndex2 cpos_mask);
              ("masked_sent_positions", PIndex2 tgt_selected_indexes);
              ("prev_output_tokens", PLong3 tgt_input_masked_sents) ]);
           ("target_perm", PLong2 target_perm);
           ("target", PLong3 tgt_masked_sents) ]%string.

(** [collater]: the entry point, which calls [collate] on the dataset's own
    dictionaries and options. *)
Definition collater (samples : list sample) : M G batch :=
  collate samples (src_dict self) (tgt_dict self) (is_poniter_net self)
    (max_doc_len self).

End collate.

(** ** Properties of sentences and documents *)

(** A sentence as the data model has it: the class token first, the
    separator last. *)
Definition framed_sentence (cls sep : token) (s : sentence) : Prop :=
  ∃ body, s = cls :: body ++ [sep].

(** A collection of documents all of whose sentences are framed. *)
Definition framed_docs (cls sep : token) (docs : list (list sentence)) : Prop :=
  Forall (Forall (framed_sentence cls sep)) docs.

(** Strictly increasing lists of positions. *)
Definition increasing (l : list nat) : Prop := Sorted lt l.

(** The offsets at which the sentences of a document start once it is
    flattened from offset [off] on. *)
Fixpoint starts_from (off : nat) (sents : list sentence) : list nat :=
  match sents with
  | [] => []
  | sent :: sents' => off :: starts_from (off + length sent) sents'
  end.

(** The sentences of one sample as both paths prepare them: split, capped
    in number and in length, and each given the class token. *)
Definition prepare_sents (sep_id cls_idx : token)
    (max_doc_length max_sent_length : option Z) (src : list token)
  : list sentence :=
  let sents := split_list src sep_id in
  let sents :=
    match max_doc_length with
    | Some n => py.take n sents
    | None => sents
    end in
  let sents :=
    match max_sent_length with
    | Some n => cap_sentence sep_id n <$> sents
    | None => sents
    end in
  (λ sent, cls_idx :: sent) <$> sents.

(** The document of one sample: its prepared sentences, the last one closed
    by the separator, kept while they fit in the token budget.  A sample
    without sentences gives no document. *)
Definition sample_doc (sep_id cls_idx : token)
    (max_doc_length max_sent_length : option Z) (max_tokens_len : Z)
    (s : sample) : option (list sentence) :=
  match prepare_sents sep_id cls_idx max_doc_length max_sent_length (source s) with
  | [] => None
  | sents =>
      match close_last sep_id sents with
      | Ok sents => Some (truncate_loop max_tokens_len [] sents)
      | Raise _ => None
      end
  end.

(** The size of a flattened document: its tokens and its sentences. *)
Definition doc_shape (doc : list token * list nat) : nat * nat :=
  (length doc.1, length doc.2).

(** The rows [docs2tensor] builds: every document followed by padding up to
    the widest, every sentence-start list followed by zeros, the mask false
    on the sentences and true on the padding. *)
Definition padded_tokens (pad_idx : token) (width : nat) (d : list token * list nat)
  : list token := d.1 ++ replicate (width - length d.1) pad_idx.
Definition padded_cls_pos (width : nat) (d : list token * list nat) : list nat :=
  d.2 ++ replicate (width - length d.2) 0.
Definition pad_mask_row (width : nat) (d : list token * list nat) : list bool :=
  replicate (length d.2) false ++ replicate (width - length d.2) true.

(** A flattened document whose tokens and sentence starts are all int64. *)
Definition doc_fits (d : list token * list nat) : bool :=
  forallb (λ p, torch.fits_long (Z.of_nat p)) d.2 && forallb torch.fits_long d.1.

(** The size of a document given as sentences. *)
Definition sents_shape (sents : list sentence) : nat * nat :=
  (py.sum_len sents, length sents).

(** [max_doc_length] as [if max_doc_length:] reads it in
    [create_src_tok_batch]: [None] and [0] both switch the cap off. *)
Definition if_truthy (max_doc_length : option Z) : option Z :=
  match max_doc_length with
  | Some n => if (n =? 0)%Z then None else Some n
  | None => None
  end.

(** A sentence that begins with the class token and goes on. *)
Definition classed_sentence (cls : token) (s : sentence) : Prop :=
  ∃ t, t ≠ [] ∧ s = cls :: t.

(** The row [t[i, j]] of a tensor of three dimensions, if there is one. *)
Definition entry3 {A} (t : tensor3 A) (i j : nat) : option (list A) :=
  torch.data t !! i ≫= λ plane, plane !! j.

(** What one step of masked-target tensorization does to the rows
    [(i, j)] of the two tensors, for the sentence [sent]: the assertions on
    [sent] hold, and the rows are written by the two slice assignments. *)
Definition rows_written (cls sep : token) (sent : sentence)
    (old new : option (list Z) * option (list Z)) : Prop :=
  ∃ row_in row_t row_in' row_t',
    old = (Some row_in, Some row_t) ∧
    new = (Some row_in', Some row_t') ∧
    head sent = Some cls ∧
    last (drop 1 sent) = Some sep ∧
    torch.set_slice row_in 1 (length (drop 1 sent)) (py.take (-1) (drop 1 sent))
      = Ok row_in' ∧
    torch.set_slice row_t 0 (length (drop 1 sent)) (drop 1 sent) = Ok row_t'.

(** The row of the masked-target tensor in the words of the
    specification: "the original full sentence including the trailing
    separator", padded with the pad id. *)
Definition spec_target_row (pad_idx : token) (sent row : list Z) : Prop :=
  ∃ n, row = sent ++ replicate n pad_idx.

(** ** The masking count as the specification words it *)

(** Rounding to the nearest integer (halves go up). *)
Definition round_nearest (x : Q) : Z := Qfloor (x + (1 # 2)).

(** [clamp(x, lo, hi)] *)
Definition clamp (x lo hi : Z) : Z := Z.max lo (Z.min x hi).

(** The number of masked positions in the words of the specification:
    [clamp(round(len(doc) * p), min_predictions, max_predictions)]. *)
Definition spec_num_pred (self : SentsPermAndPredictMaskDataset) (n : nat)
    (masked_sent_prob : Q) (max_predictions_per_doc : Z) : Z :=
  clamp (round_nearest (inject_Z (Z.of_nat n) * masked_sent_prob))
        (min_predictions_per_doc self) max_predictions_per_doc.

(** ** A small vocabulary, dataset and batch *)

Definition demo_dict : Dictionary :=
  {| index := λ sym,
       if String.eqb sym "</s>" then 2%Z
       else if String.eqb sym "<sent_mask>" then 50%Z
       else 3%Z;
     unk_index := 3%Z;
     pad_index := 1%Z;
     cls_index := 0%Z;
     bos_index := 0%Z;
     eos_index := 2%Z |}.

Definition demo_options : options :=
  {| src_dict := demo_dict;
     tgt_dict := demo_dict;
     is_poniter_net := true;
     max_sent_len := 10%Z;
     max_doc_len := Some 30%Z;
     masked_sent_prob := 7 # 16;
     max_predictions_per_doc := 5%Z;
     shuffle_prob := 1;
     mask_other_sents := false;
     max_tokens_len := 100%Z;
     fix_ratio := 0;
     bert_model := "roberta-base" |}.

(** The dataset that [__init__] builds from [demo_options]. *)
Definition demo_dataset : SentsPermAndPredictMaskDataset :=
  {| opts := demo_options;
     min_predictions_per_doc := 1%Z;
     sent_sep_idx := 2%Z;
     sent_mask_idx := 50%Z |}.

Definition demo_samples : list sample :=
  [ {| id := 0%Z;
       source := [10; 11; 2; 12; 13; 14; 2; 15; 2; 16; 17]%Z;
       target := None |};
    {| id := 1%Z;
       source := [20; 21; 22; 2; 23; 2]%Z;
       target := None |} ].

(** The documents [get_docs] makes of [demo_samples]. *)
Definition demo_docs : list (list sentence) :=
  [ [ [0; 10; 11; 2]; [0; 12; 13; 14; 2]; [0; 15; 2]; [0; 16; 17; 2] ];
    [ [0; 20; 21; 22; 2]; [0; 23; 2] ] ]%Z.

(** A state of the tape generator. *)
Definition demo_tape : list Z :=
  [3; 1; 0; 7; 9007199254740991; 3; 0; 1; 1; 1; 1; 1]%Z.

(** A vocabulary that has a separator but no sentence-mask symbol, so that
    looking the mask up gives the unknown-token id. *)
Definition maskless_dict : Dictionary :=
  {| index := λ sym, if String.eqb sym "</s>" then 2%Z else 3%Z;
     unk_index := 3%Z;
     pad_index := 1%Z;
     cls_index := 0%Z;
     bos_index := 0%Z;
     eos_index := 2%Z |}.

Definition maskless_options : options :=
  {| src_dict := maskless_dict;
     tgt_dict := maskless_dict;
     is_poniter_net := true;
     max_sent_len := 10%Z;
     max_doc_len := Some 30%Z;
     masked_sent_prob := 7 # 16;
     max_predictions_per_doc := 5%Z;
     shuffle_prob := 1;
     mask_other_sents := false;
     max_tokens_len := 100%Z;
     fix_ratio := 0;
     bert_model := "roberta-base" |}.

(** * Further definitions *)

(** ** Documents in the making *)

(** Every sentence but the last ends with the separator. *)
Definition closed_but_last (sep_id : token) (sents : list sentence) : Prop :=
  ∀ i s, sents !! i = Some s → S i < length sents → last s = Some sep_id.

(** ** The dataset as a collection of examples *)

(** The attributes of the dataset that indexing, ordering and size filtering
    read: the two collections of token sequences, their sizes, the two
    position limits and the [shuffle] flag. *)
Record examples : Type := {
  src : list (list token);
  tgt : option (list (list token));
  src_sizes : list Z;
  tgt_sizes : option (list Z);
  max_source_positions : Z;
  max_target_positions : Z;
  shuffle : bool;
}.

(** [__getitem__] *)
Definition getitem (self : examples) (index : nat) : result sample :=
  source ← py.index (src self) index;
  target ←
    match tgt self with
    | Some tgt => t ← py.index tgt index; mret (Some t)
    | None => mret None
    end;
  mret {| id := Z.of_nat index; source := source; target := target |}.

(** [__len__] *)
Definition len (self : examples) : nat := length (src self).

(** [ordered_indices]: a random order when [shuffle] is set, drawn from the
    generator of [np.random]. *)
Definition ordered_indices {G} `{RandomState G} (self : examples)
  : M G (list nat) :=
  if shuffle self then np.permutation (np.arange (len self))
  else mret (np.arange (len self)).

(** [_get_max_positions]: the limits of the dataset, lowered to those of
    the caller when there are any. *)
Definition _get_max_positions (self : examples) (max_positions : option (list Z))
  : result (Z * Z) :=
  match max_positions with
  | None => Ok (max_source_positions self, max_target_positions self)
  | Some max_positions =>
      _ ← py_assert (bool_decide (length max_positions = 2));
      match max_positions with
      | [max_src_pos; max_tgt_pos] =>
          Ok (Z.min (max_source_positions self) max_src_pos,
              Z.min (max_target_positions self) max_tgt_pos)
      | _ => Raise ValueError
      end
  end.

(** [valid_size]; [and] and [or] evaluate their second operand only when
    the first does not decide. *)
Definition valid_size (self : examples) (index : Z) (max_positions : option (list Z))
  : result bool :=
  '(max_source_positions, max_target_positions) ←
    _get_max_positions self max_positions;
  src_size ← py.index_z (src_sizes self) index;
  if (src_size <=? max_source_positions)%Z then
    match tgt_sizes self with
    | None => Ok true
    | Some tgt_sizes =>
        tgt_size ← py.index_z tgt_sizes index;
        Ok (tgt_size <=? max_target_positions)%Z
    end
  else Ok false.

(** [size] *)
Definition size (self : examples) (index : Z) : result (Z * Z) :=
  src_size ← py.index_z (src_sizes self) index;
  tgt_size ←
    match tgt_sizes self with
    | Some tgt_sizes => py.index_z tgt_sizes index
    | None => Ok 0%Z
    end;
  mret (src_size, tgt_size).

(** [num_tokens] *)
Definition num_tokens (self : examples) (index : Z) : result Z :=
  src_size ← py.index_z (src_sizes self) index;
  tgt_size ←
    match tgt_sizes self with
    | Some tgt_sizes => py.index_z tgt_sizes index
    | None => Ok 0%Z
    end;
  mret (Z.max src_size tgt_size).

(** ** The dummy batch *)

(** The two sentence lengths that [get_dummy_batch] computes,
    [max_tokens_len // max_doc_len] and what is left for the last sentence.
    There are none where the source raises: when [max_doc_len] is [None]
    ([TypeError]) or zero ([ZeroDivisionError]). *)
Definition dummy_sent_lens (self : SentsPermAndPredictMaskDataset)
  : option (Z * Z) :=
  match max_doc_len self with
  | Some max_doc_len =>
      if (max_doc_len =? 0)%Z then None
      else
        let sent_len := (max_tokens_len self / max_doc_len)%Z in
        let last_sent_len :=
          (max_tokens_len self - (max_doc_len - 1) * sent_len)%Z in
        Some (sent_len, last_sent_len)
  | None => None
  end.

(** [create_src], nested in [get_dummy_batch]: [max_doc_len] sentences of
    unknown tokens, with a separator after each but the last. *)
Definition create_src (self : SentsPermAndPredictMaskDataset)
    (sent_len last_sent_len max_doc_len : Z) : list token :=
  foldl
    (λ doc i,
       let cur_sent_len :=
         if decide (Z.of_nat i ≠ (max_doc_len - 1)%Z) then sent_len
         else last_sent_len in
       let doc :=
         doc ++ replicate (Z.to_nat (cur_sent_len - 1))
                  (unk_index (src_dict self)) in
       if decide (Z.of_nat i ≠ (max_doc_len - 1)%Z)
       then doc ++ [sent_sep_idx self] else doc)
    [] (seq 0 (Z.to_nat max_doc_len)).

(** ** Sentence blocks of an attention mask *)

(** The cell [m[a][b]] of a matrix. *)
Definition cell {A} (m : list (list A)) (a b : nat) : option A :=
  m !! a ≫= λ row, row !! b.

(** The token ranges of the sentences of a document of [n_tokens] tokens
    whose sentences start at [starts]: every sentence goes up to the start of
    the next one, the last one up to the end of the document. *)
Definition sentence_ranges (starts : list nat) (n_tokens : nat) : list (nat * nat) :=
  zip starts (drop 1 starts ++ [n_tokens]).

(** Two positions fall in one range. *)
Definition in_range (a b : nat) (r : nat * nat) : Prop :=
  (r.1 ≤ a < r.2) ∧ (r.1 ≤ b < r.2).

#[global] Instance in_range_dec a b r : Decision (in_range a b r).
Proof. unfold in_range. apply _. Defined.

(** The pairs of consecutive sentence starts that the inner loop of
    [mask_others] goes through before it stops, and the loop variables it
    leaves. *)
Fixpoint run_pairs (pairs : list (nat * nat)) : list (nat * nat) :=
  match pairs with
  | [] => []
  | (j, k) :: pairs' => if k =? 0 then [] else (j, k) :: run_pairs pairs'
  end.

Fixpoint left_pair (pairs : list (nat * nat)) (jk : option (nat * nat))
  : option (nat * nat) :=
  match pairs with
  | [] => jk
  | (j, k) :: pairs' => if k =? 0 then Some (j, k) else left_pair pairs' (Some (j, k))
  end.

(** A vocabulary that gives the separator the id [1], and the options of a
    dataset over it. *)
Definition sep_one_dict : Dictionary :=
  {| index := λ sym,
       if String.eqb sym "</s>" then 1%Z
       else if String.eqb sym "<sent_mask>" then 50%Z
       else 3%Z;
     unk_index := 3%Z;
     pad_index := 1%Z;
     cls_index := 0%Z;
     bos_index := 0%Z;
     eos_index := 2%Z |}.

Definition sep_one_options : options :=
  {| src_dict := sep_one_dict;
     tgt_dict := sep_one_dict;
     is_poniter_net := true;
     max_sent_len := 10%Z;
     max_doc_len := Some 30%Z;
     masked_sent_prob := 7 # 16;
     max_predictions_per_doc := 5%Z;
     shuffle_prob := 1;
     mask_other_sents := false;
     max_tokens_len := 100%Z;
     fix_ratio := 0;
     bert_model := "roberta-base" |}.

(** Two examples without targets, visited in order. *)
Definition demo_examples : examples :=
  {| src := [[10; 11; 2; 12]; [20; 2]]%Z;
     tgt := None;
     src_sizes := [4; 2]%Z;
     tgt_sizes := None;
     max_source_positions := 1024%Z;
     max_target_positions := 1024%Z;
     shuffle := false |}.

(** * Theorems *)

Section split_list_facts.
Variable key : token.

Lemma split_list_loop_inv lst : ∀ sublist res res' sublist',
  key ∉ sublist →
  split_list_loop lst key sublist res = (res', sublist') →
  ∃ closed,
    res' = res ++ closed ∧
    Forall (closed_sentence key) closed ∧
    (key ∉ sublist') ∧
    sublist ++ lst = concat closed ++ sublist'.
Proof.
  induction lst as [|v lst IH]; intros sublist res res' sublist' Hsub Hrun;
    simpl in Hrun.
  - simplify_eq. exists []. simpl.
    rewrite !app_nil_r. auto.
  - destruct (Z.eqb_spec v key) as [->|Hne].
    + rewrite length_app in Hrun. simpl in Hrun.
      replace (0 <? length sublist + 1) with true in Hrun
        by (symmetry; apply Nat.ltb_lt; lia).
      apply IH in Hrun as (closed & -> & Hall & Hk & Heq);
        [|apply not_elem_of_nil].
      exists ((sublist ++ [key]) :: closed). repeat split.
      * by rewrite <- app_assoc.
      * constructor; [by exists sublist|done].
      * done.
      * simpl in *. rewrite <- app_assoc, <- Heq. by rewrite <- !app_assoc.
    + apply IH in Hrun as (closed & -> & Hall & Hk & Heq).
      * exists closed. repeat split; try done.
        rewrite <- Heq. by rewrite <- app_assoc.
      * rewrite elem_of_app, list_elem_of_singleton. intros [?|?]; [done|congruence].
Qed.

Lemma split_list_loop_body body : ∀ lst sublist res,
  key ∉ body →
  split_list_loop (body ++ lst) key sublist res =
  split_list_loop lst key (sublist ++ body) res.
Proof.
  induction body as [|v body IH]; intros lst sublist res Hk; simpl.
  - by rewrite app_nil_r.
  - apply not_elem_of_cons in Hk as [Hv Hk].
    destruct (Z.eqb_spec v key) as [->|_]; [done|].
    rewrite IH by done. by rewrite <- app_assoc.
Qed.

Lemma split_list_loop_closed closed : ∀ lst res,
  Forall (closed_sentence key) closed →
  split_list_loop (concat closed ++ lst) key [] res =
  split_list_loop lst key [] (res ++ closed).
Proof.
  induction closed as [|s closed IH]; intros lst res Hall; simpl.
  - by rewrite app_nil_r.
  - apply Forall_cons in Hall as [(body & -> & Hk) Hall].
    rewrite <- !app_assoc, split_list_loop_body by done. simpl.
    rewrite Z.eqb_refl, length_app. simpl.
    replace (0 <? length body + 1) with true
      by (symmetry; apply Nat.ltb_lt; lia).
    rewrite IH by done. by rewrite <- app_assoc.
Qed.

End split_list_facts.

Lemma split_list_loop_run lst key :
  ∃ closed sublist,
    split_list_loop lst key [] [] = (closed, sublist) ∧
    Forall (closed_sentence key) closed ∧ (key ∉ sublist) ∧
    lst = concat closed ++ sublist.
Proof.
  destruct (split_list_loop lst key [] []) as [res sublist] eqn:Hrun.
  apply split_list_loop_inv in Hrun as (closed & -> & ? & ? & ?);
    [|apply not_elem_of_nil].
  by exists closed, sublist.
Qed.

Lemma closed_sentence_nonempty key s : closed_sentence key s → s ≠ [].
Proof. intros (body & -> & _). by destruct body. Qed.

Lemma split_list_nonempty lst key :
  Forall (λ s : list Z, s ≠ []) (split_list lst key).
Proof.
  destruct (split_list_loop_run lst key) as (closed & sublist & Hrun & Hall & _).
  unfold split_list. rewrite Hrun.
  assert (Forall (λ s : list Z, s ≠ []) closed).
  { eapply Forall_impl; [exact Hall|]. apply closed_sentence_nonempty. }
  destruct sublist; simpl; [done|].
  apply Forall_app. split; [done|]. by repeat constructor.
Qed.

(** C9.  [split_list] cuts the input after every separator and nowhere else:
    the sentences, concatenated in order, give back the input (no token is
    dropped); no sentence is empty (an empty remainder is omitted); every
    sentence is closed by the separator, which occurs nowhere else in it,
    except possibly a last one that holds no separator at all (the trailing
    remainder, emitted when it is not empty).  Conversely, whenever the input
    is a run of closed sentences followed by a separator-free remainder, the
    result is exactly those sentences, followed by the remainder if it is
    not empty. *)
Theorem split_list_sentences (lst : list token) (key : token) :
  concat (split_list lst key) = lst ∧
  Forall (λ s, s ≠ []) (split_list lst key) ∧
  (∃ closed rest,
      split_list lst key = closed ++ rest ∧
      Forall (closed_sentence key) closed ∧
      (rest = [] ∨ ∃ s, rest = [s] ∧ s ≠ [] ∧ key ∉ s)) ∧
  (∀ closed remainder,
      lst = concat closed ++ remainder →
      Forall (closed_sentence key) closed →
      key ∉ remainder →
      split_list lst key =
        closed ++ (match remainder with [] => [] | _ => [remainder] end)).
Proof.
  pose proof (split_list_loop_run lst key) as Hdec.
  destruct Hdec as (closed & sublist & Hrun & Hall & Hk & Hlst).
  assert (Hres : split_list lst key =
    closed ++ (match sublist with [] => [] | _ => [sublist] end)).
  { unfold split_list. rewrite Hrun.
    destruct sublist; simpl; by rewrite ?app_nil_r. }
  split; [|split; [|split]].
  - rewrite Hres, Hlst, concat_app.
    destruct sublist; simpl; by rewrite ?app_nil_r.
  - apply split_list_nonempty.
  - exists closed, (match sublist with [] => [] | _ => [sublist] end).
    split; [done|]. split; [done|].
    destruct sublist as [|t sublist]; [by left|right].
    by exists (t :: sublist).
  - intros closed' remainder -> Hall' Hk'.
    unfold split_list.
    rewrite split_list_loop_closed by done.
    rewrite <- (app_nil_r remainder), split_list_loop_body by done.
    simpl. destruct remainder; simpl; by rewrite ?app_nil_r.
Qed.

(** ** Running computations *)

Section monad_facts.
Context {G : Type}.

Lemma bind_Ok {A B} (m : M G A) (f : A → M G B) g b g' :
  (m ≫= f) g = Ok (b, g') ↔ ∃ a g1, m g = Ok (a, g1) ∧ f a g1 = Ok (b, g').
Proof.
  unfold mbind, M_bind. destruct (m g) as [[a g1]|e]; naive_solver.
Qed.

Lemma mret_Ok {A} (a b : A) (g g' : G) :
  mret (M:=M G) a g = Ok (b, g') ↔ a = b ∧ g = g'.
Proof. unfold mret, M_ret. naive_solver. Qed.

Lemma lift_Ok {A} (r : result A) (g g' : G) a :
  lift r g = Ok (a, g') ↔ r = Ok a ∧ g = g'.
Proof. unfold lift. destruct r; naive_solver. Qed.

Lemma raise_Ok {A} e (g g' : G) (a : A) : raise e g = Ok (a, g') ↔ False.
Proof. unfold raise. naive_solver. Qed.

(** A computation goes on from the result of its first step. *)
Lemma bind_run {A B} (m : M G A) (f : A → M G B) g a g1 :
  m g = Ok (a, g1) → (m ≫= f) g = f a g1.
Proof. unfold mbind, M_bind. by intros ->. Qed.

Lemma lift_run {A B} (r : result A) (f : A → M G B) g a :
  r = Ok a → (lift r ≫= f) g = f a g.
Proof. by intros ->. Qed.

Lemma lift_raise {A B} (r : result A) (f : A → M G B) g e :
  r = Raise e → (lift r ≫= f) g = Raise e.
Proof. by intros ->. Qed.

End monad_facts.

Lemma rbind_Ok {A B} (m : result A) (f : A → result B) b :
  m ≫= f = Ok b ↔ ∃ a, m = Ok a ∧ f a = Ok b.
Proof. unfold mbind, result_bind. destruct m; naive_solver. Qed.

Lemma rret_Ok {A} (a b : A) : mret (M:=result) a = Ok b ↔ a = b.
Proof. unfold mret, result_ret. naive_solver. Qed.

Lemma py_assert_Ok b u : py_assert b = Ok u ↔ b = true.
Proof. destruct b, u; simpl; naive_solver. Qed.

Lemma py_index_Ok {A} (l : list A) i a : py.index l i = Ok a ↔ l !! i = Some a.
Proof. unfold py.index. destruct (l !! i); naive_solver. Qed.

Lemma py_last_Ok {A} (l : list A) a : py.last l = Ok a ↔ last l = Some a.
Proof. unfold py.last. destruct (last l); naive_solver. Qed.

Lemma py_set_index_Ok {A} (l l' : list A) i a :
  py.set_index l i a = Ok l' ↔ i < length l ∧ l' = <[i:=a]> l.
Proof. unfold py.set_index. case_decide; naive_solver. Qed.

Lemma py_set_last_Ok {A} (l l' : list A) a :
  py.set_last l a = Ok l' ↔ 0 < length l ∧ l' = <[length l - 1:=a]> l.
Proof. unfold py.set_last. destruct l; simpl; [naive_solver lia|]. naive_solver lia. Qed.

Lemma rbind_Ok_l {A B} (a : A) (f : A → result B) : Ok a ≫= f = f a.
Proof. done. Qed.

Lemma py_index_Some {A} (l : list A) i a : l !! i = Some a → py.index l i = Ok a.
Proof. apply py_index_Ok. Qed.

Lemma py_set_index_lt {A} (l : list A) i a :
  i < length l → py.set_index l i a = Ok (<[i:=a]> l).
Proof. intros. by apply py_set_index_Ok. Qed.

(** Take a successful run apart, one step at a time. *)
Ltac step_run H :=
  match type of H with
  | (_ ≫= _) _ = Ok _ =>
      let a := fresh "a" in let g := fresh "g" in let E := fresh "E" in
      apply bind_Ok in H as (a & g & E & H)
  | _ ≫= _ = Ok _ =>
      let a := fresh "a" in let E := fresh "E" in
      apply rbind_Ok in H as (a & E & H)
  | mret _ _ = Ok _ => apply mret_Ok in H as [? ?]
  | mret _ = Ok _ => apply (proj1 (rret_Ok _ _)) in H
  | lift _ _ = Ok _ => apply lift_Ok in H as [H ?]
  | raise _ _ = Ok _ => by apply raise_Ok in H
  | Raise _ = Ok _ => discriminate H
  | Ok _ = Ok _ => injection H as H
  | py_assert _ = Ok _ => apply py_assert_Ok in H
  | py.index _ _ = Ok _ => apply py_index_Ok in H
  | py.last _ = Ok _ => apply py_last_Ok in H
  | py.set_index _ _ _ = Ok _ => apply py_set_index_Ok in H as [? H]
  | py.set_last _ _ = Ok _ => apply py_set_last_Ok in H as [? H]
  end.

Ltac run :=
  repeat match goal with
         | H : _ = Ok _ |- _ => progress (step_run H)
         | H : (let '(_, _) := ?x in _) _ = Ok _ |- _ => destruct x
         | H : (let '(_, _) := ?x in _) = Ok _ |- _ => destruct x
         end.

(** ** The random generator *)

Section random_facts.
Context {G : Type} `{RandomState G}.

Lemma random_interval_total max g :
  ∃ k g', np.random_interval max g = Ok (k, g') ∧ k ≤ max.
Proof.
  unfold np.random_interval. destruct (random_raw g) as [r g'].
  eexists _, _. split; [done|].
  pose proof (Z.mod_pos_bound r (Z.of_nat max + 1)). lia.
Qed.

Lemma random_interval_Ok max g k g' :
  np.random_interval max g = Ok (k, g') → k ≤ max.
Proof.
  destruct (random_interval_total max g) as (k' & g'' & -> & ?).
  by intros [= <- <-].
Qed.

Lemma randint_Ok high g k g' :
  np.randint high g = Ok (k, g') → (Z.of_nat k < high)%Z.
Proof.
  unfold np.randint. destruct (Z.leb_spec high 0); [by intros ?%raise_Ok|].
  intros ?%random_interval_Ok. lia.
Qed.

Lemma randint_total high g :
  (0 < high)%Z → ∃ k g', np.randint high g = Ok (k, g') ∧ (Z.of_nat k < high)%Z.
Proof.
  intros Hpos. unfold np.randint. destruct (Z.leb_spec high 0); [lia|].
  destruct (random_interval_total (Z.to_nat (high - 1)) g) as (k & g' & ? & ?).
  exists k, g'. split; [done|lia].
Qed.

Lemma randint_empty high g :
  (high ≤ 0)%Z → np.randint high g = Raise ValueError.
Proof.
  intros Hle. unfold np.randint. by destruct (Z.leb_spec high 0); [|lia].
Qed.

Lemma uniform_total g : ∃ u g', np.uniform g = Ok (u, g').
Proof. unfold np.uniform. destruct (random_raw g). by eexists _, _. Qed.

Lemma swap_Permutation {A} (x : list A) i j : np.swap x i j ≡ₚ x.
Proof.
  unfold np.swap.
  destruct (x !! i) as [a|] eqn:Hi; [|done].
  destruct (x !! j) as [b|] eqn:Hj; [|done].
  apply Permutation_inj. rewrite !length_insert. split; [done|].
  pose proof (lookup_lt_Some _ _ _ Hi). pose proof (lookup_lt_Some _ _ _ Hj).
  exists (λ k, if decide (k = i) then j else if decide (k = j) then i else k).
  split.
  - intros k1 k2. repeat case_decide; intros; subst; congruence.
  - intros k. rewrite !list_lookup_insert, !length_insert.
    repeat case_decide; subst; try done; try lia; destruct_and?; subst; congruence.
Qed.

Lemma shuffle_loop_total {A} i : ∀ (x : list A) g,
  ∃ x' g', np.shuffle_loop i x g = Ok (x', g') ∧ x' ≡ₚ x.
Proof.
  induction i as [|i IH]; intros x g; simpl.
  - by exists x, g.
  - destruct (random_interval_total (S i) g) as (j & g1 & Hj & _).
    destruct (IH (np.swap x (S i) j) g1) as (x' & g' & Hx' & Hperm).
    exists x', g'. split.
    + apply bind_Ok. eauto.
    + by rewrite Hperm, swap_Permutation.
Qed.

(** [rng.shuffle] always returns, and what it returns is a permutation of
    what it was given. *)
Lemma shuffle_total {A} (x : list A) g :
  ∃ x' g', np.shuffle x g = Ok (x', g') ∧ x' ≡ₚ x.
Proof. apply shuffle_loop_total. Qed.

Lemma shuffle_Ok {A} (x x' : list A) g g' :
  np.shuffle x g = Ok (x', g') → x' ≡ₚ x.
Proof.
  destruct (shuffle_total x g) as (x'' & g'' & -> & ?). by intros [= <- <-].
Qed.

End random_facts.

(** ** Index arrays *)

Section index_array_facts.
Context {A : Type}.
Implicit Types arr vals : list A.
Implicit Types idxs : list nat.

Lemma getitem_Ok arr idxs : ∀ vals,
  np.getitem arr idxs = Ok vals →
  length vals = length idxs ∧
  ∀ k i, idxs !! k = Some i → vals !! k = arr !! i ∧ i < length arr.
Proof.
  induction idxs as [|i idxs IH]; intros vals Hrun; simpl in Hrun.
  - injection Hrun as <-. split; [done|]. by intros [|?] ?.
  - do 2 step_run Hrun. step_run Hrun. subst vals. step_run E.
    apply IH in E0 as [Hlen Hget]. split; [by simpl; f_equal|].
    intros [|k] i' Hk; simpl in *.
    + injection Hk as <-. split; [done|]. by eapply lookup_lt_Some.
    + by apply Hget.
Qed.

Lemma getitem_total arr idxs :
  Forall (λ i, i < length arr) idxs → ∃ vals, np.getitem arr idxs = Ok vals.
Proof.
  induction 1 as [|i idxs Hi _ [vals IH]]; simpl; [by eexists|].
  apply lookup_lt_is_Some in Hi as [a Ha].
  exists (a :: vals). unfold py.index. by rewrite Ha; simpl; rewrite IH.
Qed.

Lemma setitem_loop_Ok idxs : ∀ arr vals arr',
  length vals = length idxs →
  np.setitem_loop arr idxs vals = Ok arr' →
  length arr' = length arr ∧
  Forall (λ i, i < length arr) idxs ∧
  (∀ j, j ∉ idxs → arr' !! j = arr !! j) ∧
  (NoDup idxs → ∀ k i, idxs !! k = Some i → arr' !! i = vals !! k).
Proof.
  induction idxs as [|i idxs IH]; intros arr [|a vals] arr' Hlen Hrun;
    simplify_eq/=.
  - repeat split; auto. by intros ? [|?] ?.
  - step_run Hrun. step_run E. subst.
    apply IH in Hrun as (Hl & Hall & Hout & Hin); [|done].
    rewrite length_insert in Hl, Hall.
    split; [done|]. split; [by constructor|]. split.
    + intros j [Hne Hj]%not_elem_of_cons.
      by rewrite Hout, list_lookup_insert_ne.
    + intros [Hi Hnd]%NoDup_cons [|k] i' Hk; simpl in *.
      * injection Hk as <-. by rewrite Hout, list_lookup_insert_eq.
      * by apply Hin.
Qed.

Lemma setitem_loop_total idxs : ∀ arr vals,
  Forall (λ i, i < length arr) idxs → ∃ arr', np.setitem_loop arr idxs vals = Ok arr'.
Proof.
  induction idxs as [|i idxs IH]; intros arr vals Hall; simpl; [by eexists|].
  destruct vals as [|a vals]; [by eexists|].
  apply Forall_cons in Hall as [Hi Hall].
  unfold py.set_index. rewrite decide_True by done. simpl.
  apply IH. by rewrite length_insert.
Qed.

Lemma setitem_same_length arr idxs vals :
  length vals = length idxs →
  np.setitem arr idxs vals = np.setitem_loop arr idxs vals.
Proof. intros Hlen. unfold np.setitem. by rewrite decide_True. Qed.

End index_array_facts.

Lemma delete_arange n obj sh :
  np.delete (np.arange n) obj = Ok sh →
  sh = filter (λ i, i ∉ obj) (seq 0 n) ∧ Forall (λ i, i < n) obj.
Proof.
  unfold np.delete, np.arange, py.enumerate. rewrite !length_seq.
  case_decide as Hall; [|done]. intros [= <-]. split; [|done].
  generalize 0. clear Hall. induction n as [|n IH]; intros start; simpl; [done|].
  rewrite !filter_cons. simpl. case_decide; simpl; by rewrite IH.
Qed.

Lemma delete_arange_total n obj :
  Forall (λ i, i < n) obj → ∃ sh, np.delete (np.arange n) obj = Ok sh.
Proof.
  intros Hall. unfold np.delete, np.arange. rewrite length_seq.
  rewrite decide_True by done. by eexists.
Qed.

Lemma getitem_arange n idxs vals :
  np.getitem (np.arange n) idxs = Ok vals → vals = idxs ∧ Forall (λ i, i < n) idxs.
Proof.
  intros [Hlen Hget]%getitem_Ok. split.
  - apply list_eq. intros k. destruct (idxs !! k) as [i|] eqn:Hk.
    + destruct (Hget _ _ Hk) as [-> Hi]. unfold np.arange in *.
      rewrite length_seq in Hi. by rewrite lookup_seq_lt.
    + apply lookup_ge_None. apply lookup_ge_None in Hk. lia.
  - apply Forall_lookup. intros k i Hk.
    destruct (Hget _ _ Hk) as [_ Hi]. unfold np.arange in Hi.
    by rewrite length_seq in Hi.
Qed.

(** The order array after the positions outside [fixed] have received a
    permutation of themselves: a permutation of [0 .. n-1] that leaves every
    position of [fixed] in place. *)
Lemma setitem_unfixed n (fixed : list nat) permuted target_order :
  let shuffled_indexes := filter (λ i, i ∉ fixed) (seq 0 n) in
  permuted ≡ₚ shuffled_indexes →
  np.setitem (np.arange n) shuffled_indexes permuted = Ok target_order →
  target_order ≡ₚ seq 0 n ∧
  ∀ i, i < n → i ∈ fixed → target_order !! i = Some i.
Proof.
  intros sh Hperm Hrun.
  assert (Hlen : length permuted = length sh) by by rewrite Hperm.
  rewrite setitem_same_length in Hrun by done.
  apply setitem_loop_Ok in Hrun as (Hl & _ & Hout & Hin); [|done].
  unfold np.arange in *. rewrite length_seq in Hl.
  assert (Hnd : NoDup sh) by apply NoDup_filter, NoDup_seq.
  specialize (Hin Hnd).
  assert (Hsh : ∀ i, i ∈ sh ↔ i < n ∧ i ∉ fixed).
  { intros i. unfold sh. rewrite list_elem_of_filter, elem_of_seq. naive_solver lia. }
  assert (Hfix : ∀ i, i < n → i ∉ sh → target_order !! i = Some i).
  { intros i Hi Hni. by rewrite Hout, lookup_seq_lt. }
  assert (Hmoved : ∀ i, i ∈ sh → ∃ k x,
    sh !! k = Some i ∧ permuted !! k = Some x ∧ target_order !! i = Some x ∧ x ∈ sh).
  { intros i (k & Hk)%list_elem_of_lookup.
    destruct (lookup_lt_is_Some_2 permuted k) as [x Hx].
    { rewrite Hlen. by eapply lookup_lt_Some. }
    exists k, x. repeat split; try done.
    - by rewrite (Hin _ _ Hk).
    - rewrite <- Hperm. by eapply list_elem_of_lookup_2. }
  split.
  - apply submseteq_length_Permutation; [|by rewrite length_seq, Hl].
    apply NoDup_submseteq.
    + apply NoDup_alt. intros i j x Hi Hj.
      assert (i < n) by (rewrite <- Hl; by eapply lookup_lt_Some).
      assert (j < n) by (rewrite <- Hl; by eapply lookup_lt_Some).
      destruct (decide (i ∈ sh)) as [Hish|Hish];
        destruct (decide (j ∈ sh)) as [Hjsh|Hjsh].
      * destruct (Hmoved _ Hish) as (k1 & x1 & Hk1 & Hx1 & Ht1 & _).
        destruct (Hmoved _ Hjsh) as (k2 & x2 & Hk2 & Hx2 & Ht2 & _).
        assert (k1 = k2).
        { apply (NoDup_lookup permuted k1 k2 x); [by rewrite Hperm|congruence..]. }
        congruence.
      * destruct (Hmoved _ Hish) as (k1 & x1 & _ & _ & Ht1 & Hx1).
        rewrite (Hfix j) in Hj by done. congruence.
      * destruct (Hmoved _ Hjsh) as (k2 & x2 & _ & _ & Ht2 & Hx2).
        rewrite (Hfix i) in Hi by done. congruence.
      * rewrite (Hfix i) in Hi by done. rewrite (Hfix j) in Hj by done.
        congruence.
    + intros x (i & Hi)%list_elem_of_lookup. apply elem_of_seq.
      assert (i < n) by (rewrite <- Hl; by eapply lookup_lt_Some).
      destruct (decide (i ∈ sh)) as [Hish|Hish].
      * destruct (Hmoved _ Hish) as (k & x' & _ & _ & Ht & Hx').
        apply Hsh in Hx'. assert (x = x') by congruence. lia.
      * rewrite (Hfix i) in Hi by done. simplify_eq. lia.
  - intros i Hi Hfixed. apply Hfix; [done|]. rewrite Hsh. naive_solver.
Qed.

Lemma setitem_unfixed_total n (fixed : list nat) permuted :
  let shuffled_indexes := filter (λ i, i ∉ fixed) (seq 0 n) in
  permuted ≡ₚ shuffled_indexes →
  ∃ target_order,
    np.setitem (np.arange n) shuffled_indexes permuted = Ok target_order.
Proof.
  intros sh Hperm. rewrite setitem_same_length by by rewrite Hperm.
  apply setitem_loop_total. unfold np.arange. rewrite length_seq.
  apply Forall_forall. intros i. unfold sh.
  rewrite list_elem_of_filter, elem_of_seq. lia.
Qed.

(** ** Truncation to the token budget *)

Lemma sum_len_app {A} (l1 l2 : list (list A)) :
  py.sum_len (l1 ++ l2) = py.sum_len l1 + py.sum_len l2.
Proof. induction l1 as [|s l1 IH]; simpl; [done|]. rewrite IH. lia. Qed.

Lemma sum_len_concat {A} (l : list (list A)) : py.sum_len l = length (concat l).
Proof. induction l as [|s l IH]; simpl; [done|]. by rewrite length_app, IH. Qed.

#[global] Instance sum_len_Permutation {A} :
  Proper ((≡ₚ) ==> (=)) (@py.sum_len A).
Proof. induction 1; simpl; lia. Qed.

Lemma truncate_loop_take max_tokens_len sents : ∀ acc,
  ∃ k, k ≤ length sents ∧
       truncate_loop max_tokens_len acc sents = acc ++ take k sents.
Proof.
  induction sents as [|sent sents IH]; intros acc; simpl.
  - exists 0. by rewrite app_nil_r.
  - case_match.
    + destruct (IH (acc ++ [sent])) as (k & Hk & ->).
      exists (S k). split; [lia|]. by rewrite <- app_assoc.
    + exists 0. split; [lia|]. by rewrite app_nil_r.
Qed.

Lemma truncate_loop_fits max_tokens_len sents : ∀ acc,
  truncate_loop max_tokens_len acc sents = acc ∨
  (Z.of_nat (py.sum_len (truncate_loop max_tokens_len acc sents))
     ≤ max_tokens_len)%Z.
Proof.
  induction sents as [|sent sents IH]; intros acc; simpl; [by left|].
  destruct (Z.leb_spec
    (Z.of_nat (py.sum_len acc) + Z.of_nat (length sent)) max_tokens_len)
    as [Hle|_]; [|by left].
  right. destruct (IH (acc ++ [sent])) as [->|?]; [|done].
  rewrite sum_len_app. simpl. lia.
Qed.

Lemma truncate_loop_all max_tokens_len sents : ∀ acc,
  (Z.of_nat (py.sum_len (acc ++ sents)) ≤ max_tokens_len)%Z →
  truncate_loop max_tokens_len acc sents = acc ++ sents.
Proof.
  induction sents as [|sent sents IH]; intros acc Hle; simpl.
  - by rewrite app_nil_r.
  - rewrite sum_len_app in Hle. simpl in Hle.
    destruct (Z.leb_spec
      (Z.of_nat (py.sum_len acc) + Z.of_nat (length sent)) max_tokens_len);
      [|lia].
    rewrite IH; [by rewrite <- app_assoc|].
    rewrite !sum_len_app. simpl. lia.
Qed.

(** ** Placing sentences by an order array *)

Lemma sentences_of_Ok slots : ∀ shuffled,
  sentences_of slots = Ok shuffled ↔ slots = Some <$> shuffled.
Proof.
  induction slots as [|[sent|] slots IH]; intros shuffled; simpl.
  - destruct shuffled; naive_solver.
  - rewrite rbind_Ok. split.
    + intros (rest & ->%IH & [= <-]). done.
    + destruct shuffled as [|s shuffled]; intros [= -> ->].
      exists shuffled. split; [by apply IH|done].
  - destruct shuffled; naive_solver.
Qed.

Lemma place_sents_loop_Ok (sents : list sentence) order :
  ∀ k (slots slots' : list (option sentence)),
  py.for_each
    (λ slots '(idx, order),
       sent ← py.index sents idx; py.set_index slots order (Some sent))
    slots (zip (seq k (length order)) order) = Ok slots' →
  length slots' = length slots ∧
  (∀ j, j ∉ order → slots' !! j = slots !! j) ∧
  (∀ p o, order !! p = Some o → o < length slots ∧ is_Some (sents !! (k + p))) ∧
  (NoDup order → ∀ p o, order !! p = Some o → slots' !! o = Some (sents !! (k + p))).
Proof.
  induction order as [|o order IH]; intros k slots slots' Hrun; simpl in Hrun.
  - step_run Hrun. subst. split; [done|]. split; [done|].
    split; [by intros [|?] ?|]. by intros _ [|?] ?.
  - step_run Hrun. run. subst.
    apply IH in Hrun as (Hl & Hout & Hok & Hin).
    rewrite length_insert in Hl, Hok.
    split; [done|]. split; [|split].
    + intros j [Hne Hj]%not_elem_of_cons.
      by rewrite Hout, list_lookup_insert_ne.
    + intros [|p] o' Hp; simpl in *.
      * injection Hp as <-. rewrite Nat.add_0_r. eauto.
      * destruct (Hok _ _ Hp) as [? ?].
        by replace (k + S p) with (S k + p) by lia.
    + intros [Ho Hnd]%NoDup_cons [|p] o' Hp; simpl in *.
      * injection Hp as <-.
        by rewrite Hout, list_lookup_insert_eq, Nat.add_0_r, E0.
      * replace (k + S p) with (S k + p) by lia. by apply Hin.
Qed.

Lemma place_sents_loop_total (sents : list sentence) order :
  ∀ k (slots : list (option sentence)),
  Forall (λ o, o < length slots) order →
  k + length order ≤ length sents →
  ∃ slots',
    py.for_each
      (λ slots '(idx, order),
         sent ← py.index sents idx; py.set_index slots order (Some sent))
      slots (zip (seq k (length order)) order) = Ok slots'.
Proof.
  induction order as [|o order IH]; intros k slots Hall Hk; simpl; [by eexists|].
  apply Forall_cons in Hall as [Ho Hall]. simpl in Hk.
  destruct (lookup_lt_is_Some_2 sents k) as [sent Hsent]; [lia|].
  rewrite (py_index_Some _ _ _ Hsent), rbind_Ok_l.
  rewrite py_set_index_lt, rbind_Ok_l by done.
  apply IH; [by rewrite length_insert|lia].
Qed.

(** Placing the sentences by a permutation [target_order] of [0 .. n-1]
    fills every slot, and gives the first [n] sentences in another order:
    the sentence at [idx] goes to position [target_order[idx]]. *)
Lemma place_sents_Ok sents target_order n slots shuffled :
  target_order ≡ₚ seq 0 n →
  place_sents sents target_order (replicate n None) = Ok slots →
  sentences_of slots = Ok shuffled →
  n ≤ length sents ∧
  length shuffled = n ∧
  shuffled ≡ₚ take n sents ∧
  ∀ idx o, target_order !! idx = Some o → shuffled !! o = sents !! idx.
Proof.
  intros Hperm Hrun ->%sentences_of_Ok.
  assert (Hlen : length target_order = n) by by rewrite Hperm, length_seq.
  assert (Hnd : NoDup target_order) by (rewrite Hperm; apply NoDup_seq).
  apply place_sents_loop_Ok in Hrun as (Hl & _ & Hok & Hin).
  specialize (Hin Hnd). rewrite length_fmap, length_replicate in Hl.
  symmetry in Hl.
  assert (Hget : ∀ idx o,
    target_order !! idx = Some o → shuffled !! o = sents !! idx).
  { intros idx o Hidx. specialize (Hin _ _ Hidx). simpl in Hin.
    rewrite list_lookup_fmap in Hin.
    destruct (shuffled !! o); simplify_eq/=; done. }
  assert (Hn : n ≤ length sents).
  { destruct n as [|n]; [lia|].
    destruct (lookup_lt_is_Some_2 target_order n) as [o Ho]; [lia|].
    destruct (Hok _ _ Ho) as [_ ?%lookup_lt_is_Some]. simpl in *. lia. }
  assert (Hbound : ∀ idx o,
    target_order !! idx = Some o → o < length target_order).
  { intros idx o Hidx. rewrite Hlen.
    assert (o ∈ seq 0 n) as ?%elem_of_seq; [|lia].
    rewrite <- Hperm. by eapply list_elem_of_lookup_2. }
  clear Hperm.
  split; [done|]. split; [done|]. split; [|done].
  symmetry. apply Permutation_inj. rewrite length_take. split; [lia|].
  exists (λ idx, default idx (target_order !! idx)). split.
  - intros i j Hij.
    destruct (target_order !! i) as [oi|] eqn:Hi;
      destruct (target_order !! j) as [oj|] eqn:Hj; simpl in Hij; subst.
    + by eapply NoDup_lookup.
    + apply lookup_ge_None in Hj. apply Hbound in Hi. lia.
    + apply lookup_ge_None in Hi. apply Hbound in Hj. lia.
    + done.
  - intros idx. destruct (target_order !! idx) as [o|] eqn:Hidx; simpl.
    + rewrite (Hget _ _ Hidx). apply lookup_take_lt.
      rewrite <- Hlen. by eapply lookup_lt_Some.
    + apply lookup_ge_None in Hidx.
      rewrite lookup_take_ge by lia. symmetry. apply lookup_ge_None. lia.
Qed.

Lemma sentences_of_total slots :
  Forall is_Some slots → ∃ shuffled, sentences_of slots = Ok shuffled.
Proof.
  induction 1 as [|[sent|] slots Hs _ [rest IH]]; simpl.
  - by eexists.
  - rewrite IH. by eexists.
  - by destruct Hs.
Qed.

(** Placing by a permutation of [0 .. n-1] never fails when there are at
    least [n] sentences, and leaves no slot empty. *)
Lemma place_sents_total (sents : list sentence) target_order n :
  target_order ≡ₚ seq 0 n →
  n ≤ length sents →
  ∃ slots shuffled,
    place_sents sents target_order (replicate n None) = Ok slots ∧
    sentences_of slots = Ok shuffled.
Proof.
  intros Hperm Hn.
  assert (Hlen : length target_order = n) by by rewrite Hperm, length_seq.
  assert (Hnd : NoDup target_order) by (rewrite Hperm; apply NoDup_seq).
  destruct (place_sents_loop_total sents target_order 0 (replicate n None))
    as [slots Hslots].
  { rewrite length_replicate. apply Forall_forall. intros o Ho.
    rewrite Hperm in Ho. apply elem_of_seq in Ho. lia. }
  { lia. }
  exists slots.
  destruct (place_sents_loop_Ok _ _ _ _ _ Hslots) as (Hl & _ & Hok & Hin).
  specialize (Hin Hnd). rewrite length_replicate in Hl.
  destruct (sentences_of_total slots) as [shuffled Hsh]; [|by exists shuffled].
  apply Forall_lookup. intros o slot Ho.
  assert (Hon : o < n) by (rewrite <- Hl; by eapply lookup_lt_Some).
  assert (Hin' : o ∈ target_order) by (rewrite Hperm; apply elem_of_seq; lia).
  apply list_elem_of_lookup in Hin' as [p Hp].
  destruct (Hok _ _ Hp) as [_ [sent Hsent]].
  rewrite (Hin _ _ Hp), Hsent in Ho. injection Ho as <-. by eexists.
Qed.

(** ** Truncation of a scaled count *)

Lemma py_int_floor (x : Q) : (0 <= x)%Q → py.int x = Qfloor x.
Proof.
  destruct x as [n d]. unfold Qle, py.int, Qfloor. simpl. intros Hn.
  apply Z.quot_div_nonneg; lia.
Qed.

(** [int(n * r)] for a ratio [r] of [[0, 1)] is a count below [n]. *)
Lemma py_int_scale_bounds (n : nat) (r : Q) :
  (0 <= r)%Q → (r < 1)%Q → 0 < n →
  (0 ≤ py.int (inject_Z (Z.of_nat n) * r) < Z.of_nat n)%Z.
Proof.
  intros H0 H1 Hn.
  assert (Hn0 : (0 < inject_Z (Z.of_nat n))%Q) by (unfold Qlt; simpl; lia).
  assert (Hx0 : (0 <= inject_Z (Z.of_nat n) * r)%Q).
  { apply Qmult_le_0_compat; [by apply Qlt_le_weak|done]. }
  rewrite py_int_floor by done. split.
  - change 0%Z with (Qfloor 0). by apply Qfloor_resp_le.
  - assert (Hlt : (inject_Z (Qfloor (inject_Z (Z.of_nat n) * r))
                     < inject_Z (Z.of_nat n))%Q).
    { eapply Qle_lt_trans; [apply Qfloor_le|].
      rewrite <- (Qmult_1_r (inject_Z (Z.of_nat n))) at 2.
      by apply Qmult_lt_l. }
    unfold Qlt in Hlt. cbn [inject_Z Qnum Qden] in Hlt. lia.
Qed.

(** ** Rounding to a double *)

Lemma round_half_even_lower (a b k : Z) :
  (0 < b)%Z → (k * b ≤ a)%Z → (k ≤ float.round_half_even a b)%Z.
Proof.
  intros Hb Hk. unfold float.round_half_even.
  assert (k ≤ a / b)%Z by (apply Z.div_le_lower_bound; lia).
  repeat case_match; lia.
Qed.

Lemma round_half_even_upper (a b k : Z) :
  (0 < b)%Z → (a ≤ k * b)%Z → (float.round_half_even a b ≤ k)%Z.
Proof.
  intros Hb Hk. unfold float.round_half_even.
  pose proof (Z.div_mod a b ltac:(lia)) as Hdm.
  pose proof (Z.mod_pos_bound a b Hb) as Hm.
  destruct (decide (a = k * b)%Z) as [->|Hne].
  - rewrite Z.mod_mul, Z.div_mul by lia.
    assert (Hc : (2 * 0 ?= b)%Z = Lt) by (apply Z.compare_lt_iff; lia).
    rewrite Hc. lia.
  - assert (a / b < k)%Z by (apply Z.div_lt_upper_bound; lia).
    repeat case_match; lia.
Qed.

(** [ilog2] is at most the exponent of any power of two above the number. *)
Lemma ilog2_lt (n d : positive) (e : Z) :
  (0 ≤ e)%Z → (Z.pos n < Z.pos d * 2 ^ e)%Z → (float.ilog2 n d < e)%Z.
Proof.
  intros He Hlt. unfold float.ilog2, float.scale.
  set (e0 := (Z.log2 (Z.pos n) - Z.log2 (Z.pos d))%Z).
  pose proof (Z.log2_spec (Z.pos n) ltac:(lia)) as [Hn1 Hn2].
  pose proof (Z.log2_spec (Z.pos d) ltac:(lia)) as [Hd1 Hd2].
  pose proof (Z.log2_nonneg (Z.pos n)) as Hln.
  pose proof (Z.log2_nonneg (Z.pos d)) as Hld.
  destruct (decide (e0 < e)%Z) as [|Hge]; [repeat case_match; lia|].
  assert (He0 : (0 ≤ e0)%Z) by lia.
  rewrite (proj2 (Z.leb_le 0 e0)) by lia.
  (* [e <= e0]: then [n < d * 2^e0], and the result is [e0 - 1] *)
  assert (Hpow : (2 ^ e ≤ 2 ^ e0)%Z) by (apply Z.pow_le_mono_r; lia).
  assert (Hlt0 : (Z.pos n < Z.pos d * 2 ^ e0)%Z) by nia.
  rewrite (proj2 (Z.ltb_lt _ _) Hlt0).
  destruct (decide (e0 = e)) as [|Hne]; [lia|]. exfalso.
  (* [e < e0]: [d * 2^e <= d * 2^(e0-1) < 2^(log2 n) <= n] *)
  assert (Hpow' : (2 ^ e ≤ 2 ^ (e0 - 1))%Z) by (apply Z.pow_le_mono_r; lia).
  assert (Hsplit : (2 ^ Z.log2 (Z.pos n)
                    = 2 ^ (e0 - 1) * 2 ^ Z.succ (Z.log2 (Z.pos d)))%Z).
  { rewrite <- Z.pow_add_r by lia. f_equal. lia. }
  assert (0 < 2 ^ (e0 - 1))%Z by (apply Z.pow_pos_nonneg; lia).
  nia.
Qed.

(** Between two consecutive integers below [2^53] the nearest double stays
    between them: the integers are doubles themselves. *)
Lemma round_bracket (n d : positive) (k : Z) :
  (0 ≤ k)%Z → (k + 1 < 2 ^ 53)%Z →
  (k * Z.pos d ≤ Z.pos n ≤ (k + 1) * Z.pos d)%Z →
  ∃ y, float.round n d = Some y ∧
       (inject_Z k <= y)%Q ∧ (y <= inject_Z (k + 1))%Q.
Proof.
  intros Hk Hsmall [Hlo Hhi]. unfold float.round.
  assert (He : (float.ilog2 n d < 53)%Z) by (apply ilog2_lt; [lia|nia]).
  set (g := Z.max (float.ilog2 n d - 52) (- 1074)).
  assert (Hg : (g ≤ 0)%Z) by lia. clearbody g.
  assert (Hbig : (2 ^ 53 < 2 ^ 1024)%Z) by (apply Z.pow_lt_mono_r; lia).
  unfold float.scale, float.dyadic.
  destruct (Z.leb_spec 0 g) as [Hg0|Hneg].
  - assert (g = 0%Z) as -> by lia. rewrite Z.pow_0_r, !Z.mul_1_r.
    pose proof (round_half_even_lower (Z.pos n) (Z.pos d) k ltac:(lia) Hlo).
    pose proof (round_half_even_upper (Z.pos n) (Z.pos d) (k + 1) ltac:(lia) Hhi).
    rewrite (proj2 (Z.leb_gt _ _)) by lia.
    eexists. split; [done|]. rewrite <- !Zle_Qle. lia.
  - assert (Hs : (0 < 2 ^ (- g))%Z) by (apply Z.pow_pos_nonneg; lia).
    set (s := (2 ^ (- g))%Z) in *.
    pose proof (round_half_even_lower (Z.pos n * s) (Z.pos d) (k * s)
                  ltac:(lia) ltac:(nia)).
    pose proof (round_half_even_upper (Z.pos n * s) (Z.pos d) ((k + 1) * s)
                  ltac:(lia) ltac:(nia)).
    rewrite (Z.pow_neg_r 2 g) by lia. rewrite Z.mul_0_r.
    rewrite (proj2 (Z.leb_gt _ _)) by lia.
    eexists. split; [done|]. rewrite !Qred_correct.
    unfold Qle. simpl. rewrite Z2Pos.id by lia. lia.
Qed.

Lemma of_Q_bracket (x : Q) (k : Z) :
  (0 ≤ k)%Z → (k + 1 < 2 ^ 53)%Z →
  (inject_Z k <= x)%Q → (x <= inject_Z (k + 1))%Q →
  ∃ y, float.of_Q x = float.Finite y ∧
       (inject_Z k <= y)%Q ∧ (y <= inject_Z (k + 1))%Q.
Proof.
  intros Hk Hsmall Hlo Hhi. destruct x as [n d]. unfold float.of_Q.
  unfold Qle in Hlo, Hhi. simpl in Hlo, Hhi. cbn [Qnum Qden].
  destruct n as [|n|n].
  - exists 0%Q. split; [done|]. unfold Qle. simpl. lia.
  - destruct (round_bracket n d k Hk Hsmall) as (y & -> & Hy); [lia|].
    by exists y.
  - lia.
Qed.

(** An integer below [2^53] is a double. *)
Lemma of_Q_int (n : Z) :
  (0 ≤ n < 2 ^ 53)%Z →
  ∃ y, float.of_Q (inject_Z n) = float.Finite y ∧ (y == inject_Z n)%Q.
Proof.
  intros Hn. destruct (decide (n = 0%Z)) as [->|Hne]; [by exists 0%Q|].
  destruct (of_Q_bracket (inject_Z n) (n - 1)) as (y & Hy & _ & Hhi);
    [lia|lia|rewrite <- Zle_Qle; lia|rewrite <- Zle_Qle; lia|].
  destruct (decide (n + 1 < 2 ^ 53)%Z) as [Hlt|Hmax].
  - destruct (of_Q_bracket (inject_Z n) n) as (y' & Hy' & Hlo & _);
      [lia|lia|rewrite <- Zle_Qle; lia|rewrite <- Zle_Qle; lia|].
    rewrite Hy in Hy'. injection Hy' as <-. exists y. split; [done|].
    replace (n - 1 + 1)%Z with n in Hhi by lia. by apply Qle_antisym.
  - assert (n = 2 ^ 53 - 1)%Z as -> by lia.
    exists (inject_Z (2 ^ 53 - 1)). split; [by vm_compute|done].
Qed.

Lemma of_int_small (n : Z) :
  (0 ≤ n < 2 ^ 53)%Z →
  ∃ y, float.of_int n = Ok (float.Finite y) ∧ (y == inject_Z n)%Q.
Proof.
  intros (y & Hy & Heq)%of_Q_int. exists y. unfold float.of_int. by rewrite Hy.
Qed.

Lemma py_int_bracket (y : Q) (k : Z) :
  (0 ≤ k)%Z → (inject_Z k <= y)%Q → (y <= inject_Z (k + 1))%Q →
  (k ≤ py.int y ≤ k + 1)%Z.
Proof.
  intros Hk Hlo Hhi.
  rewrite py_int_floor.
  2:{ eapply Qle_trans; [|exact Hlo]. unfold Qle. simpl. lia. }
  split.
  - rewrite <- (Qfloor_Z k). by apply Qfloor_resp_le.
  - rewrite <- (Qfloor_Z (k + 1)). by apply Qfloor_resp_le.
Qed.

(** [int(n * p)] as the code computes it, against the exact product by the
    double [p'] that [p] stands for: the floor of the product, or one more
    when the product rounds up to the next integer. *)
Lemma scaled_len_bracket (n : nat) (p p' : Q) :
  float.of_Q p = float.Finite p' →
  (0 <= p')%Q →
  (Z.of_nat n < 2 ^ 53)%Z →
  (Qfloor (inject_Z (Z.of_nat n) * p') + 1 < 2 ^ 53)%Z →
  ∃ scaled,
    scaled_len n p = Ok scaled ∧
    (Qfloor (inject_Z (Z.of_nat n) * p') ≤ scaled
     ≤ Qfloor (inject_Z (Z.of_nat n) * p') + 1)%Z.
Proof.
  intros Hp Hp0 Hn Hsmall. unfold scaled_len.
  destruct (of_int_small (Z.of_nat n)) as (y & -> & Hy); [lia|].
  rewrite rbind_Ok_l, Hp. cbn [float.mul].
  set (x := (inject_Z (Z.of_nat n) * p')%Q) in *.
  assert (Hx0 : (0 <= x)%Q).
  { apply Qmult_le_0_compat; [|done]. unfold Qle. simpl. lia. }
  assert (Hk : (0 ≤ Qfloor x)%Z).
  { rewrite <- (Qfloor_Z 0). by apply Qfloor_resp_le. }
  destruct (of_Q_bracket (y * p') (Qfloor x)) as (z & -> & Hlo & Hhi);
    [done|done| | |].
  - rewrite Hy. apply Qfloor_le.
  - rewrite Hy. apply Qlt_le_weak, Qlt_floor.
  - eexists. split; [done|]. by apply py_int_bracket.
Qed.

(** ** The shuffler *)

Section shuffler_facts.
Context {G : Type} `{RandomState G}.
Variable fix_ratio : Q.
Variable max_tokens_len : Z.

Lemma fixed_window_Ok count g start_pos len_fixed g' :
  fixed_window fix_ratio count g = Ok ((start_pos, len_fixed), g') →
  len_fixed = py.int (inject_Z (Z.of_nat count) * fix_ratio) ∧
  (Z.of_nat start_pos < Z.of_nat count - len_fixed)%Z.
Proof.
  unfold fixed_window. intros Hrun. run. simplify_eq.
  split; [done|]. by eapply randint_Ok.
Qed.

Lemma shuffle_order_Ok count g target_order g' :
  shuffle_order fix_ratio count g = Ok (target_order, g') →
  target_order ≡ₚ seq 0 count ∧
  (Qeq_bool fix_ratio 0 = false →
   ∃ start_pos len_fixed g1,
     fixed_window fix_ratio count g = Ok ((start_pos, len_fixed), g1) ∧
     ∀ i, start_pos ≤ i < start_pos + Z.to_nat len_fixed →
          target_order !! i = Some i).
Proof.
  unfold shuffle_order. destruct (Qeq_bool fix_ratio 0) eqn:Hzero.
  - intros ?%shuffle_Ok. split; [done|]. done.
  - intros Hrun. step_run Hrun. destruct a as [start_pos len_fixed].
    run. subst.
    apply delete_arange in E0 as [-> Hfixed].
    apply getitem_arange in E1 as [-> _].
    apply shuffle_Ok in E2.
    apply setitem_unfixed in E3 as [Hperm Hkeep]; [|done].
    split; [done|]. intros _. eexists start_pos, len_fixed, _.
    split; [eassumption|]. intros i Hi.
    assert (Hin : i ∈ seq start_pos (Z.to_nat len_fixed))
      by (apply elem_of_seq; lia).
    apply Hkeep; [|done].
    by eapply Forall_forall in Hfixed.
Qed.

(** For a ratio of [[0, 1)] the order array is always produced, but for a
    positive ratio on no sentence at all, where [randint(0)] raises. *)
Lemma shuffle_order_total count g :
  (0 <= fix_ratio)%Q → (fix_ratio < 1)%Q →
  (fix_ratio == 0)%Q ∨ 0 < count →
  ∃ target_order g', shuffle_order fix_ratio count g = Ok (target_order, g').
Proof.
  intros H0 H1 Hcount. unfold shuffle_order.
  destruct (Qeq_bool fix_ratio 0) eqn:Hzero.
  { destruct (shuffle_total (np.arange count) g) as (x & g' & Hx & _). eauto. }
  assert (Hpos : 0 < count).
  { destruct Hcount as [Heq|]; [|done].
    apply Qeq_bool_iff in Heq. congruence. }
  unfold fixed_window.
  destruct (py_int_scale_bounds count fix_ratio H0 H1 Hpos) as [Hlo Hhi].
  set (len_fixed := py.int (inject_Z (Z.of_nat count) * fix_ratio)) in *.
  destruct (randint_total (Z.of_nat count - len_fixed) g)
    as (start_pos & g1 & Hstart & Hlt); [lia|].
  set (fixed_indexes := seq start_pos (Z.to_nat len_fixed)).
  assert (Hfixed : Forall (λ i, i < count) fixed_indexes).
  { apply Forall_forall. intros i Hi%elem_of_seq. lia. }
  destruct (delete_arange_total count fixed_indexes Hfixed) as [sh Hsh].
  pose proof (delete_arange _ _ _ Hsh) as [Heq _].
  assert (Hbound : Forall (λ i, i < length (np.arange count)) sh).
  { subst sh. unfold np.arange. rewrite length_seq. apply Forall_forall.
    intros i [_ Hi%elem_of_seq]%list_elem_of_filter. lia. }
  destruct (getitem_total _ _ Hbound) as [chosen Hchosen].
  pose proof (getitem_arange _ _ _ Hchosen) as [-> _].
  destruct (shuffle_total sh g1) as (permuted & g2 & Hpermuted & Hp).
  rewrite Heq in Hp.
  destruct (setitem_unfixed_total count fixed_indexes permuted Hp)
    as [target_order Hset].
  destruct (setitem_unfixed count fixed_indexes permuted target_order Hp Hset)
    as [Hto Hkeep].
  rewrite <- Heq in Hset.
  assert (Hlen : length target_order = count) by by rewrite Hto, length_seq.
  destruct (getitem_total target_order fixed_indexes) as [kept Hkept].
  { by rewrite Hlen. }
  assert (kept = fixed_indexes) as ->.
  { destruct (getitem_Ok _ _ _ Hkept) as [Hl Hget].
    apply list_eq. intros k.
    destruct (fixed_indexes !! k) as [i|] eqn:Hk.
    - destruct (Hget _ _ Hk) as [-> Hi]. apply Hkeep; [lia|].
      by eapply list_elem_of_lookup_2.
    - apply lookup_ge_None. apply lookup_ge_None in Hk. lia. }
  exists target_order, g2.
  rewrite (bind_run _ _ g (start_pos, len_fixed) g1)
    by (by rewrite (bind_run _ _ _ _ _ Hstart)).
  cbv beta iota. fold fixed_indexes.
  rewrite (lift_run _ _ _ _ Hsh), (lift_run _ _ _ _ Hchosen).
  unfold np.permutation. rewrite (bind_run _ _ _ _ _ Hpermuted).
  rewrite (lift_run _ _ _ _ Hset), (lift_run _ _ _ _ Hkept).
  by rewrite bool_decide_eq_true_2.
Qed.

(** The shuffler returns on every document that retains a sentence, for
    every ratio of [[0, 1)]. *)
Lemma shuffle_sents_total sents g :
  (0 <= fix_ratio)%Q → (fix_ratio < 1)%Q →
  (fix_ratio == 0)%Q ∨ 0 < length (truncate_loop max_tokens_len [] sents) →
  ∃ shuffled target_order g',
    shuffle_sents fix_ratio max_tokens_len sents g
      = Ok ((shuffled, target_order), g').
Proof.
  intros H0 H1 Hcount. unfold shuffle_sents.
  destruct (shuffle_order_total _ g H0 H1 Hcount) as (target_order & g' & Horder).
  destruct (shuffle_order_Ok _ _ _ _ Horder) as [Hperm _].
  destruct (place_sents_total sents target_order _ Hperm)
    as (slots & shuffled & Hslots & Hshuffled).
  { destruct (truncate_loop_take max_tokens_len sents []) as (k & Hk & ->).
    simpl. rewrite length_take. lia. }
  exists shuffled, target_order, g'.
  rewrite (bind_run _ _ _ _ _ Horder).
  by rewrite (lift_run _ _ _ _ Hslots), (lift_run _ _ _ _ Hshuffled).
Qed.

End shuffler_facts.

(** C7.  The start of the fixed window is drawn below
    [count - len_fixed]: whatever the generator gives, the window never
    starts at [count - len_fixed] itself, where [len_fixed] is
    [int(count * fix_ratio)]. *)
Theorem fixed_window_start_below {G : Type} `{RandomState G}
    (fix_ratio : Q) (count : nat) (g g' : G) (start_pos : nat) (len_fixed : Z) :
  fixed_window fix_ratio count g = Ok ((start_pos, len_fixed), g') →
  len_fixed = py.int (inject_Z (Z.of_nat count) * fix_ratio) ∧
  (Z.of_nat start_pos < Z.of_nat count - len_fixed)%Z ∧
  Z.of_nat start_pos ≠ (Z.of_nat count - len_fixed)%Z.
Proof.
  intros [-> Hlt]%fixed_window_Ok. split; [done|]. split; [done|lia].
Qed.

(** C2.  Whenever the shuffler returns, [target_order] is a permutation of
    [0 .. count-1], where [count] is the number of sentences kept by the
    truncation; and when [fix_ratio] is not zero, [target_order[i] = i] for
    every [i] of the fixed window, the [len_fixed] positions from the drawn
    [start_pos] on.  And the shuffler does return, whatever the generator
    gives, for every [fix_ratio] of [[0, 1)] on a document that retains a
    sentence. *)
Theorem shuffle_sents_target_order {G : Type} `{RandomState G}
    (fix_ratio : Q) (max_tokens_len : Z) (sents : list sentence) (g : G) :
  let count := length (truncate_loop max_tokens_len [] sents) in
  (∀ (shuffled : list sentence) (target_order : list nat) (g' : G),
     shuffle_sents fix_ratio max_tokens_len sents g
       = Ok ((shuffled, target_order), g') →
     target_order ≡ₚ seq 0 count ∧
     (¬ (fix_ratio == 0)%Q →
      ∃ start_pos len_fixed g1,
        fixed_window fix_ratio count g = Ok ((start_pos, len_fixed), g1) ∧
        ∀ i, start_pos ≤ i < start_pos + Z.to_nat len_fixed →
             target_order !! i = Some i)) ∧
  ((0 <= fix_ratio)%Q → (fix_ratio < 1)%Q → 0 < count →
   ∃ shuffled target_order g',
     shuffle_sents fix_ratio max_tokens_len sents g
       = Ok ((shuffled, target_order), g')).
Proof.
  intros count. split.
  - intros shuffled target_order g' Hrun.
    unfold shuffle_sents in Hrun. run. simplify_eq.
    apply shuffle_order_Ok in E as [Hperm Hfix]. split; [done|].
    intros Hnz. apply Hfix.
    destruct (Qeq_bool fix_ratio 0) eqn:Heq; [|done].
    by apply Qeq_bool_iff in Heq.
  - intros H0 H1 Hcount. apply shuffle_sents_total; auto.
Qed.

(** ** Slices *)

Lemma py_take_length {A} (stop : Z) (l : list A) :
  length (py.take stop l) =
  if (stop <? 0)%Z then length l - Z.to_nat (- stop)
  else Z.to_nat stop `min` length l.
Proof. unfold py.take. case_match; rewrite length_take; lia. Qed.

Lemma py_take_sublist {A} (stop : Z) (l : list A) : py.take stop l `sublist_of` l.
Proof. unfold py.take. case_match; apply sublist_take. Qed.

Lemma py_take_Forall {A} (P : A → Prop) (stop : Z) (l : list A) :
  Forall P l → Forall P (py.take stop l).
Proof. intros. unfold py.take. case_match; by apply Forall_take. Qed.

(** ** Framed sentences *)

Section framed_facts.
Variables cls sep : token.

Lemma framed_head s : framed_sentence cls sep s → head s = Some cls.
Proof. by intros (body & ->). Qed.

Lemma framed_last s : framed_sentence cls sep s → last s = Some sep.
Proof. intros (body & ->). by rewrite last_cons, last_snoc. Qed.

Lemma framed_length s : framed_sentence cls sep s → 2 ≤ length s.
Proof. intros (body & ->). simpl. rewrite length_app. simpl. lia. Qed.

Lemma insert_last_replicate {A} (m b : A) k :
  <[k:=b]> (replicate (S k) m) = replicate k m ++ [b].
Proof. induction k as [|k IH]; simpl; [done|]. by f_equal. Qed.

(** The all-mask sentence with the class token and the separator put
    back at its two ends. *)
Lemma framed_mask (m : token) n :
  2 ≤ n →
  framed_sentence cls sep (<[n - 1:=sep]> (<[0:=cls]> (replicate n m))).
Proof.
  intros Hn. destruct n as [|[|k]]; [lia..|].
  exists (replicate k m). simpl. f_equal.
  apply insert_last_replicate.
Qed.

End framed_facts.

(** ** The sentence masker *)

Lemma Sorted_le_lt (l : list nat) : Sorted le l → NoDup l → Sorted lt l.
Proof.
  induction 1 as [|a l Hs IH Hhd]; intros Hnd; [constructor|].
  apply NoDup_cons in Hnd as [Ha Hnd]. constructor; [by apply IH|].
  destruct Hhd as [|b l Hab]; constructor.
  assert (a ≠ b) by (intros ->; apply Ha; left). lia.
Qed.

Lemma py_index_z_elem_of {A} (l : list A) z a : py.index_z l z = Ok a → a ∈ l.
Proof.
  unfold py.index_z. repeat case_match; try done;
    intros ?%py_index_Ok; by eapply list_elem_of_lookup_2.
Qed.

Section masker_facts.
Context {G : Type} `{RandomState G}.
Variable self : SentsPermAndPredictMaskDataset.

Let cls := cls_index (src_dict self).
Let sep := sent_sep_idx self.

Lemma shuffle_sents_except_Ok sents fixed_indexes p g shuffled g' :
  shuffle_sents_except self sents fixed_indexes p g = Ok (shuffled, g') →
  let n := length (truncate_loop (max_tokens_len self) [] sents) in
  Forall (λ i, i < n) fixed_indexes ∧
  n ≤ length sents ∧
  length shuffled = n ∧
  shuffled ≡ₚ take n sents ∧
  ∀ i, i ∈ fixed_indexes → shuffled !! i = sents !! i.
Proof.
  intros Hrun n. unfold shuffle_sents_except in Hrun. fold n in Hrun.
  destruct (truncate_loop_take (max_tokens_len self) sents []) as (k & Hk & Htr).
  simpl in Htr.
  assert (Hn : n = k) by (unfold n; rewrite Htr, length_take; lia).
  rewrite Htr in Hrun. clearbody n. subst k. clear Htr.
  step_run Hrun. step_run E. subst.
  assert (E' : np.delete (np.arange n) fixed_indexes = Ok a)
    by by destruct fixed_indexes.
  clear E. rename E' into E.
  apply delete_arange in E as [-> Hfixed].
  step_run Hrun. case_match.
  - run. subst.
    apply getitem_arange in E0 as [-> _].
    apply shuffle_Ok in E1.
    apply setitem_unfixed in E2 as [Hperm Hkeep]; [|done].
    destruct (place_sents_Ok _ _ _ _ _ Hperm E5 Hrun) as (? & ? & ? & Hget).
    repeat split; try done; try lia.
    intros i Hi. apply Hget, Hkeep; [|done].
    by eapply Forall_forall in Hfixed.
  - run. subst. rewrite length_take. repeat split; try done; try lia.
    intros i Hi. apply lookup_take_lt.
    by eapply Forall_forall in Hfixed.
Qed.

Lemma shuffle_sents_except_selection sents fixed_indexes p g shuffled g' :
  shuffle_sents_except self sents fixed_indexes p g = Ok (shuffled, g') →
  fixed_indexes ≠ [].
Proof.
  unfold shuffle_sents_except. intros Hrun. step_run Hrun. step_run E.
  by destruct fixed_indexes.
Qed.

Lemma draw_rnd_idx_Ok tries : ∀ index ndocs rnd_idx g z g',
  draw_rnd_idx tries index ndocs rnd_idx g = Ok (z, g') →
  z = rnd_idx ∨ (0 ≤ z < Z.of_nat ndocs)%Z.
Proof.
  induction tries as [|tries IH]; intros index ndocs rnd_idx g z g' Hrun;
    simpl in Hrun.
  - run. by left.
  - step_run Hrun. apply randint_Ok in E. case_decide.
    + run. subst. right. lia.
    + apply IH in Hrun as [->|?]; right; lia.
Qed.

Lemma get_rnd_sent_Ok index docs g rnd_sent g' :
  get_rnd_sent index docs g = Ok (rnd_sent, g') →
  ∃ doc, doc ∈ docs ∧ rnd_sent ∈ doc.
Proof.
  unfold get_rnd_sent. intros Hrun. run. subst.
  exists a0. split.
  - by eapply py_index_z_elem_of.
  - by eapply list_elem_of_lookup_2.
Qed.

Lemma fit_rnd_sent_Ok rnd_sent ori_len s :
  framed_sentence cls sep rnd_sent →
  2 ≤ ori_len →
  fit_rnd_sent self rnd_sent ori_len = Ok s →
  framed_sentence cls sep s ∧ length s = ori_len.
Proof.
  intros (body & ->) Hlen. unfold fit_rnd_sent.
  rewrite !length_cons, !length_app, !length_cons. simpl length.
  repeat case_decide; intros Hrun; run; subst.
  - rewrite last_cons, last_snoc in E. injection E as <-.
    unfold py.take. destruct (Z.ltb_spec (Z.of_nat ori_len - 1) 0); [lia|].
    replace (Z.to_nat (Z.of_nat ori_len - 1)) with (S (ori_len - 2)) by lia.
    simpl. split; [by eexists|].
    rewrite length_app, length_take, length_app. simpl. lia.
  - unfold py.take. simpl.
    rewrite length_app. simpl.
    replace (length body + 1 - 0) with (S (length body)) by lia.
    simpl. rewrite take_app_length.
    split.
    + exists (body ++ replicate (ori_len - S (length body + 1)) (sent_mask_idx self)).
      by rewrite <- app_assoc.
    + simpl. rewrite !length_app, length_replicate. simpl. lia.
  - split; [by exists body|]. simpl. rewrite length_app. simpl. lia.
Qed.

End masker_facts.

Section corrupt_facts.
Context {G : Type} `{RandomState G}.
Variable self : SentsPermAndPredictMaskDataset.

Let cls := cls_index (src_dict self).
Let sep := sent_sep_idx self.

Lemma fit_rnd_sent_length (rnd_sent : sentence) ori_len s :
  rnd_sent ≠ [] →
  1 ≤ ori_len →
  fit_rnd_sent self rnd_sent ori_len = Ok s →
  length s = ori_len.
Proof.
  intros Hne Hlen. unfold fit_rnd_sent.
  assert (1 ≤ length rnd_sent) by (destruct rnd_sent; [done|simpl; lia]).
  repeat case_decide; intros Hrun; run; subst.
  - rewrite length_app, py_take_length. simpl.
    destruct (Z.ltb_spec (Z.of_nat ori_len - 1) 0); lia.
  - rewrite !length_app, py_take_length, length_replicate. simpl. lia.
  - lia.
Qed.

(** One step of the loop over the selected positions, on a document whose
    sentence at [i] is as long as the original: the sentence at [i] is
    replaced by one of the same length, framed if the documents are, and
    the original is recorded. *)
Lemma corrupt_Ok index (docs : list (list sentence)) doc output_doc
    masked_sents i g output_doc' masked_sents' g' :
  Forall (Forall (λ s : sentence, s ≠ [])) docs →
  doc ∈ docs →
  (∀ cur orig, output_doc !! i = Some cur → doc !! i = Some orig →
               length cur = length orig) →
  corrupt self index docs doc (output_doc, masked_sents) i g
    = Ok ((output_doc', masked_sents'), g') →
  ∃ s orig,
    doc !! i = Some orig ∧
    i < length output_doc ∧
    output_doc' = <[i:=s]> output_doc ∧
    masked_sents' = masked_sents ++ [orig] ∧
    length s = length orig ∧
    (framed_docs cls sep docs → framed_sentence cls sep s).
Proof.
  intros Hne Hdoc Hcur Hrun. unfold corrupt in Hrun.
  assert (Hne_doc : Forall (λ s : sentence, s ≠ []) doc)
    by by eapply Forall_forall in Hne.
  step_run Hrun. step_run Hrun. step_run Hrun. do 2 step_run E1.
  step_run Hrun. simplify_eq. rename a1 into orig.
  assert (Horig : 1 ≤ length orig).
  { eapply Forall_lookup_1 in Hne_doc; [|done]. destruct orig; [done|simpl; lia]. }
  case_match.
  - (* the whole sentence is masked *)
    run. subst. rewrite length_insert, length_replicate in *.
    match goal with
    | Hc : output_doc !! i = Some _ |- _ => specialize (Hcur _ _ Hc E1)
    end.
    eexists _, orig. split_and!; try done.
    + rewrite !length_insert, length_replicate. done.
    + intros Hframed. rewrite Hcur.
      apply framed_mask.
      eapply Forall_forall in Hframed; [|done].
      eapply Forall_lookup_1 in Hframed; [|done].
      by eapply framed_length.
  - step_run E0. case_match.
    + (* the sentence is left as it is *)
      run. subst. simplify_eq.
      eexists _, _. split_and!; [eassumption|done|reflexivity|done|done|].
      intros Hframed.
      eapply Forall_forall in Hframed; [|done].
      by eapply Forall_lookup_1 in Hframed.
    + (* a sentence of another document, fitted to the length *)
      run. subst. simplify_eq.
      match goal with
      | Hget : get_rnd_sent _ _ _ = Ok _ |- _ =>
          apply get_rnd_sent_Ok in Hget as (doc' & Hdoc' & Hrnd)
      end.
      match goal with
      | Hfit : fit_rnd_sent _ ?rnd _ = Ok _ |- _ =>
          assert (rnd ≠ []) by
            (eapply Forall_forall in Hne; [|exact Hdoc'];
             by eapply Forall_forall in Hne)
      end.
      eexists _, _. split_and!; [eassumption|done|reflexivity|done| |].
      * by eapply fit_rnd_sent_length.
      * intros Hframed.
        eapply fit_rnd_sent_Ok; [| |done].
        -- eapply Forall_forall in Hframed; [|exact Hdoc'].
           by eapply Forall_forall in Hframed.
        -- eapply Forall_forall in Hframed; [|exact Hdoc].
           eapply Forall_lookup_1 in Hframed; [|done].
           by eapply framed_length.
Qed.

End corrupt_facts.

Section mask_sentences_facts.
Context {G : Type} `{RandomState G}.
Variable self : SentsPermAndPredictMaskDataset.

Let cls := cls_index (src_dict self).
Let sep := sent_sep_idx self.

Lemma corrupt_loop_Ok index (docs : list (list sentence)) doc selected :
  ∀ output_doc masked_sents g output_doc' masked_sents' g',
  Forall (Forall (λ s : sentence, s ≠ [])) docs →
  doc ∈ docs →
  (∀ i cur orig, i ∈ selected → output_doc !! i = Some cur →
                 doc !! i = Some orig → length cur = length orig) →
  py.for_each (corrupt self index docs doc) (output_doc, masked_sents)
    selected g = Ok ((output_doc', masked_sents'), g') →
  length <$> output_doc' = length <$> output_doc ∧
  (∀ k, k ∉ selected → output_doc' !! k = output_doc !! k) ∧
  (∀ i, i ∈ selected →
     ∃ s orig, output_doc' !! i = Some s ∧ doc !! i = Some orig ∧
               length s = length orig ∧
               (framed_docs cls sep docs → framed_sentence cls sep s)) ∧
  ∃ originals,
    masked_sents' = masked_sents ++ originals ∧
    Forall2 (λ i orig, doc !! i = Some orig) selected originals.
Proof.
  induction selected as [|i selected IH];
    intros out masked g out' masked' g' Hne Hdoc Hcur Hrun; simpl in Hrun.
  - run. simplify_eq. split_and!; try done.
    + by intros i ?%elem_of_nil.
    + exists []. by rewrite app_nil_r.
  - step_run Hrun. destruct a as [out1 masked1].
    apply corrupt_Ok in E as (s & orig & Horig & Hi & -> & -> & Hlen & Hfr);
      [|done|done|].
    2:{ intros cur orig'. apply Hcur. left. }
    destruct (lookup_lt_is_Some_2 out i Hi) as [cur Hcur_i].
    assert (Hlen_cur : length cur = length orig) by (eapply Hcur; [left|done..]).
    apply IH in Hrun as (Hlens & Hout & Hin & originals & -> & Hall);
      [|done|done|].
    2:{ intros j cur' orig' Hj Hcur' Horig'.
        destruct (decide (i = j)) as [<-|Hne'].
        - rewrite list_lookup_insert_eq in Hcur' by done. simplify_eq. done.
        - rewrite list_lookup_insert_ne in Hcur' by done.
          eapply Hcur; [by right|done..]. }
    split_and!.
    + rewrite Hlens, list_fmap_insert, Hlen, <- Hlen_cur.
      apply list_insert_id. by rewrite list_lookup_fmap, Hcur_i.
    + intros k [Hne' Hk]%not_elem_of_cons.
      by rewrite Hout, list_lookup_insert_ne.
    + intros j [->|Hj]%elem_of_cons; [|by apply Hin].
      destruct (decide (i ∈ selected)) as [Hi'|Hi']; [by apply Hin|].
      exists s, orig. rewrite Hout, list_lookup_insert_eq by done. done.
    + exists (orig :: originals). rewrite <- app_assoc. split; [done|].
      by constructor.
Qed.

(** What [mask_sentences] selects. *)
Lemma mask_sentences_selection index docs p max_pred vocab g
    output_doc selected masked_sents g' :
  mask_sentences self index docs p max_pred vocab g
    = Ok ((output_doc, selected, masked_sents), g') →
  ∃ doc candi_indexes k,
    docs !! index = Some doc ∧
    candi_indexes ≡ₚ seq 0 (length doc) ∧
    num_pred self (length doc) p max_pred = Ok k ∧
    selected ≡ₚ py.take k candi_indexes ∧
    selected ≠ [] ∧
    Sorted le selected.
Proof.
  unfold mask_sentences. intros Hrun.
  step_run Hrun. do 2 step_run E. rename a into doc.
  step_run Hrun. rename a into candi. apply shuffle_Ok in E0.
  assert (Hlen : length candi = length doc) by by rewrite E0, length_seq.
  rewrite Hlen in Hrun.
  step_run Hrun. step_run E1. rename a into k.
  step_run Hrun. step_run Hrun. step_run Hrun.
  apply shuffle_sents_except_selection in E3.
  destruct a1 as [out masked]. run. simplify_eq.
  exists doc, candi, k. split_and!; try done.
  - apply merge_sort_Permutation.
  - intros Hnil. apply E3. apply Permutation_nil_r.
    rewrite <- Hnil. symmetry. apply merge_sort_Permutation.
  - apply Sorted_merge_sort. apply _.
Qed.

(** What [mask_sentences] returns: the document keeps the sentences that
    fit the budget, each at its length, and every selected position holds
    a sentence as long as the original one. *)
Lemma mask_sentences_Ok index (docs : list (list sentence)) p max_pred vocab g
    output_doc selected masked_sents g' :
  Forall (Forall (λ s : sentence, s ≠ [])) docs →
  mask_sentences self index docs p max_pred vocab g
    = Ok ((output_doc, selected, masked_sents), g') →
  ∃ doc shuffled,
    docs !! index = Some doc ∧
    let n := length (truncate_loop (max_tokens_len self) [] doc) in
    n ≤ length doc ∧
    shuffled ≡ₚ take n doc ∧
    length <$> output_doc = length <$> shuffled ∧
    Forall (λ i, i < n) selected ∧
    (∀ i, i ∈ selected →
       ∃ s orig, output_doc !! i = Some s ∧ doc !! i = Some orig ∧
                 length s = length orig ∧
                 (framed_docs cls sep docs → framed_sentence cls sep s)) ∧
    Forall2 (λ i orig, doc !! i = Some orig) selected masked_sents.
Proof.
  intros Hne Hrun. unfold mask_sentences in Hrun.
  step_run Hrun. do 2 step_run E. rename a into doc.
  step_run Hrun. rename a into candi. clear E0.
  step_run Hrun. clear E0. rename a into k.
  step_run Hrun. step_run Hrun. rename a0 into shuffled.
  step_run Hrun. destruct a0 as [out masked]. run. simplify_eq.
  apply shuffle_sents_except_Ok in E1 as (Hfixed & Hn & Hlen & Hperm & Hkeep).
  set (sel0 := py.take _ candi) in *.
  assert (Hsel : ∀ i, i ∈ merge_sort le sel0 ↔ i ∈ sel0)
    by (intros i; by rewrite merge_sort_Permutation).
  assert (Hdoc : doc ∈ docs) by by eapply list_elem_of_lookup_2.
  apply corrupt_loop_Ok in E2 as (Hlens & _ & Hin & originals & Hm & Hall);
    [|done|done|].
  2:{ intros i cur orig Hi%Hsel Hcur Horig.
      rewrite Hkeep in Hcur by done. by simplify_eq. }
  simpl in Hm. subst originals.
  exists doc, shuffled. split; [done|]. cbv zeta. split_and!; try done.
  apply Forall_forall. intros i Hi%Hsel. by eapply Forall_forall in Hfixed.
Qed.

End mask_sentences_facts.

Lemma framed_docs_nonempty cls sep docs :
  framed_docs cls sep docs → Forall (Forall (λ s : sentence, s ≠ [])) docs.
Proof.
  intros Hdocs. eapply Forall_impl; [exact Hdocs|].
  intros doc Hdoc. eapply Forall_impl; [exact Hdoc|].
  by intros s (body & ->).
Qed.

(** C4.  Whatever the generator draws, after [mask_sentences] on framed
    documents every selected position [i] holds a sentence of the length of
    the original [doc[i]], whose first token is the class id and whose last
    token is the separator id (whether it was masked, left, or replaced by a
    fitted sentence of some document). *)
Theorem mask_sentences_corrupted {G : Type} `{RandomState G}
    (self : SentsPermAndPredictMaskDataset) (index : nat)
    (docs : list (list sentence)) (doc : list sentence)
    (p : Q) (max_pred : Z) (vocab : Dictionary) (g g' : G)
    (output_doc : list sentence) (selected : list nat)
    (masked_sents : list sentence) :
  framed_docs (cls_index (src_dict self)) (sent_sep_idx self) docs →
  docs !! index = Some doc →
  mask_sentences self index docs p max_pred vocab g
    = Ok ((output_doc, selected, masked_sents), g') →
  ∀ i, i ∈ selected →
    ∃ s orig,
      doc !! i = Some orig ∧
      output_doc !! i = Some s ∧
      length s = length orig ∧
      head s = Some (cls_index (src_dict self)) ∧
      last s = Some (sent_sep_idx self).
Proof.
  intros Hframed Hdoc Hrun i Hi.
  apply mask_sentences_Ok in Hrun
    as (doc' & shuffled & Hdoc' & _ & _ & _ & _ & Hin & _);
    [|by eapply framed_docs_nonempty].
  simplify_eq.
  destruct (Hin _ Hi) as (s & orig & Hs & Horig & Hlen & Hfr).
  specialize (Hfr Hframed).
  exists s, orig. split_and!; try done.
  - by eapply framed_head.
  - by eapply framed_last.
Qed.

(** C3 (amended).  [mask_sentences] selects the first [num_pred] shuffled
    positions, where [num_pred] is
    [min(max(min_predictions_per_doc, int(len(doc) * p)), max_predictions)].
    The product is the product of two doubles and [int] truncates it: it is
    not rounded to the nearest integer, and it is the floor of the exact
    product by the double that [p] stands for, or one more when the double
    product rounds up to the next integer.  The slice cannot hold more
    positions than the document has, and an empty selection does not
    return.  So, for non-negative bounds, the selection never exceeds
    [max_predictions], reaches [min_predictions_per_doc] whenever that is at
    most [max_predictions] and at most [len(doc)], and is returned strictly
    increasing, without duplicates, within the document. *)
Theorem mask_sentences_selected {G : Type} `{RandomState G}
    (self : SentsPermAndPredictMaskDataset) (index : nat)
    (docs : list (list sentence)) (doc : list sentence)
    (p : Q) (max_pred : Z) (vocab : Dictionary) (g g' : G)
    (output_doc : list sentence) (selected : list nat)
    (masked_sents : list sentence) :
  docs !! index = Some doc →
  mask_sentences self index docs p max_pred vocab g
    = Ok ((output_doc, selected, masked_sents), g') →
  ∃ scaled,
    scaled_len (length doc) p = Ok scaled ∧
    (∀ p', float.of_Q p = float.Finite p' → (0 <= p')%Q →
       (Z.of_nat (length doc) < 2 ^ 53)%Z →
       let x := (inject_Z (Z.of_nat (length doc)) * p')%Q in
       (Qfloor x + 1 < 2 ^ 53)%Z →
       (Qfloor x ≤ scaled ≤ Qfloor x + 1)%Z) ∧
    let k := Z.min (Z.max (min_predictions_per_doc self) scaled) max_pred in
    length selected =
      (if (k <? 0)%Z then length doc - Z.to_nat (- k)
       else Z.to_nat k `min` length doc) ∧
    selected ≠ [] ∧
    ((0 ≤ min_predictions_per_doc self)%Z → (0 ≤ max_pred)%Z →
     (Z.of_nat (length selected) ≤ max_pred)%Z) ∧
    ((0 ≤ min_predictions_per_doc self ≤ max_pred)%Z →
     (min_predictions_per_doc self ≤ Z.of_nat (length doc))%Z →
     (min_predictions_per_doc self ≤ Z.of_nat (length selected))%Z) ∧
    increasing selected ∧
    NoDup selected ∧
    Forall (λ i, i < length doc) selected.
Proof.
  intros Hdoc Hrun.
  apply mask_sentences_selection in Hrun
    as (doc' & candi & k & Hdoc' & Hcandi & Hk & Hsel & Hne & Hsorted).
  simplify_eq. unfold num_pred in Hk. step_run Hk. injection Hk as <-.
  rename a into scaled. exists scaled.
  set (k := Z.min (Z.max (min_predictions_per_doc self) scaled) max_pred) in *.
  assert (Hlen : length selected =
    (if (k <? 0)%Z then length doc - Z.to_nat (- k)
     else Z.to_nat k `min` length doc)).
  { assert (Hc : length candi = length doc) by by rewrite Hcandi, length_seq.
    by rewrite Hsel, py_take_length, Hc. }
  assert (Hnd : NoDup selected).
  { rewrite Hsel. eapply sublist_NoDup; [|apply py_take_sublist].
    rewrite Hcandi. apply NoDup_seq. }
  split; [done|]. split.
  { intros p' Hp' Hp0 Hn x Hx.
    destruct (scaled_len_bracket (length doc) p p' Hp' Hp0 Hn Hx)
      as (scaled' & Hrun' & Hbr).
    rewrite E in Hrun'. by injection Hrun' as <-. }
  cbv zeta. split_and!; try done.
  - intros Hmin Hmax. rewrite Hlen. destruct (Z.ltb_spec k 0); lia.
  - intros Hmin Hdoc'. rewrite Hlen. destruct (Z.ltb_spec k 0); lia.
  - by apply Sorted_le_lt.
  - apply Forall_forall. intros i Hi. rewrite Hsel in Hi.
    assert (i ∈ candi) as Hc.
    { eapply elem_of_sublist; [done|apply py_take_sublist]. }
    rewrite Hcandi in Hc. apply elem_of_seq in Hc. lia.
Qed.

(** ** Padded rows *)

Lemma py_index_lt {A} (l : list A) i :
  i < length l → ∃ a, l !! i = Some a ∧ py.index l i = Ok a.
Proof.
  intros [a Ha]%lookup_lt_is_Some. exists a. split; [done|].
  by apply py_index_Some.
Qed.

Lemma set_slice_prefix {A} (v : A) (c : nat) (vals : list A) :
  length vals ≤ c →
  torch.set_slice (replicate c v) 0 (length vals) vals
    = Ok (vals ++ replicate (c - length vals) v).
Proof.
  intros Hle. unfold torch.set_slice, torch.clamp_slice.
  rewrite length_replicate.
  replace (0 `min` (length vals `min` c)) with 0 by lia.
  replace (length vals `min` c - 0) with (length vals) by lia.
  rewrite decide_True by done. simpl. by rewrite drop_replicate.
Qed.

Lemma fill_slice_prefix {A} (v w : A) (c n : nat) :
  n ≤ c →
  torch.fill_slice (replicate c v) 0 n w = replicate n w ++ replicate (c - n) v.
Proof.
  intros Hle. unfold torch.fill_slice, torch.clamp_slice.
  rewrite length_replicate.
  replace (0 `min` (n `min` c)) with 0 by lia.
  replace (n `min` c - 0) with n by lia.
  simpl. by rewrite drop_replicate.
Qed.

Section next_row.
Context {A B : Type}.
Variable f : B → list A.
Variables (done : list B) (sz : list nat) (w n : nat) (v : A).

Let rows := (f <$> done) ++ replicate (S n) (replicate w v).

Lemma next_row_lookup : rows !! length done = Some (replicate w v).
Proof.
  unfold rows. rewrite lookup_app_r; rewrite length_fmap; [|done].
  by rewrite Nat.sub_diag.
Qed.

Lemma next_row_insert row :
  <[length done:=row]> rows = (f <$> done) ++ row :: replicate n (replicate w v).
Proof.
  unfold rows. rewrite insert_app_r_alt; rewrite length_fmap; [|done].
  by rewrite Nat.sub_diag.
Qed.

(** Writing [vals] at the start of the first row not yet written. *)
Lemma set_row_slice_next vals :
  length vals ≤ w →
  torch.set_row_slice (torch.Tensor sz rows) (length done) 0 (length vals) vals
  = Ok (torch.Tensor sz
          ((f <$> done)
             ++ (vals ++ replicate (w - length vals) v)
             :: replicate n (replicate w v))).
Proof.
  intros Hle. unfold torch.set_row_slice. simpl.
  rewrite (py_index_Some _ _ _ next_row_lookup), rbind_Ok_l.
  rewrite set_slice_prefix, rbind_Ok_l by done.
  by rewrite next_row_insert.
Qed.

Lemma fill_row_slice_next k x :
  k ≤ w →
  torch.fill_row_slice (torch.Tensor sz rows) (length done) 0 k x
  = Ok (torch.Tensor sz
          ((f <$> done)
             ++ (replicate k x ++ replicate (w - k) v)
             :: replicate n (replicate w v))).
Proof.
  intros Hle. unfold torch.fill_row_slice. simpl.
  rewrite (py_index_Some _ _ _ next_row_lookup), rbind_Ok_l.
  by rewrite fill_slice_prefix, next_row_insert.
Qed.

End next_row.

(** ** The batch tensorizer *)

Lemma max_lens_foldl docs : ∀ acc : nat * nat,
  let r := foldl (λ '(max_doc_len, max_nsent) '(doc, cls_pos),
                    (length doc `max` max_doc_len, max_nsent `max` length cls_pos))
                 acc (docs : list (list token * list nat)) in
  acc.1 ≤ r.1 ∧ acc.2 ≤ r.2 ∧
  Forall (λ d, length d.1 ≤ r.1 ∧ length d.2 ≤ r.2) docs.
Proof.
  induction docs as [|[doc cls_pos] docs IH]; intros [m1 m2]; simpl.
  - by repeat split.
  - destruct (IH (length doc `max` m1, m2 `max` length cls_pos)) as (H1 & H2 & Hall).
    simpl in *. split_and!; [lia..|]. constructor; [simpl; lia|done].
Qed.

Lemma max_lens_bound docs :
  Forall (λ d, length d.1 ≤ (max_lens docs).1 ∧ length d.2 ≤ (max_lens docs).2) docs.
Proof. apply (max_lens_foldl docs (0, 0)). Qed.

Lemma max_lens_shape docs1 docs2 :
  doc_shape <$> docs1 = doc_shape <$> docs2 → max_lens docs1 = max_lens docs2.
Proof.
  unfold max_lens. generalize (0, 0). revert docs2.
  induction docs1 as [|[d1 c1] docs1 IH]; intros [|[d2 c2] docs2] acc Heq;
    simplify_eq/=; [done|].
  destruct acc as [m1 m2]. rewrite (IH docs2); [|done].
  unfold doc_shape in *. simpl in *. by do 2 f_equal; f_equal.
Qed.

Lemma docs2tensor_loop pad_idx (w1 w2 : nat) sz1 sz2 sz3 rest :
  ∀ (done : list (list token * list nat)),
  Forall (λ d, length d.1 ≤ w1 ∧ length d.2 ≤ w2) rest →
  py.for_each
    (λ '(src_tokens, doc_pad_mask, cpos, nsents) '(i, (doc, cls_pos)),
       let cls_len := length cls_pos in
       doc_pad_mask ← torch.fill_row_slice doc_pad_mask i 0 cls_len false;
       positions ← torch.LongTensor_nat cls_pos;
       cpos ← torch.set_row_slice cpos i 0 cls_len positions;
       let doc_len := length doc in
       tokens ← torch.LongTensor doc;
       src_tokens ← torch.set_row_slice src_tokens i 0 doc_len tokens;
       mret (src_tokens, doc_pad_mask, cpos, nsents ++ [cls_len]))
    (torch.Tensor sz1 ((padded_tokens pad_idx w1 <$> done)
                         ++ replicate (length rest) (replicate w1 pad_idx)),
     torch.Tensor sz2 ((pad_mask_row w2 <$> done)
                         ++ replicate (length rest) (replicate w2 true)),
     torch.Tensor sz3 ((padded_cls_pos w2 <$> done)
                         ++ replicate (length rest) (replicate w2 0)),
     (λ d, length d.2) <$> done)
    (zip (seq (length done) (length rest)) rest)
  = if forallb doc_fits rest
    then Ok (torch.Tensor sz1 (padded_tokens pad_idx w1 <$> (done ++ rest)),
             torch.Tensor sz2 (pad_mask_row w2 <$> (done ++ rest)),
             torch.Tensor sz3 (padded_cls_pos w2 <$> (done ++ rest)),
             (λ d, length d.2) <$> (done ++ rest))
    else Raise RuntimeError.
Proof.
  induction rest as [|[doc cls_pos] rest IH]; intros done Hall.
  - simpl. by rewrite !app_nil_r.
  - apply Forall_cons in Hall as [[Hd Hc] Hall]. simpl in Hd, Hc.
    cbn [length seq zip zip_with py.for_each forallb]. cbn beta iota zeta.
    rewrite fill_row_slice_next, rbind_Ok_l by done.
    unfold doc_fits at 1, torch.LongTensor_nat, torch.LongTensor. cbn [fst snd].
    destruct (forallb _ cls_pos); [|done]. rewrite rbind_Ok_l.
    rewrite set_row_slice_next, rbind_Ok_l by done.
    destruct (forallb _ doc); [|done]. rewrite rbind_Ok_l.
    rewrite set_row_slice_next by done. rewrite ?rbind_Ok_l. cbn [andb].
    specialize (IH (done ++ [(doc, cls_pos)]) Hall).
    rewrite !fmap_app, length_app in IH. simpl in IH.
    replace (length done + 1) with (S (length done)) in IH by lia.
    rewrite <- !app_assoc in IH. simpl in IH.
    rewrite !fmap_app, !fmap_cons. exact IH.
Qed.

(** [docs2tensor] returns when the pad id, the tokens and the sentence
    starts are int64, and what it returns is the padding of its argument to
    the widest document and the longest sentence list. *)
Lemma docs2tensor_eq docs pad_idx sep_id :
  docs2tensor docs pad_idx sep_id =
  if torch.fits_long pad_idx && forallb doc_fits docs then
    let bsz := length docs in
    let '(max_doc_len, max_nsent) := max_lens docs in
    Ok (torch.Tensor [bsz; max_doc_len] (padded_tokens pad_idx max_doc_len <$> docs),
        torch.Tensor [bsz; max_nsent] (pad_mask_row max_nsent <$> docs),
        torch.full2 bsz max_doc_len 0%Z,
        torch.Tensor [bsz; max_nsent] (padded_cls_pos max_nsent <$> docs),
        (λ d, length d.2) <$> docs)
  else Raise RuntimeError.
Proof.
  unfold docs2tensor. pose proof (max_lens_bound docs) as Hb.
  destruct (max_lens docs) as [w1 w2]. simpl in Hb. cbv zeta.
  unfold torch.long. destruct (torch.fits_long pad_idx); [|done].
  rewrite rbind_Ok_l. unfold torch.full2, py.enumerate.
  pose proof (docs2tensor_loop pad_idx w1 w2 [length docs; w1]
                [length docs; w2] [length docs; w2] docs [] Hb) as Hloop.
  simpl in Hloop. cbv zeta. rewrite Hloop.
  by destruct (forallb doc_fits docs).
Qed.

(** What [docs2tensor] has returned. *)
Lemma docs2tensor_inv docs pad_idx sep_id r :
  docs2tensor docs pad_idx sep_id = Ok r →
  (let bsz := length docs in
   let '(max_doc_len, max_nsent) := max_lens docs in
   Ok (torch.Tensor [bsz; max_doc_len] (padded_tokens pad_idx max_doc_len <$> docs),
       torch.Tensor [bsz; max_nsent] (pad_mask_row max_nsent <$> docs),
       torch.full2 bsz max_doc_len 0%Z,
       torch.Tensor [bsz; max_nsent] (padded_cls_pos max_nsent <$> docs),
       (λ d, length d.2) <$> docs)) = Ok r.
Proof. rewrite docs2tensor_eq. by case_match. Qed.

Lemma docs2tensor_fits docs pad_idx sep_id r :
  docs2tensor docs pad_idx sep_id = Ok r →
  torch.fits_long pad_idx = true ∧ forallb doc_fits docs = true.
Proof.
  rewrite docs2tensor_eq. by destruct (torch.fits_long pad_idx), (forallb _ docs).
Qed.

Lemma doc2tensor_docs2tensor self docs_ vocab :
  doc2tensor self docs_ vocab
  = docs2tensor (flatten_doc <$> docs_) (pad vocab) (sent_sep_idx self).
Proof. done. Qed.

(** The mask, the segment ids and the sentence counts depend on the sizes
    of the documents only. *)
Lemma docs2tensor_shape docs1 docs2 pad1 pad2 sep1 sep2 t1 m1 s1 c1 n1 t2 m2 s2 c2 n2 :
  doc_shape <$> docs1 = doc_shape <$> docs2 →
  docs2tensor docs1 pad1 sep1 = Ok (t1, m1, s1, c1, n1) →
  docs2tensor docs2 pad2 sep2 = Ok (t2, m2, s2, c2, n2) →
  m1 = m2 ∧ s1 = s2 ∧ n1 = n2.
Proof.
  intros Hshape H1 H2. apply docs2tensor_inv in H1, H2. revert H1 H2.
  cbv zeta. rewrite (max_lens_shape _ _ Hshape).
  assert (Hlen : length docs1 = length docs2).
  { by rewrite <- (length_fmap doc_shape docs1), Hshape, length_fmap. }
  assert (Hsnd : (λ d : list Z * list nat, length d.2) <$> docs1
               = (λ d, length d.2) <$> docs2).
  { apply (f_equal (fmap snd)) in Hshape.
    by rewrite <- !list_fmap_compose in Hshape. }
  destruct (max_lens docs2) as [w1 w2]. rewrite Hlen.
  intros [= <- <- <- <- <-] [= <- <- <- <- <-]. split_and!; try done.
  f_equal. unfold pad_mask_row.
  apply (f_equal (fmap (λ n, replicate n false ++ replicate (w2 - n) true))) in Hsnd.
  by rewrite <- !list_fmap_compose in Hsnd.
Qed.

(** ** Flattened documents *)

Lemma starts_from_length off sents : length (starts_from off sents) = length sents.
Proof. revert off. induction sents; intros; simpl; auto. Qed.

Lemma starts_from_app off sents1 sents2 :
  starts_from off (sents1 ++ sents2)
  = starts_from off sents1 ++ starts_from (off + py.sum_len sents1) sents2.
Proof.
  revert off. induction sents1 as [|s sents1 IH]; intros off; simpl.
  - by rewrite Nat.add_0_r.
  - rewrite IH. do 3 f_equal. lia.
Qed.

Lemma starts_from_lookup sents : ∀ off j,
  j < length sents →
  starts_from off sents !! j = Some (off + length (concat (take j sents))).
Proof.
  induction sents as [|s sents IH]; intros off [|j] Hj; simpl in *; try lia.
  - by rewrite Nat.add_0_r.
  - rewrite IH by lia. rewrite length_app. f_equal. lia.
Qed.

Lemma starts_from_lower sents : ∀ off,
  Forall (λ p, off ≤ p) (starts_from off sents).
Proof.
  induction sents as [|s sents IH]; intros off; simpl; constructor; [done|].
  eapply Forall_impl; [apply IH|]. simpl. lia.
Qed.

Lemma starts_from_increasing sents : ∀ off,
  Forall (λ s : sentence, s ≠ []) sents → increasing (starts_from off sents).
Proof.
  unfold increasing.
  induction sents as [|s sents IH]; intros off Hne; simpl; [constructor|].
  apply Forall_cons in Hne as [Hs Hne]. constructor; [by apply IH|].
  destruct sents as [|s' sents]; simpl; constructor.
  destruct s; [done|simpl; lia].
Qed.

(** The token at the start of the [j]-th sentence of a flattened document is
    the first token of that sentence. *)
Lemma concat_lookup_start (sents : list sentence) j s :
  sents !! j = Some s →
  s ≠ [] →
  concat sents !! length (concat (take j sents)) = head s ∧
  length (concat (take j sents)) < length (concat sents).
Proof.
  intros Hj Hs.
  assert (Hsplit : concat sents
    = concat (take j sents) ++ s ++ concat (drop (S j) sents)).
  { rewrite <- (take_drop_middle _ _ _ Hj) at 1. by rewrite concat_app. }
  rewrite Hsplit. split.
  - rewrite lookup_app_r by lia. rewrite Nat.sub_diag. by destruct s.
  - rewrite !length_app. destruct s; [done|simpl; lia].
Qed.

Lemma flatten_loop_take max_tokens_len sents : ∀ truncate_doc cls_pos,
  ∃ k, k ≤ length sents ∧
    flatten_loop max_tokens_len truncate_doc cls_pos sents
    = (truncate_doc ++ concat (take k sents),
       cls_pos ++ starts_from (length truncate_doc) (take k sents)) ∧
    ((Z.of_nat (length truncate_doc + py.sum_len sents) ≤ max_tokens_len)%Z →
     k = length sents).
Proof.
  induction sents as [|s sents IH]; intros doc cls_pos; simpl.
  - exists 0. by rewrite !app_nil_r.
  - destruct (Z.leb_spec
      (Z.of_nat (length doc) + Z.of_nat (length s)) max_tokens_len) as [Hle|Hgt].
    + destruct (IH (doc ++ s) (cls_pos ++ [length doc])) as (k & Hk & -> & Hall).
      exists (S k). split; [lia|]. simpl. rewrite length_app, <- !app_assoc.
      split; [done|]. intros Hfit. f_equal. apply Hall. rewrite length_app. lia.
    + exists 0. rewrite !app_nil_r. split; [lia|]. split; [done|]. lia.
Qed.

Lemma flatten_doc_eq (doc_ : list sentence) :
  flatten_doc doc_ = (concat doc_, starts_from 0 doc_).
Proof.
  unfold flatten_doc.
  assert (Hgen : ∀ (l : list sentence) doc cls_pos,
    foldl (λ '(doc, cls_pos) sent, (doc ++ sent, cls_pos ++ [length doc]))
          (doc, cls_pos) l
    = (doc ++ concat l, cls_pos ++ starts_from (length doc) l)).
  { induction l as [|s l IH]; intros doc cls_pos; simpl.
    - by rewrite !app_nil_r.
    - by rewrite IH, length_app, <- !app_assoc. }
  by rewrite Hgen.
Qed.

Lemma flatten_doc_shape (doc_ : list sentence) :
  doc_shape (flatten_doc doc_) = sents_shape doc_.
Proof.
  rewrite flatten_doc_eq. unfold doc_shape, sents_shape. simpl.
  by rewrite starts_from_length, sum_len_concat.
Qed.

(** ** The sentences of a sample *)

Lemma cap_sentence_nonempty sep_id n (sent : sentence) :
  sent ≠ [] → cap_sentence sep_id n sent ≠ [].
Proof.
  intros Hne. unfold cap_sentence. case_match; [done|].
  by destruct (py.take _ _).
Qed.

Lemma prepare_sents_classed sep_id cls_idx max_doc_length max_sent_length src :
  Forall (classed_sentence cls_idx)
    (prepare_sents sep_id cls_idx max_doc_length max_sent_length src).
Proof.
  unfold prepare_sents. apply Forall_fmap.
  assert (Hsplit : Forall (λ s : list Z, s ≠ [])
    (match max_doc_length with
     | Some n => py.take n (split_list src sep_id)
     | None => split_list src sep_id
     end)).
  { pose proof (split_list_nonempty src sep_id) as Hne.
    destruct max_doc_length; [|done].
    by apply py_take_Forall. }
  destruct max_sent_length as [n|].
  - apply Forall_fmap. eapply Forall_impl; [exact Hsplit|].
    intros s Hs. simpl. eexists. split; [|done]. by apply cap_sentence_nonempty.
  - eapply Forall_impl; [exact Hsplit|]. intros s Hs. simpl. by exists s.
Qed.

Lemma classed_sentence_app cls s t :
  classed_sentence cls s → classed_sentence cls (s ++ t).
Proof. intros (u & Hu & ->). exists (u ++ t). split; [by destruct u|done]. Qed.

Lemma classed_sentence_nonempty cls s : classed_sentence cls s → s ≠ [].
Proof. by intros (u & _ & ->). Qed.

Lemma classed_sentence_head cls s : classed_sentence cls s → head s = Some cls.
Proof. by intros (u & _ & ->). Qed.

(** A classed sentence that ends with the separator is framed. *)
Lemma classed_framed cls sep s :
  classed_sentence cls s → last s = Some sep → framed_sentence cls sep s.
Proof.
  intros (u & Hu & ->) Hlast. rewrite last_cons in Hlast.
  destruct (last u) as [x|] eqn:Hx.
  - injection Hlast as ->. apply last_Some in Hx as [body ->]. by exists body.
  - by apply last_None in Hx.
Qed.

Lemma close_last_Ok sep_id (sents sents' : list sentence) :
  close_last sep_id sents = Ok sents' →
  ∃ init sent,
    sents = init ++ [sent] ∧
    (sents' = sents ∨ sents' = init ++ [sent ++ [sep_id]]).
Proof.
  unfold close_last. intros Hrun. run.
  apply last_Some in E as [init ->]. exists init, a. split; [done|].
  case_match; run; subst; [by left|right].
  rewrite length_app. simpl.
  replace (length init + 1 - 1) with (length init + 0) by lia.
  by rewrite insert_app_r.
Qed.

Lemma close_last_Forall (P : sentence → Prop) sep_id sents sents' :
  (∀ s, P s → P (s ++ [sep_id])) →
  close_last sep_id sents = Ok sents' →
  Forall P sents → Forall P sents'.
Proof.
  intros Happ (init & sent & -> & [->| ->])%close_last_Ok; [done|].
  rewrite !Forall_app, !Forall_singleton. naive_solver.
Qed.

Lemma sample_doc_classed sep_id cls_idx max_doc_length max_sent_length
    max_tokens_len s t :
  sample_doc sep_id cls_idx max_doc_length max_sent_length max_tokens_len s
    = Some t →
  Forall (classed_sentence cls_idx) t.
Proof.
  unfold sample_doc.
  pose proof (prepare_sents_classed sep_id cls_idx max_doc_length
                max_sent_length (source s)) as Hprep.
  destruct (prepare_sents _ _ _ _ _) as [|s0 sents0]; [done|].
  destruct (close_last _ _) as [sents|] eqn:Hclose; [|done].
  intros [= <-].
  destruct (truncate_loop_take max_tokens_len sents []) as (k & _ & ->). simpl.
  apply Forall_take. eapply close_last_Forall; [|done..].
  intros ?. apply classed_sentence_app.
Qed.

Lemma truncate_loop_idem max_tokens_len sents :
  truncate_loop max_tokens_len [] (truncate_loop max_tokens_len [] sents)
  = truncate_loop max_tokens_len [] sents.
Proof.
  destruct (truncate_loop_fits max_tokens_len sents []) as [->|Hfit]; [done|].
  by rewrite truncate_loop_all.
Qed.

Lemma sample_doc_fits sep_id cls_idx max_doc_length max_sent_length
    max_tokens_len s t :
  sample_doc sep_id cls_idx max_doc_length max_sent_length max_tokens_len s
    = Some t →
  truncate_loop max_tokens_len [] t = t.
Proof.
  unfold sample_doc. repeat case_match; try done.
  intros [= <-]. apply truncate_loop_idem.
Qed.

(** ** The documents of the masking path *)

Lemma get_docs_loop_Ok sep_id max_tokens_len sents :
  ∀ truncate_doc cls_pos acc kept cls_pos',
  length truncate_doc = py.sum_len acc →
  get_docs_loop sep_id max_tokens_len truncate_doc cls_pos acc sents
    = Ok (kept, cls_pos') →
  kept = truncate_loop max_tokens_len acc sents ∧
  Forall (λ s, last s = Some sep_id) (drop (length acc) kept).
Proof.
  induction sents as [|s sents IH];
    intros doc cls_pos acc kept cls_pos' Hlen Hrun; simpl in Hrun |- *.
  - simplify_eq. by rewrite drop_all.
  - rewrite <- Hlen. run. apply Z.eqb_eq in E0. subst.
    case_match.
    + apply IH in Hrun as [-> Hall]; [|by rewrite length_app, sum_len_app; simpl; lia].
      split; [done|].
      destruct (truncate_loop_take max_tokens_len sents (acc ++ [s]))
        as (k & _ & Hk).
      rewrite Hk in *. rewrite <- app_assoc, drop_app_length.
      rewrite drop_app_length' in Hall by done.
      by constructor.
    + simplify_eq. by rewrite drop_all.
Qed.

Lemma get_doc_Ok sep_id cls_idx max_sent_length max_doc_length max_tokens_len
    docs cls_poses s docs' cls_poses' :
  get_doc sep_id cls_idx max_sent_length max_doc_length max_tokens_len
    (docs, cls_poses) s = Ok (docs', cls_poses') →
  match sample_doc sep_id cls_idx max_doc_length max_sent_length
          max_tokens_len s with
  | None => docs' = docs
  | Some t => docs' = docs ++ [t] ∧ Forall (framed_sentence cls_idx sep_id) t
  end.
Proof.
  unfold get_doc. intros Hrun.
  pose proof (sample_doc_classed sep_id cls_idx max_doc_length max_sent_length
                max_tokens_len s) as Hclassed.
  unfold sample_doc in *. unfold prepare_sents in *.
  destruct (_ <$> _) as [|s0 sents0] eqn:Hprep; [by simplify_eq|].
  run. rewrite E in *. simplify_eq.
  apply get_docs_loop_Ok in E0 as [-> Hlast]; [|done].
  split; [done|]. specialize (Hclassed _ eq_refl).
  rewrite drop_0 in Hlast.
  apply Forall_forall. intros t Ht.
  apply classed_framed.
  - by eapply Forall_forall in Hclassed.
  - by eapply Forall_forall in Hlast.
Qed.

Lemma get_docs_for_each sep_id cls_idx max_sent_length max_doc_length
    max_tokens_len samples :
  ∀ docs cls_poses docs' cls_poses',
  py.for_each
    (get_doc sep_id cls_idx max_sent_length max_doc_length max_tokens_len)
    (docs, cls_poses) samples = Ok (docs', cls_poses') →
  docs' = docs ++ omap (sample_doc sep_id cls_idx max_doc_length
                          max_sent_length max_tokens_len) samples ∧
  (framed_docs cls_idx sep_id docs → framed_docs cls_idx sep_id docs').
Proof.
  induction samples as [|s samples IH];
    intros docs cls_poses docs' cls_poses' Hrun; simpl in Hrun.
  - run. simplify_eq. by rewrite app_nil_r.
  - step_run Hrun. destruct a as [docs1 cls_poses1].
    apply get_doc_Ok in E. apply IH in Hrun as [-> Hfr]. simpl.
    destruct (sample_doc _ _ _ _ _ s) as [t|]; simpl.
    + destruct E as [-> Ht]. rewrite <- app_assoc in *. split; [done|].
      intros Hdocs. apply Hfr. apply Forall_app. split; [done|].
      by constructor.
    + by subst.
Qed.

(** What [get_docs] returns: the documents of the samples, in order, each
    made of framed sentences. *)
Lemma get_docs_Ok samples vocab maxlen max_doc_length max_tokens_len bert_model
    docs cls_poses :
  get_docs samples vocab maxlen max_doc_length max_tokens_len bert_model
    = Ok (docs, cls_poses) →
  ∃ sep,
    dict_get sent_sep_dic bert_model = Ok sep ∧
    docs = omap (sample_doc (index vocab sep) (cls_index vocab) max_doc_length
                   maxlen max_tokens_len) samples ∧
    framed_docs (cls_index vocab) (index vocab sep) docs.
Proof.
  unfold get_docs. intros Hrun. step_run Hrun. step_run Hrun.
  apply get_docs_for_each in Hrun as [-> Hfr].
  exists a. split; [done|]. split; [done|]. apply Hfr. constructor.
Qed.

(** ** The documents of the permutation path *)

Section permutation_path_facts.
Context {G : Type} `{RandomState G}.

(** The shuffler returns the retained sentences in another order. *)
Lemma shuffle_sents_Ok fix_ratio max_tokens_len sents g shuffled target_order g' :
  shuffle_sents fix_ratio max_tokens_len sents g
    = Ok ((shuffled, target_order), g') →
  shuffled ≡ₚ truncate_loop max_tokens_len [] sents ∧
  target_order ≡ₚ seq 0 (length (truncate_loop max_tokens_len [] sents)) ∧
  ∀ idx o, target_order !! idx = Some o → shuffled !! o = sents !! idx.
Proof.
  unfold shuffle_sents. intros Hrun. run. simplify_eq.
  apply shuffle_order_Ok in E as [Hperm _].
  destruct (place_sents_Ok _ _ _ _ _ Hperm E0 E1) as (Hn & Hlen & Hsh & Hget).
  split_and!; try done.
  destruct (truncate_loop_take max_tokens_len sents []) as (k & Hk & Htr).
  simpl in Htr. rewrite Htr in Hsh |- *. rewrite length_take in Hsh.
  by replace (k `min` length sents) with k in Hsh by lia.
Qed.

(** One sample of the permutation path: its document, when it has one, with
    the sentences where the order array sends them. *)
Lemma src_tok_doc_placed sep_id cls_idx fix_ratio max_doc_length max_sent_length
    max_tokens_len docs target_orders s g docs' target_orders' g' :
  src_tok_doc sep_id cls_idx fix_ratio max_doc_length max_sent_length
    max_tokens_len (docs, target_orders) s g
    = Ok ((docs', target_orders'), g') →
  match sample_doc sep_id cls_idx (if_truthy max_doc_length) max_sent_length
          max_tokens_len s with
  | None => docs' = docs ∧ target_orders' = target_orders
  | Some t =>
      ∃ shuffled target_order,
        shuffled ≡ₚ t ∧
        target_order ≡ₚ seq 0 (length t) ∧
        (∀ idx o, target_order !! idx = Some o → shuffled !! o = t !! idx) ∧
        docs' = docs ++ [(concat shuffled, starts_from 0 shuffled)] ∧
        target_orders' = target_orders ++ [target_order]
  end.
Proof.
  unfold src_tok_doc, sample_doc. intros Hrun.
  assert (Hprep :
    (λ sent : list Z, cls_idx :: sent) <$>
      match max_sent_length with
      | Some n =>
          cap_sentence sep_id n <$>
            match max_doc_length with
            | Some n0 =>
                if (n0 =? 0)%Z then split_list (source s) sep_id
                else py.take n0 (split_list (source s) sep_id)
            | None => split_list (source s) sep_id
            end
      | None =>
          match max_doc_length with
          | Some n0 =>
              if (n0 =? 0)%Z then split_list (source s) sep_id
              else py.take n0 (split_list (source s) sep_id)
          | None => split_list (source s) sep_id
          end
      end
    = prepare_sents sep_id cls_idx (if_truthy max_doc_length) max_sent_length
        (source s)).
  { unfold prepare_sents, if_truthy.
    destruct max_doc_length as [n0|]; [|done]. by destruct (n0 =? 0)%Z. }
  rewrite Hprep in Hrun. clear Hprep.
  destruct (prepare_sents _ _ _ _ _) as [|s0 sents0]; [by run; simplify_eq|].
  step_run Hrun. step_run E. rewrite E.
  step_run Hrun. destruct a0 as [shuffled target_order].
  apply shuffle_sents_Ok in E0 as (Hsh & Hord & Hplace).
  destruct (flatten_loop_take max_tokens_len shuffled [] []) as (k & Hk & Hfl & Hall).
  rewrite Hfl in Hrun. simpl in Hrun. run. simplify_eq.
  exists shuffled, target_order.
  assert (k = length shuffled) as ->.
  { destruct (truncate_loop_fits max_tokens_len a []) as [Hnil|Hfit].
    - rewrite Hnil in Hsh. apply Permutation_nil_r in Hsh. subst. simpl in *. lia.
    - apply Hall. simpl. by rewrite Hsh. }
  rewrite firstn_all. split_and!; try done.
  intros idx o Hidx. rewrite (Hplace _ _ Hidx).
  destruct (truncate_loop_take max_tokens_len a []) as (n & Hn & Htr).
  simpl in Htr. rewrite Htr. symmetry. apply lookup_take_lt.
  apply lookup_lt_Some in Hidx. rewrite Hord, length_seq, Htr, length_take in Hidx.
  lia.
Qed.

Lemma src_tok_doc_Ok sep_id cls_idx fix_ratio max_doc_length max_sent_length
    max_tokens_len docs target_orders s g docs' target_orders' g' :
  src_tok_doc sep_id cls_idx fix_ratio max_doc_length max_sent_length
    max_tokens_len (docs, target_orders) s g
    = Ok ((docs', target_orders'), g') →
  match sample_doc sep_id cls_idx (if_truthy max_doc_length) max_sent_length
          max_tokens_len s with
  | None => docs' = docs ∧ target_orders' = target_orders
  | Some t =>
      ∃ shuffled target_order,
        shuffled ≡ₚ t ∧
        target_order ≡ₚ seq 0 (length t) ∧
        docs' = docs ++ [(concat shuffled, starts_from 0 shuffled)] ∧
        target_orders' = target_orders ++ [target_order]
  end.
Proof.
  intros Hrun%src_tok_doc_placed. destruct (sample_doc _ _ _ _ _ s); [|done].
  destruct Hrun as (shuffled & order & ? & ? & _ & ? & ?). by exists shuffled, order.
Qed.

(** The documents of the batch, sample by sample: the sentences of each, as
    reordered, with the order array that reordered them. *)
Lemma src_tok_docs_placed sep_id cls_idx fix_ratio max_doc_length max_sent_length
    max_tokens_len samples :
  ∀ docs target_orders g docs' target_orders' g',
  py.for_each
    (src_tok_doc sep_id cls_idx fix_ratio max_doc_length max_sent_length
       max_tokens_len)
    (docs, target_orders) samples g = Ok ((docs', target_orders'), g') →
  ∃ new : list (list sentence * list nat),
    docs' = docs ++ ((λ so, (concat so.1, starts_from 0 so.1)) <$> new) ∧
    target_orders' = target_orders ++ (snd <$> new) ∧
    Forall2 (λ so t, so.1 ≡ₚ t ∧
                     ∀ idx o, so.2 !! idx = Some o → so.1 !! o = t !! idx)
      new
      (omap (sample_doc sep_id cls_idx (if_truthy max_doc_length)
               max_sent_length max_tokens_len) samples).
Proof.
  induction samples as [|s samples IH];
    intros docs orders g docs' orders' g' Hrun; simpl in Hrun.
  - run. simplify_eq. exists []. by rewrite !app_nil_r.
  - step_run Hrun. destruct a as [docs1 orders1].
    apply src_tok_doc_placed in E. apply IH in Hrun as (new & -> & -> & Hall).
    simpl. destruct (sample_doc _ _ _ _ _ s) as [t|]; simpl.
    + destruct E as (shuffled & order & Hsh & _ & Hplace & -> & ->).
      exists ((shuffled, order) :: new).
      rewrite <- !app_assoc. split; [done|]. split; [done|].
      by constructor.
    + destruct E as [-> ->]. by exists new.
Qed.

Lemma src_tok_docs_Ok sep_id cls_idx fix_ratio max_doc_length max_sent_length
    max_tokens_len samples :
  ∀ docs target_orders g docs' target_orders' g',
  py.for_each
    (src_tok_doc sep_id cls_idx fix_ratio max_doc_length max_sent_length
       max_tokens_len)
    (docs, target_orders) samples g = Ok ((docs', target_orders'), g') →
  ∃ new,
    docs' = docs ++ new ∧
    Forall2 (λ d t, ∃ shuffled, shuffled ≡ₚ t ∧
                                d = (concat shuffled, starts_from 0 shuffled))
      new
      (omap (sample_doc sep_id cls_idx (if_truthy max_doc_length)
               max_sent_length max_tokens_len) samples).
Proof.
  induction samples as [|s samples IH];
    intros docs orders g docs' orders' g' Hrun; simpl in Hrun.
  - run. simplify_eq. exists []. by rewrite app_nil_r.
  - step_run Hrun. destruct a as [docs1 orders1].
    apply src_tok_doc_Ok in E. apply IH in Hrun as (new & -> & Hall).
    simpl. destruct (sample_doc _ _ _ _ _ s) as [t|]; simpl.
    + destruct E as (shuffled & order & Hsh & _ & -> & _).
      exists ((concat shuffled, starts_from 0 shuffled) :: new).
      rewrite <- app_assoc. split; [done|]. constructor; [|done].
      by exists shuffled.
    + destruct E as [-> _]. by exists new.
Qed.

End permutation_path_facts.

Lemma sample_docs_classed sep_id cls_idx max_doc_length max_sent_length
    max_tokens_len samples :
  Forall (Forall (classed_sentence cls_idx))
    (omap (sample_doc sep_id cls_idx max_doc_length max_sent_length
             max_tokens_len) samples).
Proof.
  apply Forall_forall. intros t (s & _ & Ht)%list_elem_of_omap.
  by eapply sample_doc_classed.
Qed.

Lemma concat_take_drop (sents : list sentence) j s (rest : list token) :
  sents !! j = Some s →
  take (length s) (drop (length (concat (take j sents))) (concat sents ++ rest)) = s.
Proof.
  intros Hj.
  assert (Hsplit : concat sents
    = concat (take j sents) ++ s ++ concat (drop (S j) sents)).
  { rewrite <- (take_drop_middle _ _ _ Hj) at 1. by rewrite concat_app. }
  rewrite Hsplit. rewrite <- !app_assoc.
  rewrite <- (take_drop_middle _ _ _ Hj) at 1. rewrite take_app_length'.
  2:{ rewrite length_take. apply lookup_lt_Some in Hj. lia. }
  rewrite drop_app_length. by rewrite take_app_length.
Qed.

(** C5.  The batch that [create_src_tok_batch] returns has one document for
    every sample that has a sentence, in the order of the samples: the
    sentences of the sample (split, capped, each opened by the class token,
    kept while they fit), moved to where the order array of the document
    sends them.  Row [i] of [src_tokens] is the concatenation of these
    sentences followed by pad ids, and [nsents[i]] is their number; for every
    [j < nsents[i]], [cpos[i, j]] is the offset at which the [j]-th sentence
    starts, lies inside the document, the tokens from there on are that
    sentence, and [src_tokens[i, cpos[i, j]]] is the class token that opens
    it; the first [nsents[i]] entries of [cpos[i]] are strictly
    increasing. *)
Theorem create_src_tok_batch_cls_pos {G : Type} `{RandomState G}
    (samples : list sample) (src_dict : Dictionary) (fix_ratio : Q)
    (max_doc_length max_sent_length : option Z) (max_tokens_len : Z)
    (bert_model : string) (g g' : G)
    (src_tokens : tensor2 Z) (doc_pad_mask : tensor2 bool)
    (segment_ids : tensor2 Z) (cpos : tensor2 nat) (nsents : list nat)
    (target_orders : list (list nat)) :
  create_src_tok_batch samples src_dict fix_ratio max_doc_length
    max_sent_length max_tokens_len bert_model g
    = Ok ((src_tokens, doc_pad_mask, segment_ids, cpos, nsents, target_orders), g') →
  ∃ (sep : string) (docs : list (list sentence)),
    dict_get sent_sep_dic bert_model = Ok sep ∧
    let sample_docs :=
      omap (sample_doc (index src_dict sep) (cls_index src_dict)
              (if_truthy max_doc_length) max_sent_length max_tokens_len)
           samples in
    length docs = length sample_docs ∧
    length target_orders = length docs ∧
    nsents = length <$> docs ∧
    length (torch.data src_tokens) = length docs ∧
    length (torch.data cpos) = length docs ∧
    ∀ i sents, docs !! i = Some sents →
      ∃ (t : list sentence) (order : list nat) (row : list Z)
        (cpos_row : list nat),
        sample_docs !! i = Some t ∧
        target_orders !! i = Some order ∧
        sents ≡ₚ t ∧
        (∀ idx o, order !! idx = Some o → sents !! o = t !! idx) ∧
        torch.data src_tokens !! i = Some row ∧
        torch.data cpos !! i = Some cpos_row ∧
        (∃ width, row = concat sents ++ replicate width (pad src_dict)) ∧
        increasing (take (length sents) cpos_row) ∧
        ∀ j sent, sents !! j = Some sent →
          ∃ pos,
            cpos_row !! j = Some pos ∧
            pos = length (concat (take j sents)) ∧
            pos < length (concat sents) ∧
            take (length sent) (drop pos row) = sent ∧
            head sent = Some (cls_index src_dict) ∧
            row !! pos = Some (cls_index src_dict).
Proof.
  unfold create_src_tok_batch. intros Hrun.
  step_run Hrun. step_run E. subst. rename a into sep.
  step_run Hrun. clear E0 a.
  step_run Hrun. destruct a as [docs orders].
  apply src_tok_docs_placed in E0 as (new & Hdocs & Horders & Hall).
  simpl in Hdocs, Horders. subst docs orders.
  step_run Hrun. step_run E0. apply docs2tensor_inv in E0. cbv zeta in E0.
  destruct (max_lens _) as [w1 w2] eqn:Hmax.
  run. simplify_eq. simpl.
  exists sep, (fst <$> new). split; [done|]. cbv zeta.
  rewrite !length_fmap. split; [by eapply Forall2_length|].
  split; [done|]. split.
  { rewrite <- !list_fmap_compose. apply list_fmap_ext.
    intros ? [sents order] ?. simpl. apply starts_from_length. }
  split; [done|]. split; [done|].
  intros i sents Hi. rewrite list_lookup_fmap in Hi.
  destruct (new !! i) as [[sents' order]|] eqn:Hnew; [|done].
  simpl in Hi. injection Hi as ->.
  pose proof (sample_docs_classed (index src_dict sep) (cls_index src_dict)
    (if_truthy max_doc_length) max_sent_length max_tokens_len samples) as Hcl.
  destruct (Forall2_lookup_l _ _ _ _ _ Hall Hnew) as (t & Ht & Hsh & Hplace).
  simpl in Hsh, Hplace.
  eapply Forall_lookup_1 in Hcl; [|exact Ht]. rewrite <- Hsh in Hcl.
  exists t, order,
    (padded_tokens (pad src_dict) w1 (concat sents, starts_from 0 sents)),
    (padded_cls_pos w2 (concat sents, starts_from 0 sents)).
  rewrite !list_lookup_fmap, Hnew. simpl.
  unfold padded_tokens, padded_cls_pos. simpl.
  split_and!; try done.
  - by eexists.
  - rewrite take_app_length' by by rewrite starts_from_length.
    apply starts_from_increasing.
    eapply Forall_impl; [exact Hcl|]. apply classed_sentence_nonempty.
  - intros j sent Hsent.
    assert (Hj : j < length sents) by by eapply lookup_lt_Some.
    assert (Hclassed : classed_sentence (cls_index src_dict) sent)
      by by eapply Forall_lookup_1 in Hcl.
    destruct (concat_lookup_start sents j sent Hsent) as [Hhead Hlt];
      [by eapply classed_sentence_nonempty|].
    exists (length (concat (take j sents))).
    rewrite lookup_app_l by by rewrite starts_from_length.
    rewrite starts_from_lookup by done. simpl.
    rewrite lookup_app_l by done. rewrite Hhead.
    split_and!; try done; [by apply concat_take_drop|..];
      by apply classed_sentence_head.
Qed.

(** ** The documents of the masking path, masked *)

Lemma sents_shape_lengths (l1 l2 : list sentence) :
  length <$> l1 = length <$> l2 → sents_shape l1 = sents_shape l2.
Proof.
  revert l2. induction l1 as [|s1 l1 IH]; intros [|s2 l2] Heq; simplify_eq/=;
    [done|].
  specialize (IH _ H0). unfold sents_shape in *. simpl. simplify_eq. by f_equal; f_equal.
Qed.

Lemma sents_shape_Permutation (l1 l2 : list sentence) :
  l1 ≡ₚ l2 → sents_shape l1 = sents_shape l2.
Proof. intros Hp. unfold sents_shape. by rewrite Hp. Qed.

Section masking_path_facts.
Context {G : Type} `{RandomState G}.
Variable self : SentsPermAndPredictMaskDataset.

Lemma mask_docs_Ok (docs : list (list sentence)) p max_pred vocab idxs :
  ∀ new_docs docs_selected_indexes docs_masked_sents g
    new_docs' docs_selected_indexes' docs_masked_sents' g',
  Forall (Forall (λ s : list Z, s ≠ [])) docs →
  Forall (λ d, truncate_loop (max_tokens_len self) [] d = d) docs →
  py.for_each
    (λ '(new_docs, docs_selected_indexes, docs_masked_sents) i,
       '(new_doc, selected_indexes, masked_sents) ←
         mask_sentences self i docs p max_pred vocab;
       mret (new_docs ++ [new_doc],
             docs_selected_indexes ++ [selected_indexes],
             docs_masked_sents ++ [masked_sents]))
    (new_docs, docs_selected_indexes, docs_masked_sents) idxs g
  = Ok ((new_docs', docs_selected_indexes', docs_masked_sents'), g') →
  ∃ new,
    new_docs' = new_docs ++ new ∧
    Forall2 (λ i out, ∃ d, docs !! i = Some d ∧ sents_shape out = sents_shape d)
      idxs new ∧
    length docs_selected_indexes'
      = length docs_selected_indexes + length idxs.
Proof.
  induction idxs as [|i idxs IH];
    intros nd ds dm g nd' ds' dm' g' Hne Hfit Hrun; simpl in Hrun.
  - run. simplify_eq. exists []. rewrite app_nil_r. split; [done|].
    split; [constructor|simpl; lia].
  - step_run Hrun. destruct a as [[nd1 ds1] dm1].
    step_run E. destruct a as [[out sel] masked]. run. simplify_eq.
    match goal with
    | Hm : mask_sentences _ _ _ _ _ _ _ = Ok _ |- _ =>
        apply mask_sentences_Ok in Hm
          as (d & shuffled & Hd & Hn & Hsh & Hlens & _); [|done]
    end.
    eapply Forall_lookup_1 in Hfit as Hd_fit; [|exact Hd].
    rewrite Hd_fit, firstn_all in Hsh.
    apply IH in Hrun as (new & -> & Hall & Hlen); [|done..].
    exists (out :: new). rewrite <- app_assoc. split; [done|].
    split.
    + constructor; [|done]. exists d. split; [done|].
      by rewrite (sents_shape_lengths _ _ Hlens), (sents_shape_Permutation _ _ Hsh).
    + rewrite Hlen, length_app. simpl. lia.
Qed.

Lemma Forall2_seq_shapes (docs new : list (list sentence)) :
  Forall2 (λ i out, ∃ d, docs !! i = Some d ∧ sents_shape out = sents_shape d)
    (seq 0 (length docs)) new →
  sents_shape <$> new = sents_shape <$> docs.
Proof.
  intros Hall. apply list_eq. intros i. rewrite !list_lookup_fmap.
  pose proof (Forall2_length _ _ _ Hall) as Hlen. rewrite length_seq in Hlen.
  destruct (decide (i < length docs)) as [Hi|Hi].
  - assert (Hseq : seq 0 (length docs) !! i = Some i) by by apply lookup_seq_lt.
    destruct (Forall2_lookup_l _ _ _ _ _ Hall Hseq) as (out & -> & d & -> & Heq).
    simpl. by rewrite Heq.
  - rewrite !lookup_ge_None_2 by lia. done.
Qed.

(** The sentences that [create_batch] tensorizes have, document by
    document, the size of the documents of the samples. *)
Lemma create_batch_Ok samples vocab max_sent_length g
    src_tokens doc_pad_mask tgt_selected_indexes tgt_input_masked_sents
    tgt_masked_sents segment_ids cpos nsents g' :
  create_batch self samples vocab max_sent_length g
    = Ok ((src_tokens, doc_pad_mask, tgt_selected_indexes,
           tgt_input_masked_sents, tgt_masked_sents, segment_ids, cpos,
           nsents), g') →
  ∃ sep new_docs,
    dict_get sent_sep_dic (bert_model self) = Ok sep ∧
    let docs :=
      omap (sample_doc (index vocab sep) (cls_index vocab) (max_doc_len self)
              (Some (max_sent_length + 1)%Z) (max_tokens_len self)) samples in
    docs ≠ [] ∧
    sents_shape <$> new_docs = sents_shape <$> docs ∧
    doc2tensor self new_docs vocab
      = Ok (src_tokens, doc_pad_mask, segment_ids, cpos, nsents).
Proof.
  unfold create_batch. intros Hrun.
  step_run Hrun. destruct a as [docs cls_poses]. step_run E.
  apply get_docs_Ok in E as (sep & Hsep & Hdocs & Hframed).
  step_run Hrun. destruct a as [[new_docs dsel] dmasked].
  apply mask_docs_Ok in E as (new & Hnew & Hall & Hlen).
  2:{ by eapply framed_docs_nonempty. }
  2:{ subst docs. apply Forall_forall.
      intros t (s & _ & Ht)%list_elem_of_omap. by eapply sample_doc_fits. }
  simpl in Hnew, Hlen. subst new.
  apply Forall2_seq_shapes in Hall.
  step_run Hrun. destruct a as [[[[t1 m1] s1] c1] n1]. step_run E.
  step_run Hrun. destruct a as [[sel tin] tgt]. step_run E0.
  run. simplify_eq.
  exists sep, new_docs. split; [done|]. cbv zeta. split_and!; try done.
  intros Hnil. rewrite Hnil in Hlen. simpl in Hlen.
  destruct dsel; [|done]. unfold masked_sents2tensor in E0. by simpl in E0.
Qed.

End masking_path_facts.

Lemma sample_doc_no_sentences sep_id cls_idx max_sent_length max_tokens_len s :
  sample_doc sep_id cls_idx (Some 0%Z) max_sent_length max_tokens_len s = None.
Proof.
  unfold sample_doc, prepare_sents, py.take. simpl. by destruct max_sent_length.
Qed.

Lemma sample_docs_no_sentences sep_id cls_idx max_sent_length max_tokens_len
    samples :
  omap (sample_doc sep_id cls_idx (Some 0%Z) max_sent_length max_tokens_len)
    samples = [].
Proof.
  destruct (omap _ samples) as [|t l] eqn:Heq; [done|].
  assert (Ht : t ∈ omap (sample_doc sep_id cls_idx (Some 0%Z) max_sent_length
                           max_tokens_len) samples) by (rewrite Heq; left).
  apply list_elem_of_omap in Ht as (s & _ & Hs).
  by rewrite sample_doc_no_sentences in Hs.
Qed.

Lemma if_truthy_same max_doc_length :
  max_doc_length ≠ Some 0%Z → if_truthy max_doc_length = max_doc_length.
Proof.
  destruct max_doc_length as [n|]; [|done]. simpl.
  destruct (Z.eqb_spec n 0); [by intros []; f_equal|done].
Qed.

Lemma check_views_Ok m m' (s s' : tensor2 Z) (n n' : list nat) :
  check_views m m' s s' n n' =
  if decide (m = m' ∧ s = s' ∧ n = n') then Ok tt else Raise AssertionError.
Proof.
  unfold check_views, torch.equal.
  repeat case_bool_decide; case_decide; simpl; try done; naive_solver.
Qed.

(** C1.  Whatever the generator gives to either path, when the permutation
    path ([create_src_tok_batch]) and the masking path ([create_batch]) both
    return on the samples of a batch, called as [collate] calls them with the
    dataset's own [max_doc_len] (what [collater] passes), their
    document-padding masks, segment-id tensors and sentence-count lists are
    equal, so that the three assertions of [collate] pass.  And whenever the
    two views that [collate] computes differ in one of the three, [collate]
    raises [AssertionError] (after the tensor of sample ids is built, which
    raises [RuntimeError] first when an id is not an int64). *)
Theorem cross_view_consistency {G : Type} `{RandomState G}
    (self : SentsPermAndPredictMaskDataset) (samples : list sample)
    (vocab tgt_dict : Dictionary) (is_poniter_net : bool)
    (max_doc_length : option Z) (g1 g1' g2 g2' : G)
    (src_tokens : tensor2 Z) (doc_pad_mask : tensor2 bool)
    (segment_ids : tensor2 Z) (cpos : tensor2 nat) (nsents : list nat)
    (tgt_orders : list (list nat))
    (src_tokens_with_mask : tensor2 Z) (doc_pad_mask_2 : tensor2 bool)
    (tgt_selected_indexes : tensor2 nat)
    (tgt_input_masked_sents tgt_masked_sents : tensor3 Z)
    (segment_ids_2 : tensor2 Z) (cpos_mask : tensor2 nat) (nsents_2 : list nat) :
  create_src_tok_batch samples vocab (fix_ratio self) max_doc_length
    (Some (max_sent_len self + 1)%Z) (max_tokens_len self) (bert_model self) g1
    = Ok ((src_tokens, doc_pad_mask, segment_ids, cpos, nsents, tgt_orders), g1') →
  create_batch self samples vocab (max_sent_len self) g2
    = Ok ((src_tokens_with_mask, doc_pad_mask_2, tgt_selected_indexes,
           tgt_input_masked_sents, tgt_masked_sents, segment_ids_2, cpos_mask,
           nsents_2), g2') →
  (max_doc_length = max_doc_len self →
   (doc_pad_mask = doc_pad_mask_2 ∧ segment_ids = segment_ids_2 ∧
    nsents = nsents_2) ∧
   check_views doc_pad_mask doc_pad_mask_2 segment_ids segment_ids_2
     nsents nsents_2 = Ok tt) ∧
  (g2 = g1' →
   doc_pad_mask ≠ doc_pad_mask_2 ∨ segment_ids ≠ segment_ids_2 ∨
     nsents ≠ nsents_2 →
   collate self samples vocab tgt_dict is_poniter_net max_doc_length g1
     = Raise (if forallb torch.fits_long (id <$> samples)
              then AssertionError else RuntimeError)).
Proof.
  intros Hperm Hmask. split.
  - intros ->.
    assert (Heq : doc_pad_mask = doc_pad_mask_2 ∧ segment_ids = segment_ids_2 ∧
                  nsents = nsents_2).
    { apply create_batch_Ok in Hmask
        as (sep & new_docs & Hsep & Hne & Hshape & Hten).
      unfold create_src_tok_batch in Hperm.
      step_run Hperm. step_run E. rewrite Hsep in E. injection E as <-.
      step_run Hperm. clear E a.
      step_run Hperm. destruct a as [docs orders].
      apply src_tok_docs_Ok in E as (new & Hdocs & Hall). simpl in Hdocs.
      subst new.
      step_run Hperm. destruct a as [[[[t1 m1] s1] c1] n1]. step_run E.
      run. simplify_eq.
      assert (Htruthy : if_truthy (max_doc_len self) = max_doc_len self).
      { apply if_truthy_same. intros Hzero. apply Hne. rewrite Hzero.
        apply sample_docs_no_sentences. }
      rewrite Htruthy in Hall.
      rewrite doc2tensor_docs2tensor in Hten.
      eapply docs2tensor_shape; [|exact E|exact Hten].
      rewrite <- list_fmap_compose.
      rewrite (list_fmap_ext (doc_shape ∘ flatten_doc) sents_shape new_docs)
        by (intros; apply flatten_doc_shape).
      rewrite Hshape. clear -Hall.
      induction Hall as [|d t docs ts (sh & Hsh & ->) _ IH]; simpl; [done|].
      f_equal; [|done].
      rewrite <- (sents_shape_Permutation _ _ Hsh).
      unfold doc_shape, sents_shape. simpl.
      by rewrite starts_from_length, sum_len_concat. }
    split; [done|]. rewrite check_views_Ok. by rewrite decide_True.
  - intros -> Hdiff. unfold collate.
    assert (Hsamples : length samples ≠ 0).
    { pose proof Hmask as Hdocs.
      apply create_batch_Ok in Hdocs as (sep & new_docs & _ & Hne & _).
      intros Hnil. apply Hne. by destruct samples. }
    rewrite decide_False by done. unfold torch.LongTensor.
    destruct (forallb torch.fits_long (id <$> samples)); [|done].
    rewrite (lift_run _ _ _ _ eq_refl).
    rewrite (bind_run _ _ _ _ _ Hperm). cbv beta iota.
    rewrite (bind_run _ _ _ _ _ Hmask). cbv beta iota.
    apply lift_raise. rewrite check_views_Ok.
    rewrite decide_False; [done|]. naive_solver.
Qed.

(** ** Loops that write a grid cell by cell *)

Section grid_loop.
Context {St X R : Type}.
Variable cell : St → nat → nat → R.
Variable step : nat → St → nat * X → result St.
Variable written : X → R → R → Prop.

Hypothesis step_spec : ∀ i s j x s',
  step i s (j, x) = Ok s' →
  ∃ r', written x (cell s i j) r' ∧
        ∀ i' j', cell s' i' j' = if decide (i' = i ∧ j' = j) then r' else cell s i' j'.

Lemma row_loop_Ok i xs : ∀ k s s',
  py.for_each (step i) s (zip (seq k (length xs)) xs) = Ok s' →
  (∀ i' j', ¬ (i' = i ∧ k ≤ j' < k + length xs) → cell s' i' j' = cell s i' j') ∧
  (∀ p x, xs !! p = Some x → written x (cell s i (k + p)) (cell s' i (k + p))).
Proof.
  induction xs as [|x xs IH]; intros k s s' Hrun; simpl in Hrun.
  - run. subst. split; [done|]. by intros [|?] ?.
  - step_run Hrun. apply step_spec in E as (r' & Hw & Hcell).
    apply IH in Hrun as [Hout Hin]. split.
    + intros i' j' Hij. rewrite Hout by (simpl in Hij; lia).
      rewrite Hcell. rewrite decide_False; [done|]. simpl in Hij. lia.
    + intros [|p] x' Hp; simpl in Hp.
      * injection Hp as <-. rewrite Nat.add_0_r.
        rewrite Hout by lia. rewrite Hcell, decide_True by done. done.
      * specialize (Hin _ _ Hp). rewrite Hcell in Hin.
        rewrite decide_False in Hin by lia.
        by replace (k + S p) with (S k + p) by lia.
Qed.

Lemma grid_loop_Ok xss : ∀ k s s',
  py.for_each (λ s '(i, xs), py.for_each (step i) s (py.enumerate xs)) s
    (zip (seq k (length xss)) xss) = Ok s' →
  (∀ i' j', ¬ (∃ q xs, xss !! q = Some xs ∧ i' = k + q ∧ j' < length xs) →
            cell s' i' j' = cell s i' j') ∧
  (∀ q xs p x, xss !! q = Some xs → xs !! p = Some x →
               written x (cell s (k + q) p) (cell s' (k + q) p)).
Proof.
  induction xss as [|xs xss IH]; intros k s s' Hrun; simpl in Hrun.
  - run. subst. split; [done|]. by intros [|?] ?.
  - step_run Hrun. apply row_loop_Ok in E as [Hout1 Hin1].
    apply IH in Hrun as [Hout Hin]. split.
    + intros i' j' Hij. rewrite Hout, Hout1; [done|..].
      * intros [-> Hj]. apply Hij. exists 0, xs. simpl. split_and!; [done|lia..].
      * intros (q & xs' & Hq & -> & Hj). apply Hij. exists (S q), xs'.
        simpl. split_and!; [done|lia..].
    + intros [|q] xs' p x Hq Hp; simpl in Hq.
      * injection Hq as <-. rewrite Nat.add_0_r.
        specialize (Hin1 _ _ Hp). simpl in Hin1.
        rewrite Hout; [done|]. intros (q & ? & _ & ? & _). lia.
      * specialize (Hin _ _ _ _ Hq Hp).
        replace (k + S q) with (S k + q) by lia.
        rewrite Hout1 in Hin; [done|]. lia.
Qed.

End grid_loop.

(** ** Tensors of the masked sentences *)

Lemma entry3_insert {A} (sz sz' : list nat) (d : list (list (list A)))
    plane row i j i' j' :
  d !! i = Some plane →
  j < length plane →
  entry3 (torch.Tensor sz (<[i:=<[j:=row]> plane]> d)) i' j'
  = if decide (i' = i ∧ j' = j) then Some row else entry3 (torch.Tensor sz' d) i' j'.
Proof.
  intros Hplane Hj. unfold entry3. simpl.
  pose proof (lookup_lt_Some _ _ _ Hplane) as Hi.
  destruct (decide (i' = i)) as [->|Hne].
  - rewrite list_lookup_insert_eq by done. simpl. rewrite Hplane. simpl.
    destruct (decide (j' = j)) as [->|Hnej].
    + rewrite list_lookup_insert_eq by done. by rewrite decide_True.
    + rewrite list_lookup_insert_ne by done. rewrite decide_False; [done|].
      naive_solver.
  - rewrite list_lookup_insert_ne by done. rewrite decide_False; [done|].
    naive_solver.
Qed.

Lemma set_row_slice3_Ok {A} (t t' : tensor3 A) i j start stop vals :
  torch.set_row_slice3 t i j start stop vals = Ok t' →
  ∃ row row',
    entry3 t i j = Some row ∧
    torch.set_slice row start stop vals = Ok row' ∧
    ∀ i' j', entry3 t' i' j'
             = if decide (i' = i ∧ j' = j) then Some row' else entry3 t i' j'.
Proof.
  unfold torch.set_row_slice3. intros Hrun. run. subst.
  exists a0, a1. split; [|split; [done|]].
  - unfold entry3. by rewrite E; simpl.
  - intros i' j'. destruct t as [sz d]. simpl in *.
    apply entry3_insert; [done|]. by eapply lookup_lt_Some.
Qed.

Lemma LongTensor_Ok (l l' : list Z) :
  torch.LongTensor l = Ok l' → l' = l ∧ forallb torch.fits_long l = true.
Proof. unfold torch.LongTensor. by case_match; intros [= <-]. Qed.

Lemma masked_sent2rows_Ok self i (acc : tensor3 Z * tensor3 Z) j sent
    (acc' : tensor3 Z * tensor3 Z) :
  masked_sent2rows self i acc (j, sent) = Ok acc' →
  ∃ r',
    rows_written (cls_index (src_dict self)) (sent_sep_idx self) sent
      (entry3 acc.1 i j, entry3 acc.2 i j) r' ∧
    ∀ i' j', (entry3 acc'.1 i' j', entry3 acc'.2 i' j')
             = if decide (i' = i ∧ j' = j) then r'
               else (entry3 acc.1 i' j', entry3 acc.2 i' j').
Proof.
  destruct acc as [tin tgt]. unfold masked_sent2rows. intros Hrun.
  step_run Hrun. step_run E. step_run Hrun. step_run E0.
  step_run Hrun. step_run E1. step_run Hrun. step_run E2.
  step_run Hrun. apply LongTensor_Ok in E3 as [-> _].
  step_run Hrun. rename E3 into Ein.
  step_run Hrun. apply LongTensor_Ok in E3 as [-> _].
  step_run Hrun. rename E3 into Etgt. step_run Hrun. subst acc'.
  apply Z.eqb_eq in E0, E2. subst.
  apply set_row_slice3_Ok in Ein as (row_in & row_in' & Hin & Hset_in & Hcell_in).
  apply set_row_slice3_Ok in Etgt as (row_t & row_t' & Ht & Hset_t & Hcell_t).
  exists (Some row_in', Some row_t'). split.
  - exists row_in, row_t, row_in', row_t'. simpl. rewrite Hin, Ht.
    split_and!; try done. by rewrite head_lookup.
  - intros i' j'. simpl. rewrite Hcell_in, Hcell_t. by case_decide.
Qed.

Lemma foldr_max_bound (l : list nat) : Forall (λ n, n ≤ foldr Nat.max 0 l) l.
Proof.
  induction l as [|k l IH]; simpl; constructor; [lia|].
  eapply Forall_impl; [exact IH|]. simpl. lia.
Qed.

Lemma max_list_Ok l m : py.max_list l = Ok m → Forall (λ n, n ≤ m) l.
Proof.
  destruct l as [|n l]; [done|]. intros [= <-].
  apply (foldr_max_bound (n :: l)).
Qed.

Lemma max_sent_len_loop (docs_masked_sents : list (list sentence)) :
  ∀ a b a' b',
  py.for_each
    (λ '(max_nsent2, max_sent_len) masked_sents,
       let max_nsent2 := max_nsent2 `max` length masked_sents in
       local_max_sent_len ← py.max_list (length <$> masked_sents);
       mret (max_nsent2, max_sent_len `max` local_max_sent_len))
    (a, b) docs_masked_sents = Ok (a', b') →
  b ≤ b' ∧
  Forall (Forall (λ s : list Z, length s ≤ b')) docs_masked_sents.
Proof.
  induction docs_masked_sents as [|ms dms IH]; intros a b a' b' Hrun;
    simpl in Hrun.
  - run. simplify_eq. by split.
  - step_run Hrun. step_run E. step_run E. simplify_eq.
    apply IH in Hrun as [Hb Hall]. apply max_list_Ok in E0.
    split; [lia|]. constructor; [|done].
    apply Forall_fmap in E0. eapply Forall_impl; [exact E0|].
    simpl. lia.
Qed.

Lemma entry3_full3 {A} (b r c : nat) (v : A) (f : list A → list A) sz i j row :
  entry3 (torch.Tensor sz (map (map f) (replicate b (replicate r (replicate c v)))))
    i j = Some row →
  row = f (replicate c v).
Proof.
  unfold entry3. simpl. intros Hrow.
  destruct (map _ _ !! i) as [plane|] eqn:Hi; [|done]. simpl in Hrow.
  change (map (map f)) with (fmap (M:=list) (fmap (M:=list) f)) in Hi.
  rewrite list_lookup_fmap in Hi.
  destruct (replicate b _ !! i) as [plane0|] eqn:Hi0; [|done].
  apply lookup_replicate in Hi0 as [-> _]. simpl in Hi. injection Hi as <-.
  rewrite list_lookup_fmap in Hrow.
  destruct (replicate r _ !! j) as [row0|] eqn:Hj0; [|done].
  apply lookup_replicate in Hj0 as [-> _]. by injection Hrow as <-.
Qed.

Lemma py_take_removelast {A} (l : list A) : py.take (-1) l = removelast l.
Proof.
  unfold py.take. simpl. rewrite removelast_firstn_len. f_equal. lia.
Qed.

Lemma entry3_full3_plain {A} (b r c : nat) (v : A) i j row :
  entry3 (torch.full3 b r c v) i j = Some row → row = replicate c v.
Proof.
  unfold entry3, torch.full3. simpl. intros Hrow.
  destruct (replicate b _ !! i) as [plane|] eqn:Hi; [|done]. simpl in Hrow.
  apply lookup_replicate in Hi as [-> _].
  by apply lookup_replicate in Hrow as [-> _].
Qed.

Lemma set_slice_target_row (pad_idx : Z) (width : nat) (t row' : list Z) :
  length t ≤ width →
  torch.set_slice (replicate width pad_idx) 0 (length t) t = Ok row' →
  row' = t ++ replicate (width - length t) pad_idx.
Proof. intros Hle. rewrite set_slice_prefix by done. by intros [= <-]. Qed.

Lemma set_slice_input_row (cls pad_idx : Z) (width : nat) (t row' : list Z) :
  1 ≤ length t < width →
  torch.set_slice (<[0:=cls]> (replicate width pad_idx)) 1 (length t)
    (removelast t) = Ok row' →
  row' = cls :: removelast t ++ replicate (width - length t) pad_idx.
Proof.
  intros Hlen. destruct width as [|w]; [lia|]. simpl.
  unfold torch.set_slice, torch.clamp_slice. simpl length.
  rewrite length_replicate.
  replace (1 `min` (length t `min` S w)) with 1 by lia.
  replace (length t `min` S w - 1) with (length t - 1) by lia.
  assert (Hrl : length (removelast t) = length t - 1).
  { rewrite removelast_firstn_len, length_take. lia. }
  rewrite decide_True by done. intros [= <-]. simpl.
  replace (1 + (length t - 1)) with (S (length t - 1)) by lia. simpl.
  rewrite drop_replicate. do 3 f_equal. lia.
Qed.

(** C6 (amended).  Masked-target tensorization gives every target sentence
    a row in each tensor, of a common [width] that no sentence exceeds.
    With [target_sent] the original sentence without its leading class
    token: the row of the target tensor is [target_sent], still closed by
    the separator, followed by pad ids; the row of the teacher-forcing input
    tensor is [target_sent] shifted right by one, with the class token in
    front and the trailing separator dropped, followed by pad ids.  A row
    that belongs to no target sentence is all pad ids in the target tensor,
    and the class token followed by pad ids in the input tensor. *)
Theorem masked_sents2tensor_rows (self : SentsPermAndPredictMaskDataset)
    (docs_selected_indexes : list (list nat))
    (docs_masked_sents : list (list (list Z)))
    (tgt_selected_indexes : tensor2 nat)
    (tgt_input_masked_sents tgt_masked_sents : tensor3 Z) :
  masked_sents2tensor self docs_selected_indexes docs_masked_sents
    = Ok (tgt_selected_indexes, tgt_input_masked_sents, tgt_masked_sents) →
  let cls := cls_index (src_dict self) in
  let sep := sent_sep_idx self in
  let pad_idx := pad (src_dict self) in
  ∃ width,
    (∀ i masked_sents j sent,
       docs_masked_sents !! i = Some masked_sents →
       masked_sents !! j = Some sent →
       let target_sent := drop 1 sent in
       head sent = Some cls ∧
       last target_sent = Some sep ∧
       length sent ≤ width ∧
       entry3 tgt_masked_sents i j
         = Some (target_sent ++ replicate (width - length target_sent) pad_idx) ∧
       entry3 tgt_input_masked_sents i j
         = Some (cls :: removelast target_sent
                   ++ replicate (width - length target_sent) pad_idx)) ∧
    (∀ i j row,
       (∀ masked_sents,
          docs_masked_sents !! i = Some masked_sents → length masked_sents ≤ j) →
       (entry3 tgt_masked_sents i j = Some row → row = replicate width pad_idx) ∧
       (entry3 tgt_input_masked_sents i j = Some row →
        row = <[0:=cls]> (replicate width pad_idx))).
Proof.
  intros Hrun. cbv zeta. unfold masked_sents2tensor in Hrun.
  step_run Hrun. clear E. step_run Hrun. clear E.
  step_run Hrun. destruct a1 as [max_nsent2 width].
  apply max_sent_len_loop in E as [_ Hwidth].
  step_run Hrun. clear E. step_run Hrun.
  step_run Hrun. destruct a3 as [tin tgt]. run. simplify_eq.
  unfold torch.fill_column3 in E. simpl in E. case_decide as Hw; [|done].
  injection E as <-.
  apply (grid_loop_Ok
           (λ acc : tensor3 Z * tensor3 Z, λ i j,
              (entry3 acc.1 i j, entry3 acc.2 i j))
           (masked_sent2rows self)
           (rows_written (cls_index (src_dict self)) (sent_sep_idx self))
           (masked_sent2rows_Ok self) docs_masked_sents 0) in E0
    as [Hout Hin].
  simpl in Hout, Hin.
  set (cls := cls_index (src_dict self)) in *.
  set (pad_idx := pad (src_dict self)) in *.
  exists width. split.
  - intros i masked_sents j sent Hi Hj. set (target_sent := drop 1 sent).
    destruct (Hin _ _ _ _ Hi Hj)
      as (row_in & row_t & row_in' & row_t' & Hold & Hnew & Hhead & Hlast
          & Hset_in & Hset_t).
    injection Hold as Hold_in Hold_t. injection Hnew as -> ->.
    apply entry3_full3 in Hold_in. apply entry3_full3_plain in Hold_t.
    subst row_in row_t. fold target_sent in Hlast, Hset_in, Hset_t.
    assert (Hlen : length sent ≤ width).
    { eapply Forall_lookup_1 in Hwidth; [|exact Hi].
      by eapply Forall_lookup_1 in Hwidth. }
    assert (Ht : length target_sent = length sent - 1)
      by (unfold target_sent; by rewrite length_drop).
    assert (1 ≤ length target_sent).
    { destruct target_sent; [done|simpl; lia]. }
    rewrite py_take_removelast in Hset_in.
    apply set_slice_target_row in Hset_t; [|lia].
    apply set_slice_input_row in Hset_in; [|lia].
    subst. done.
  - intros i j row Hfiller.
    assert (Hcell :
      (entry3 tgt_input_masked_sents i j, entry3 tgt_masked_sents i j)
      = (entry3 (torch.Tensor [length docs_selected_indexes; a; width]
                   (map (map (λ row, <[0:=cls]> row))
                      (replicate (length docs_selected_indexes)
                         (replicate a (replicate width pad_idx))))) i j,
         entry3 (torch.full3 (length docs_selected_indexes) a width pad_idx) i j)).
    { apply Hout. intros (q & ms & Hq & -> & Hj).
      specialize (Hfiller _ Hq). lia. }
    injection Hcell as -> ->. split.
    + apply entry3_full3_plain.
    + intros Hrow. by apply entry3_full3 in Hrow.
Qed.

(** ** Construction and the empty batch *)

(** What [__init__] checks: the separator id against the unknown-token id,
    and nothing about the mask id. *)
Lemma init_Ok (o : options) sep :
  dict_get sent_sep_dic (bert_model o) = Ok sep →
  init o =
  if (index (src_dict o) sep =? unk_index (src_dict o))%Z
  then Raise AssertionError
  else Ok {| opts := o;
             min_predictions_per_doc := 1;
             sent_sep_idx := index (src_dict o) sep;
             sent_mask_idx := index (src_dict o) SENT_MASK |}.
Proof. intros Hsep. unfold init. rewrite Hsep. simpl. by case_match. Qed.

(** C8.  On a vocabulary that has the separator but not the sentence-mask
    symbol, the mask id is the unknown-token id and construction succeeds all
    the same: only the separator id is asserted. *)
Theorem init_unchecked_mask :
  index (src_dict maskless_options) SENT_MASK
    = unk_index (src_dict maskless_options) ∧
  ∃ self,
    init maskless_options = Ok self ∧
    sent_mask_idx self = unk_index (src_dict maskless_options).
Proof. split; [reflexivity|]. eexists. split; reflexivity. Qed.

(** C10.  On the empty list of samples [collate], and [collater] through
    it, returns the empty dictionary: no exception, no tensor, and the
    generator in the state it was given. *)
Theorem collate_empty {G : Type} `{RandomState G}
    (self : SentsPermAndPredictMaskDataset) (src_dict tgt_dict : Dictionary)
    (is_poniter_net : bool) (max_doc_len : option Z) (g : G) :
  collate self [] src_dict tgt_dict is_poniter_net max_doc_len g = Ok ([], g) ∧
  collater self [] g = Ok ([], g).
Proof. split; reflexivity. Qed.

(** ** The theorems at work on the small batch *)

Lemma demo_docs_framed : framed_docs 0%Z 2%Z demo_docs.
Proof.
  repeat constructor;
    (apply classed_framed;
     [eexists; split; [|reflexivity]; discriminate|reflexivity]).
Qed.

Lemma split_list_sentences_witness :
  split_list [5; 6; 2; 7; 2; 2; 8]%Z 2%Z = [[5; 6; 2]; [7; 2]; [2]; [8]]%Z.
Proof.
  destruct (split_list_sentences [5; 6; 2; 7; 2; 2; 8]%Z 2%Z) as (_ & _ & _ & Hrun).
  apply (Hrun [[5; 6; 2]; [7; 2]; [2]]%Z [8]%Z).
  - reflexivity.
  - repeat constructor.
    + exists [5; 6]%Z. split; [reflexivity|]. compute_done.
    + exists [7]%Z. split; [reflexivity|]. compute_done.
    + exists []. split; [reflexivity|]. compute_done.
  - compute_done.
Defined.

Lemma fixed_window_start_below_witness :
  fixed_window (1 # 2) 4 [5]%Z = Ok ((1, 2%Z), []) ∧ (1 < 4 - 2)%Z.
Proof.
  split; [reflexivity|].
  by destruct (@fixed_window_start_below (list Z) tape_random_state (1 # 2) 4 [5]%Z [] 1 2%Z ltac:(vm_compute; reflexivity))
    as (_ & Hlt & _).
Defined.

Lemma shuffle_sents_target_order_witness :
  ∃ shuffled target_order g',
    shuffle_sents (1 # 2) 100 [[0; 5; 6; 2]; [0; 7; 2]; [0; 8; 9; 10; 2]; [0; 3; 2]]%Z
      [1; 1; 0; 7]%Z = Ok ((shuffled, target_order), g') ∧
    target_order ≡ₚ seq 0 4.
Proof.
  destruct (@shuffle_sents_target_order (list Z) tape_random_state (1 # 2) 100
       [[0; 5; 6; 2]; [0; 7; 2]; [0; 8; 9; 10; 2]; [0; 3; 2]]%Z
       [1; 1; 0; 7]%Z) as [Hok Hreturns].
  destruct Hreturns as (shuffled & target_order & g' & Hrun).
  - discriminate.
  - reflexivity.
  - vm_compute. lia.
  - exists shuffled, target_order, g'. split; [exact Hrun|].
    by destruct (Hok _ _ _ Hrun) as [Hperm _].
Defined.

Lemma mask_sentences_selected_witness :
  ∃ output_doc selected masked_sents g',
    mask_sentences demo_dataset 0 demo_docs (7 # 16) 5 demo_dict demo_tape
      = Ok ((output_doc, selected, masked_sents), g') ∧
    scaled_len 4 (7 # 16) = Ok 1%Z ∧
    length selected = 1 ∧ increasing selected.
Proof.
  eassert (Hrun : mask_sentences demo_dataset 0 demo_docs (7 # 16) 5 demo_dict
                    demo_tape = Ok ((_, _, _), _))
    by (vm_compute; reflexivity).
  eexists _, _, _, _. split; [exact Hrun|].
  destruct (@mask_sentences_selected (list Z) tape_random_state demo_dataset 0
              demo_docs _ (7 # 16) 5 demo_dict demo_tape _ _ _ _
              ltac:(vm_compute; reflexivity) Hrun)
    as (scaled & Hscaled & _ & Hlen & _ & _ & _ & Hinc & _).
  assert (scaled = 1%Z) as ->
    by (vm_compute in Hscaled; by injection Hscaled as <-).
  split; [exact Hscaled|]. split; [exact Hlen|exact Hinc].
Defined.

(** The product is the product of doubles: [10 * 0.7] is [7.0] although the
    double [0.7] is below [7/10], and [100 * 0.29] is below [29]. *)
Example scaled_len_doubles :
  scaled_len 10 (7 # 10) = Ok 7%Z ∧ scaled_len 100 (29 # 100) = Ok 28%Z.
Proof. split; vm_compute; reflexivity. Qed.

(** C3, as stated, fails: on the first demo document, four sentences at
    probability 7/16, rounding 1.75 gives 2 where [mask_sentences] selects
    a single position. *)
Lemma mask_sentences_not_rounded :
  ∃ output_doc selected masked_sents g',
    mask_sentences demo_dataset 0 demo_docs (7 # 16) 5 demo_dict demo_tape
      = Ok ((output_doc, selected, masked_sents), g') ∧
    spec_num_pred demo_dataset 4 (7 # 16) 5 = 2%Z ∧
    Z.of_nat (length selected) ≠ spec_num_pred demo_dataset 4 (7 # 16) 5.
Proof.
  eexists _, _, _, _. split; [vm_compute; reflexivity|].
  split; [reflexivity|]. vm_compute. discriminate.
Qed.

Lemma mask_sentences_corrupted_witness :
  ∃ output_doc selected masked_sents g',
    mask_sentences demo_dataset 0 demo_docs (7 # 16) 5 demo_dict demo_tape
      = Ok ((output_doc, selected, masked_sents), g') ∧
    ∀ i, i ∈ selected →
      ∃ s orig,
        [[0; 10; 11; 2]; [0; 12; 13; 14; 2]; [0; 15; 2]; [0; 16; 17; 2]]%Z !! i
          = Some orig ∧
        output_doc !! i = Some s ∧
        length s = length orig ∧
        head s = Some 0%Z ∧
        last s = Some 2%Z.
Proof.
  eexists _, _, _, _. split; [vm_compute; reflexivity|].
  exact (@mask_sentences_corrupted (list Z) tape_random_state demo_dataset 0 demo_docs _ (7 # 16) 5
           demo_dict demo_tape _ _ _ _ demo_docs_framed ltac:(vm_compute; reflexivity) ltac:(vm_compute; reflexivity)).
Defined.

Lemma create_src_tok_batch_cls_pos_witness :
  ∃ src_tokens doc_pad_mask segment_ids cpos nsents target_orders g',
    create_src_tok_batch demo_samples demo_dict 0 (Some 30%Z) (Some 11%Z) 100
      "roberta-base" demo_tape
      = Ok ((src_tokens, doc_pad_mask, segment_ids, cpos, nsents, target_orders), g') ∧
    length (torch.data src_tokens)
    = length (omap (sample_doc 2 0 (if_truthy (Some 30%Z)) (Some 11%Z) 100)
                demo_samples) ∧
    length (torch.data cpos) = length (torch.data src_tokens).
Proof.
  eassert (Hrun : create_src_tok_batch demo_samples demo_dict 0 (Some 30%Z)
                    (Some 11%Z) 100 "roberta-base" demo_tape
                  = Ok ((_, _, _, _, _, _), _))
    by (vm_compute; reflexivity).
  eexists _, _, _, _, _, _, _. split; [exact Hrun|].
  destruct (@create_src_tok_batch_cls_pos (list Z) tape_random_state
              demo_samples demo_dict 0 (Some 30%Z) (Some 11%Z) 100
              "roberta-base" demo_tape _ _ _ _ _ _ _ Hrun)
    as (sep & docs & Hsep & Hlen & _ & _ & Hrows & Hcpos & _).
  assert (sep = "</s>"%string) as ->
    by (vm_compute in Hsep; by injection Hsep as <-).
  split; [exact (eq_trans Hrows Hlen)|exact (eq_trans Hcpos (eq_sym Hrows))].
Defined.

Lemma masked_sents2tensor_rows_witness :
  ∃ tgt_selected_indexes tgt_input_masked_sents tgt_masked_sents width,
    masked_sents2tensor demo_dataset [[2]; [0]]
      [[[0; 15; 2]]; [[0; 20; 21; 22; 2]]]%Z
      = Ok (tgt_selected_indexes, tgt_input_masked_sents, tgt_masked_sents) ∧
    entry3 tgt_masked_sents 0 0 = Some ([15; 2]%Z ++ replicate (width - 2) 1%Z) ∧
    entry3 tgt_input_masked_sents 0 0
      = Some (0%Z :: [15]%Z ++ replicate (width - 2) 1%Z).
Proof.
  eexists _, _, _.
  destruct (masked_sents2tensor_rows demo_dataset [[2]; [0]]
              [[[0; 15; 2]]; [[0; 20; 21; 22; 2]]]%Z _ _ _ ltac:(vm_compute; reflexivity))
    as (width & Hrows & _).
  exists width. split; [reflexivity|].
  destruct (Hrows 0 _ 0 _ ltac:(vm_compute; reflexivity) ltac:(vm_compute; reflexivity)) as (_ & _ & _ & Htgt & Hin).
  split; [exact Htgt|exact Hin].
Defined.

(** C6, as stated, fails: for the original sentence [[0; 15; 2]] (class
    token, one word, separator) the row of the target tensor is
    [[15; 2; 1; 1; 1]], which is not the original full sentence followed by pad
    ids: the class token is gone. *)
Lemma masked_target_row_drops_class :
  ∃ tgt_selected_indexes tgt_input_masked_sents tgt_masked_sents,
    masked_sents2tensor demo_dataset [[2]; [0]]
      [[[0; 15; 2]]; [[0; 20; 21; 22; 2]]]%Z
      = Ok (tgt_selected_indexes, tgt_input_masked_sents, tgt_masked_sents) ∧
    entry3 tgt_masked_sents 0 0 = Some [15; 2; 1; 1; 1]%Z ∧
    ¬ spec_target_row (pad demo_dict) [0; 15; 2]%Z [15; 2; 1; 1; 1]%Z.
Proof.
  eexists _, _, _. split; [vm_compute; reflexivity|].
  split; [vm_compute; reflexivity|].
  intros [n Hn]; simpl in Hn; discriminate.
Qed.

Lemma cross_view_consistency_witness :
  (∃ src_tokens doc_pad_mask segment_ids cpos nsents tgt_orders g1'
     src_tokens_with_mask doc_pad_mask_2 tgt_selected_indexes
     tgt_input_masked_sents tgt_masked_sents segment_ids_2 cpos_mask nsents_2 g2',
     create_src_tok_batch demo_samples demo_dict 0 (Some 30%Z) (Some 11%Z) 100
       "roberta-base" demo_tape
       = Ok ((src_tokens, doc_pad_mask, segment_ids, cpos, nsents, tgt_orders), g1') ∧
     create_batch demo_dataset demo_samples demo_dict 10 demo_tape
       = Ok ((src_tokens_with_mask, doc_pad_mask_2, tgt_selected_indexes,
              tgt_input_masked_sents, tgt_masked_sents, segment_ids_2, cpos_mask,
              nsents_2), g2') ∧
     doc_pad_mask = doc_pad_mask_2 ∧ segment_ids = segment_ids_2 ∧
     nsents = nsents_2) ∧
  collate demo_dataset demo_samples demo_dict demo_dict true (Some 1%Z) demo_tape
    = Raise AssertionError.
Proof.
  split.
  - eexists _, _, _, _, _, _, _, _, _, _, _, _, _, _, _, _.
    split; [vm_compute; reflexivity|]. split; [vm_compute; reflexivity|].
    destruct (@cross_view_consistency (list Z) tape_random_state demo_dataset
                demo_samples demo_dict demo_dict true (Some 30%Z)
                demo_tape _ demo_tape _ _ _ _ _ _ _ _ _ _ _ _ _ _ _
                ltac:(vm_compute; reflexivity) ltac:(vm_compute; reflexivity))
      as [Heq _].
    exact (proj1 (Heq eq_refl)).
  - eassert (Hperm : create_src_tok_batch demo_samples demo_dict 0 (Some 1%Z)
                       (Some 11%Z) 100 "roberta-base" demo_tape
                     = Ok ((_, _, _, _, _, _), _))
      by (vm_compute; reflexivity).
    eassert (Hmask : create_batch demo_dataset demo_samples demo_dict 10 demo_tape
                     = Ok ((_, _, _, _, _, _, _, _), _))
      by (vm_compute; reflexivity).
    destruct (@cross_view_consistency (list Z) tape_random_state demo_dataset
                demo_samples demo_dict demo_dict true (Some 1%Z)
                _ _ _ _ _ _ _ _ _ _ _ _ _ _ _ _ _ _ Hperm Hmask)
      as [_ Hraise].
    apply Hraise; [reflexivity|]. right. right. discriminate.
Defined.

(** * Further properties *)

(** ** The documents of [get_docs] *)

Lemma get_docs_loop_cls_pos sep_id max_tokens_len sents :
  ∀ truncate_doc cls_pos acc kept cls_pos',
  length truncate_doc = py.sum_len acc →
  get_docs_loop sep_id max_tokens_len truncate_doc cls_pos acc sents
    = Ok (kept, cls_pos') →
  ∃ new, kept = acc ++ new ∧
         cls_pos' = cls_pos ++ starts_from (length truncate_doc) new.
Proof.
  induction sents as [|s sents IH];
    intros doc cls_pos acc kept cls_pos' Hlen Hrun; simpl in Hrun.
  - simplify_eq. exists []. by rewrite !app_nil_r.
  - run. case_match.
    + apply IH in Hrun as (new & -> & ->);
        [|by rewrite length_app, sum_len_app; simpl; lia].
      exists (s :: new). rewrite <- !app_assoc. simpl.
      by rewrite length_app.
    + simplify_eq. exists []. by rewrite !app_nil_r.
Qed.

Lemma get_doc_cls_pos sep_id cls_idx max_sent_length max_doc_length max_tokens_len
    docs cls_poses s docs' cls_poses' :
  cls_poses = starts_from 0 <$> docs →
  get_doc sep_id cls_idx max_sent_length max_doc_length max_tokens_len
    (docs, cls_poses) s = Ok (docs', cls_poses') →
  cls_poses' = starts_from 0 <$> docs'.
Proof.
  unfold get_doc. intros -> Hrun.
  destruct (_ <$> _) as [|s0 sents0]; [by simplify_eq|].
  run. simplify_eq.
  apply get_docs_loop_cls_pos in E0 as (new & -> & ->); [|done].
  by rewrite fmap_app.
Qed.

Lemma get_docs_for_each_cls_pos sep_id cls_idx max_sent_length max_doc_length
    max_tokens_len samples :
  ∀ (docs : list (list sentence)) (cls_poses : list (list nat))
    (docs' : list (list sentence)) (cls_poses' : list (list nat)),
  cls_poses = starts_from 0 <$> docs →
  py.for_each
    (get_doc sep_id cls_idx max_sent_length max_doc_length max_tokens_len)
    (docs, cls_poses) samples = Ok (docs', cls_poses') →
  cls_poses' = starts_from 0 <$> docs'.
Proof.
  induction samples as [|s samples IH];
    intros docs cls_poses docs' cls_poses' Hinv Hrun; simpl in Hrun.
  - run. by simplify_eq.
  - step_run Hrun. destruct a as [docs1 cls_poses1].
    eapply IH; [|exact Hrun]. by eapply get_doc_cls_pos.
Qed.

(** The prepared sentences of a sample are bounded in number and in
    length by the two caps. *)
Lemma py_take_length_le {A} (n : Z) (l : list A) :
  (0 ≤ n)%Z → (Z.of_nat (length (py.take n l)) ≤ n)%Z.
Proof. intros Hn. rewrite py_take_length. destruct (Z.ltb_spec n 0); lia. Qed.

Lemma cap_sentence_length sep_id (n : Z) (sent : sentence) :
  (1 ≤ n)%Z → (Z.of_nat (length (cap_sentence sep_id n sent)) ≤ n)%Z.
Proof.
  intros Hn. unfold cap_sentence.
  destruct (Z.leb_spec (Z.of_nat (length sent)) n); [done|].
  rewrite length_app, py_take_length. simpl.
  destruct (Z.ltb_spec (n - 1) 0); lia.
Qed.

Lemma prepare_sents_length sep_id cls_idx max_sent_length (n : Z) src :
  (0 ≤ n)%Z →
  (Z.of_nat (length (prepare_sents sep_id cls_idx (Some n) max_sent_length src))
     ≤ n)%Z.
Proof.
  intros Hn. unfold prepare_sents. rewrite length_fmap.
  destruct max_sent_length; rewrite ?length_fmap; by apply py_take_length_le.
Qed.

Lemma prepare_sents_sentence_length sep_id cls_idx max_doc_length (n : Z) src :
  (1 ≤ n)%Z →
  Forall (λ s : sentence, (Z.of_nat (length s) ≤ n + 1)%Z)
    (prepare_sents sep_id cls_idx max_doc_length (Some n) src).
Proof.
  intros Hn. unfold prepare_sents. apply Forall_fmap, Forall_fmap.
  apply Forall_true. intros s. simpl.
  pose proof (cap_sentence_length sep_id n s Hn). lia.
Qed.

(** A document is a prefix of the prepared sentences, the last of them
    closed. *)
Lemma sample_doc_take sep_id cls_idx max_doc_length max_sent_length
    max_tokens_len s t :
  sample_doc sep_id cls_idx max_doc_length max_sent_length max_tokens_len s
    = Some t →
  ∃ sents k,
    close_last sep_id
      (prepare_sents sep_id cls_idx max_doc_length max_sent_length (source s))
      = Ok sents ∧
    t = take k sents ∧
    ((0 ≤ max_tokens_len)%Z → (Z.of_nat (py.sum_len t) ≤ max_tokens_len)%Z).
Proof.
  unfold sample_doc.
  destruct (prepare_sents _ _ _ _ _) as [|s0 sents0]; [done|].
  destruct (close_last _ _) as [sents|] eqn:Hclose; [|done].
  intros [= <-]. exists sents.
  destruct (truncate_loop_take max_tokens_len sents []) as (k & _ & Hk).
  exists k. split; [done|]. split; [done|]. intros Hpos.
  destruct (truncate_loop_fits max_tokens_len sents []) as [->|?]; [|done].
  simpl. lia.
Qed.

Lemma close_last_length sep_id (sents sents' : list sentence) :
  close_last sep_id sents = Ok sents' → length sents' = length sents.
Proof.
  intros (init & sent & -> & [->| ->])%close_last_Ok; [done|].
  by rewrite !length_app.
Qed.

Lemma close_last_sentence_length sep_id (n : Z) (sents sents' : list sentence) :
  close_last sep_id sents = Ok sents' →
  Forall (λ s : sentence, (Z.of_nat (length s) ≤ n)%Z) sents →
  Forall (λ s : sentence, (Z.of_nat (length s) ≤ n + 1)%Z) sents'.
Proof.
  intros (init & sent & -> & [->| ->])%close_last_Ok;
    rewrite !Forall_app, !Forall_singleton; intros [Hinit Hsent]; split.
  - eapply Forall_impl; [exact Hinit|]. simpl. lia.
  - lia.
  - eapply Forall_impl; [exact Hinit|]. simpl. lia.
  - rewrite length_app. simpl. lia.
Qed.

Lemma omap_length_le {A B} (f : A → option B) (l : list A) :
  length (omap f l) ≤ length l.
Proof. induction l as [|a l IH]; csimpl; [done|]. destruct (f a); csimpl; lia. Qed.

(** X1.  What [get_docs] returns: at most one document per sample, in
    order; every sentence of every document opens with the class token and
    closes with the separator; [cls_poses] lists, document by document, the
    offsets at which the sentences start in the flattened document.  A
    document holds at most [max_tokens_len] tokens and at most
    [max_doc_length] sentences, and a sentence at most [maxlen + 2] tokens
    (the class token, [maxlen] tokens, and the separator that closes a last
    sentence). *)
Theorem get_docs_documents (samples : list sample) (vocab : Dictionary)
    (maxlen max_doc_length : option Z) (max_tokens_len : Z) (bert_model : string)
    (docs : list (list sentence)) (cls_poses : list (list nat)) :
  get_docs samples vocab maxlen max_doc_length max_tokens_len bert_model
    = Ok (docs, cls_poses) →
  ∃ sep,
    dict_get sent_sep_dic bert_model = Ok sep ∧
    length docs ≤ length samples ∧
    cls_poses = starts_from 0 <$> docs ∧
    Forall (Forall (λ s, ∃ body, s = cls_index vocab :: body ++ [index vocab sep]))
      docs ∧
    ((0 ≤ max_tokens_len)%Z →
     Forall (λ d, (Z.of_nat (length (concat d)) ≤ max_tokens_len)%Z) docs) ∧
    (∀ n, max_doc_length = Some n → (0 ≤ n)%Z →
          Forall (λ d, (Z.of_nat (length d) ≤ n)%Z) docs) ∧
    (∀ n, maxlen = Some n → (1 ≤ n)%Z →
          Forall (Forall (λ s, (Z.of_nat (length s) ≤ n + 2)%Z)) docs).
Proof.
  intros Hrun.
  assert (Hpos : cls_poses = starts_from 0 <$> docs).
  { unfold get_docs in Hrun. do 2 step_run Hrun.
    by eapply get_docs_for_each_cls_pos in Hrun. }
  apply get_docs_Ok in Hrun as (sep & Hsep & Hdocs & Hframed).
  exists sep. split; [done|].
  assert (Hall : ∀ P : list sentence → Prop,
    (∀ s t, sample_doc (index vocab sep) (cls_index vocab) max_doc_length maxlen
              max_tokens_len s = Some t → P t) → Forall P docs).
  { intros P HP. rewrite Hdocs. apply Forall_forall.
    intros t (s & _ & Ht)%list_elem_of_omap. by eapply HP. }
  split_and!; try done.
  - rewrite Hdocs. apply omap_length_le.
  - intros Hmax. apply Hall. intros s t (sents & k & _ & -> & Hfit)%sample_doc_take.
    rewrite <- sum_len_concat. by apply Hfit.
  - intros n -> Hn. apply Hall.
    intros s t (sents & k & Hclose%close_last_length & -> & _)%sample_doc_take.
    rewrite length_take.
    pose proof (prepare_sents_length (index vocab sep) (cls_index vocab) maxlen n
                  (source s) Hn). lia.
  - intros n -> Hn. apply Hall.
    intros s t (sents & k & Hclose & -> & _)%sample_doc_take.
    apply Forall_take.
    eapply Forall_impl;
      [eapply close_last_sentence_length;
         [exact Hclose|by apply prepare_sents_sentence_length]|].
    simpl. lia.
Qed.

(** ** When [get_docs] returns *)

Lemma closed_sentence_last key s : closed_sentence key s → last s = Some key.
Proof. intros (body & -> & _). apply last_snoc. Qed.

Lemma split_list_closed_but_last lst key : closed_but_last key (split_list lst key).
Proof.
  destruct (split_list_loop_run lst key) as (closed & sublist & Hrun & Hall & _).
  unfold split_list. rewrite Hrun. intros i s Hi Hlt.
  assert (Hc : closed !! i = Some s).
  { destruct sublist; simpl in *; [done|].
    rewrite length_app in Hlt. simpl in Hlt.
    rewrite lookup_app_l in Hi by lia. done. }
  apply closed_sentence_last. by eapply Forall_lookup_1 in Hall.
Qed.

Lemma closed_but_last_take sep_id (n : Z) sents :
  closed_but_last sep_id sents → closed_but_last sep_id (py.take n sents).
Proof.
  intros Hall i s Hi Hlt. unfold py.take in *.
  destruct (n <? 0)%Z; rewrite length_take in Hlt;
    apply lookup_take_Some in Hi as [Hi _]; apply (Hall i s Hi); lia.
Qed.

Lemma closed_but_last_fmap sep_id (f : sentence → sentence) sents :
  (∀ s, last s = Some sep_id → last (f s) = Some sep_id) →
  closed_but_last sep_id sents → closed_but_last sep_id (f <$> sents).
Proof.
  intros Hf Hall i s Hi Hlt. rewrite length_fmap in Hlt.
  rewrite list_lookup_fmap in Hi.
  destruct (sents !! i) as [s0|] eqn:Hs0; simplify_eq/=.
  apply Hf. by eapply Hall.
Qed.

Lemma cap_sentence_last sep_id n (s : sentence) :
  last s = Some sep_id → last (cap_sentence sep_id n s) = Some sep_id.
Proof. intros Hs. unfold cap_sentence. case_match; [done|apply last_snoc]. Qed.

Lemma prepare_sents_closed_but_last sep_id cls_idx max_doc_length max_sent_length src :
  closed_but_last sep_id
    (prepare_sents sep_id cls_idx max_doc_length max_sent_length src).
Proof.
  unfold prepare_sents. apply closed_but_last_fmap.
  { intros s Hs. rewrite last_cons. by rewrite Hs. }
  assert (Hcut : closed_but_last sep_id
    (match max_doc_length with
     | Some n => py.take n (split_list src sep_id)
     | None => split_list src sep_id
     end)).
  { destruct max_doc_length; [apply closed_but_last_take|];
      apply split_list_closed_but_last. }
  destruct max_sent_length; [|done].
  apply closed_but_last_fmap; [|done]. intros s. apply cap_sentence_last.
Qed.

(** Closing the last sentence of non-empty sentences never fails, and
    leaves every sentence closed. *)
Lemma close_last_total sep_id (sents : list sentence) :
  sents ≠ [] →
  Forall (λ s : sentence, s ≠ []) sents →
  closed_but_last sep_id sents →
  ∃ sents', close_last sep_id sents = Ok sents' ∧
            Forall (λ s, last s = Some sep_id) sents'.
Proof.
  intros Hne Hall Hclosed.
  destruct (exists_last Hne) as (init & sent & ->).
  apply Forall_app in Hall as [_ Hsent]. apply Forall_inv in Hsent.
  assert (Hinit : Forall (λ s, last s = Some sep_id) init).
  { apply Forall_lookup. intros i s Hi. apply (Hclosed i s).
    - by apply lookup_app_l_Some.
    - rewrite length_app. simpl. apply lookup_lt_Some in Hi. lia. }
  destruct (exists_last Hsent) as (body & x & ->).
  unfold close_last, py.last. rewrite last_snoc. simpl.
  rewrite last_snoc. simpl.
  destruct (Z.eqb_spec x sep_id) as [->|Hx].
  - eexists. split; [done|]. apply Forall_app. split; [done|].
    apply Forall_singleton, last_snoc.
  - unfold py.set_last. destruct (init ++ [body ++ [x]]) eqn:Heq.
    { by destruct init. }
    rewrite <- Heq. eexists. split; [done|].
    rewrite length_app. simpl.
    replace (length init + 1 - 1) with (length init + 0) by lia.
    rewrite insert_app_r. simpl. apply Forall_app. split; [done|].
    apply Forall_singleton, last_snoc.
Qed.

Lemma get_docs_loop_total sep_id max_tokens_len sents :
  ∀ truncate_doc cls_pos acc,
  Forall (λ s, last s = Some sep_id) sents →
  ∃ r, get_docs_loop sep_id max_tokens_len truncate_doc cls_pos acc sents = Ok r.
Proof.
  induction sents as [|s sents IH]; intros doc cls_pos acc Hall; simpl.
  - by eexists.
  - apply Forall_cons in Hall as [Hs Hall].
    unfold py.last. rewrite Hs. simpl. rewrite Z.eqb_refl. simpl.
    case_match; [by apply IH|by eexists].
Qed.

Lemma get_doc_total sep_id cls_idx max_sent_length max_doc_length max_tokens_len
    acc s :
  ∃ r, get_doc sep_id cls_idx max_sent_length max_doc_length max_tokens_len acc s
       = Ok r.
Proof.
  destruct acc as [docs cls_poses]. unfold get_doc.
  pose proof (prepare_sents_classed sep_id cls_idx max_doc_length max_sent_length
                (source s)) as Hclassed.
  pose proof (prepare_sents_closed_but_last sep_id cls_idx max_doc_length
                max_sent_length (source s)) as Hclosed.
  unfold prepare_sents in *.
  destruct (_ <$> _) as [|s0 sents0] eqn:Hprep; [by eexists|].
  destruct (close_last_total sep_id (s0 :: sents0)) as (sents' & -> & Hall);
    [done| |done|].
  { eapply Forall_impl; [exact Hclassed|]. apply classed_sentence_nonempty. }
  simpl.
  destruct (get_docs_loop_total sep_id max_tokens_len sents' [] [] [] Hall)
    as [[kept cls_pos] ->].
  simpl. by eexists.
Qed.

Lemma get_docs_for_each_total sep_id cls_idx max_sent_length max_doc_length
    max_tokens_len samples :
  ∀ acc,
  ∃ r, py.for_each
         (get_doc sep_id cls_idx max_sent_length max_doc_length max_tokens_len)
         acc samples = Ok r.
Proof.
  induction samples as [|s samples IH]; intros acc; simpl; [by eexists|].
  destruct (get_doc_total sep_id cls_idx max_sent_length max_doc_length
              max_tokens_len acc s) as [r ->].
  simpl. apply IH.
Qed.

(** The separator table has the four models and no other. *)
Lemma dict_get_sent_sep bert_model :
  dict_get sent_sep_dic bert_model =
  if decide (bert_model ∈ ["roberta-base"; "roberta-large"]%string) then Ok "</s>"%string
  else if decide (bert_model ∈ ["bert-base-uncased"; "bert-base-chinese"]%string)
       then Ok "[SEP]"%string
       else Raise KeyError.
Proof.
  unfold sent_sep_dic. cbn [dict_get].
  repeat case_decide.
  - rewrite !elem_of_cons, elem_of_nil in *. by destruct_or!; subst.
  - rewrite !elem_of_cons, elem_of_nil in *. by destruct_or!; subst.
  - rewrite !elem_of_cons, elem_of_nil in *.
    destruct (String.eqb_spec "roberta-base" bert_model); [naive_solver|].
    destruct (String.eqb_spec "roberta-large" bert_model); [naive_solver|].
    destruct (String.eqb_spec "bert-base-uncased" bert_model); [naive_solver|].
    destruct (String.eqb_spec "bert-base-chinese" bert_model); [naive_solver|].
    done.
Qed.

Lemma get_docs_total samples vocab maxlen max_doc_length max_tokens_len
    bert_model sep :
  dict_get sent_sep_dic bert_model = Ok sep →
  index vocab sep ≠ unk_index vocab →
  ∃ docs cls_poses,
    get_docs samples vocab maxlen max_doc_length max_tokens_len bert_model
      = Ok (docs, cls_poses).
Proof.
  intros Hsep Hunk. unfold get_docs. rewrite Hsep, rbind_Ok_l.
  destruct (Z.eqb_spec (index vocab sep) (unk_index vocab)); [done|]. simpl.
  destruct (get_docs_for_each_total (index vocab sep) (cls_index vocab) maxlen
              max_doc_length max_tokens_len samples ([], [])) as [[d c] ->].
  by eexists _, _.
Qed.

(** X2.  [get_docs] fails in two ways only: with [KeyError] when
    [bert_model] is none of the four known models, and with [AssertionError]
    when the vocabulary does not know the separator of the model.  Otherwise
    it returns: the assertion inside its loop, that every sentence ends with
    the separator, never fails, whatever the samples and the caps. *)
Theorem get_docs_returns (samples : list sample) (vocab : Dictionary)
    (maxlen max_doc_length : option Z) (max_tokens_len : Z) (bert_model : string) :
  match dict_get sent_sep_dic bert_model with
  | Raise _ =>
      bert_model ∉ ["roberta-base"; "roberta-large"; "bert-base-uncased";
                    "bert-base-chinese"]%string ∧
      get_docs samples vocab maxlen max_doc_length max_tokens_len bert_model
        = Raise KeyError
  | Ok sep =>
      if decide (index vocab sep = unk_index vocab)
      then get_docs samples vocab maxlen max_doc_length max_tokens_len bert_model
             = Raise AssertionError
      else ∃ docs cls_poses,
             get_docs samples vocab maxlen max_doc_length max_tokens_len bert_model
               = Ok (docs, cls_poses)
  end.
Proof.
  pose proof (dict_get_sent_sep bert_model) as Hknown.
  destruct (dict_get sent_sep_dic bert_model) as [sep|e] eqn:Hsep.
  - clear Hknown. case_decide as Hunk.
    + unfold get_docs. rewrite Hsep, rbind_Ok_l. cbv zeta.
      by rewrite Hunk, Z.eqb_refl.
    + by eapply get_docs_total.
  - unfold get_docs. rewrite Hsep.
    repeat case_decide; simplify_eq. split; [|done].
    rewrite !elem_of_cons, elem_of_nil in *. naive_solver.
Qed.

(** ** Permutation targets *)

Section target_rows.
Variables (pad_idx bos_idx last_idx : Z) (maxlen : nat).

(** The rows [create_target_batch] writes for an order array [s]. *)
Let target_row (s : list nat) : list Z :=
  (Z.of_nat <$> s) ++ last_idx :: replicate (maxlen - length s) pad_idx.
Let prev_row (s : list nat) : list Z :=
  bos_idx :: (Z.of_nat <$> s) ++ replicate (maxlen - length s) pad_idx.

Lemma set_entry_current {A} (done : list (list A)) row tl sz i j v :
  i = length done →
  j < length row →
  torch.set_entry (torch.Tensor sz (done ++ row :: tl)) i j v
  = Ok (torch.Tensor sz (done ++ <[j:=v]> row :: tl)).
Proof.
  intros -> Hj. unfold torch.set_entry. simpl.
  rewrite (py_index_Some _ _ row) by (by rewrite list_lookup_middle).
  rewrite rbind_Ok_l, py_set_index_lt, rbind_Ok_l by done.
  rewrite insert_app_r_alt by done. by rewrite Nat.sub_diag.
Qed.

Lemma set_row_slice_current {A} (done : list (list A)) row row' tl sz i a b vals :
  i = length done →
  torch.set_slice row a b vals = Ok row' →
  torch.set_row_slice (torch.Tensor sz (done ++ row :: tl)) i a b vals
  = Ok (torch.Tensor sz (done ++ row' :: tl)).
Proof.
  intros -> Hrow. unfold torch.set_row_slice. simpl.
  rewrite (py_index_Some _ _ row) by (by rewrite list_lookup_middle).
  rewrite rbind_Ok_l, Hrow, rbind_Ok_l.
  rewrite insert_app_r_alt by done. by rewrite Nat.sub_diag.
Qed.

Lemma set_slice_after_first {A} (x v : A) (vals : list A) :
  length vals ≤ maxlen →
  torch.set_slice (x :: replicate maxlen v) 1 (length vals + 1) vals
  = Ok (x :: vals ++ replicate (maxlen - length vals) v).
Proof.
  intros Hle. unfold torch.set_slice, torch.clamp_slice. simpl length.
  rewrite length_replicate.
  replace ((length vals + 1) `min` S maxlen) with (S (length vals)) by lia.
  replace (1 `min` S (length vals)) with 1 by lia.
  replace (S (length vals) - 1) with (length vals) by lia.
  rewrite decide_True by done. simpl. by rewrite drop_replicate.
Qed.

Lemma target_row_write (s : list nat) :
  length s ≤ maxlen →
  <[length s:=last_idx]> ((Z.of_nat <$> s) ++ replicate (S maxlen - length s) pad_idx)
  = target_row s.
Proof.
  intros Hle. unfold target_row.
  rewrite insert_app_r_alt; rewrite length_fmap; [|done].
  rewrite Nat.sub_diag.
  replace (S maxlen - length s) with (S (maxlen - length s)) by lia. done.
Qed.

Lemma create_target_batch_loop (nsents : list nat) (poniter_net : bool)
    (eos_idx : Z) sz1 sz2 (rest : list (list nat)) :
  last_idx = (if negb poniter_net then eos_idx else Z.of_nat maxlen) →
  ∀ (done : list (list nat)),
  (∀ k s, rest !! k = Some s →
          nsents !! (length done + k) = Some (length s) ∧ length s ≤ maxlen) →
  py.for_each
    (λ '(target, prev_output_tokens) '(i, s),
       tgt_len ← py.index nsents i;
       _ ← py_assert (bool_decide (tgt_len = length s));
       let s := Z.of_nat <$> s in
       target ← torch.set_row_slice target i 0 tgt_len s;
       prev_output_tokens ← torch.set_entry prev_output_tokens i 0 bos_idx;
       target ←
         (if negb poniter_net
          then torch.set_entry target i tgt_len eos_idx
          else torch.set_entry target i tgt_len (Z.of_nat maxlen));
       prev_output_tokens ←
         torch.set_row_slice prev_output_tokens i 1 (tgt_len + 1) s;
       mret (target, prev_output_tokens))
    (torch.Tensor sz1 ((target_row <$> done)
                         ++ replicate (length rest) (replicate (S maxlen) pad_idx)),
     torch.Tensor sz2 ((prev_row <$> done)
                         ++ replicate (length rest) (replicate (S maxlen) pad_idx)))
    (zip (seq (length done) (length rest)) rest)
  = Ok (torch.Tensor sz1 (target_row <$> (done ++ rest)),
        torch.Tensor sz2 (prev_row <$> (done ++ rest))).
Proof.
  intros Hlast. induction rest as [|s rest IH]; intros done Hall.
  - simpl. by rewrite !app_nil_r.
  - destruct (Hall 0 s eq_refl) as [Hn Hle]. rewrite Nat.add_0_r in Hn.
    cbn [length seq zip zip_with py.for_each]. cbn beta iota zeta.
    rewrite (py_index_Some _ _ _ Hn), rbind_Ok_l.
    rewrite bool_decide_eq_true_2 by done. cbn [py_assert]. rewrite rbind_Ok_l.
    rewrite <- (length_fmap Z.of_nat s) at 1.
    rewrite set_row_slice_next by (rewrite length_fmap; lia).
    rewrite rbind_Ok_l. rewrite length_fmap.
    change (replicate (S (length rest)) (replicate (S maxlen) pad_idx))
      with (replicate (S maxlen) pad_idx
              :: replicate (length rest) (replicate (S maxlen) pad_idx)).
    rewrite (set_entry_current (prev_row <$> done)
               (replicate (S maxlen) pad_idx) _ sz2 (length done) 0 bos_idx)
      by (rewrite ?length_fmap; simpl; lia).
    rewrite rbind_Ok_l.
    assert (Hset : (if negb poniter_net
       then torch.set_entry
              (torch.Tensor sz1 ((target_row <$> done)
                 ++ ((Z.of_nat <$> s) ++ replicate (S maxlen - length s) pad_idx)
                 :: replicate (length rest) (replicate (S maxlen) pad_idx)))
              (length done) (length s) eos_idx
       else torch.set_entry
              (torch.Tensor sz1 ((target_row <$> done)
                 ++ ((Z.of_nat <$> s) ++ replicate (S maxlen - length s) pad_idx)
                 :: replicate (length rest) (replicate (S maxlen) pad_idx)))
              (length done) (length s) (Z.of_nat maxlen))
      = Ok (torch.Tensor sz1 ((target_row <$> done) ++ target_row s
              :: replicate (length rest) (replicate (S maxlen) pad_idx)))).
    { rewrite <- (target_row_write s Hle), Hlast.
      destruct poniter_net; simpl negb; cbv iota;
        apply set_entry_current;
        rewrite ?length_app, ?length_fmap, ?length_replicate; lia. }
    rewrite Hset, rbind_Ok_l. clear Hset.
    erewrite set_row_slice_current; [|by rewrite length_fmap|]; last first.
    { simpl. rewrite <- (length_fmap Z.of_nat s).
      apply set_slice_after_first. by rewrite length_fmap. }
    rewrite rbind_Ok_l.
    specialize (IH (done ++ [s])).
    rewrite !fmap_app, length_app in IH. simpl in IH.
    replace (length done + 1) with (S (length done)) in IH by lia.
    rewrite <- !app_assoc in IH. simpl in IH.
    rewrite !fmap_app, !fmap_cons, length_fmap.
    unfold mret, result_ret. rewrite rbind_Ok_l. apply IH.
    intros k s' Hk. replace (S (length done + k)) with (length done + S k) by lia.
    by apply Hall.
Qed.

Lemma create_target_batch_loop_cond (nsents : list nat) (poniter_net : bool)
    (eos_idx : Z) (rest : list (list nat)) :
  ∀ k (acc r : tensor2 Z * tensor2 Z),
  py.for_each
    (λ '(target, prev_output_tokens) '(i, s),
       tgt_len ← py.index nsents i;
       _ ← py_assert (bool_decide (tgt_len = length s));
       let s := Z.of_nat <$> s in
       target ← torch.set_row_slice target i 0 tgt_len s;
       prev_output_tokens ← torch.set_entry prev_output_tokens i 0 bos_idx;
       target ←
         (if negb poniter_net
          then torch.set_entry target i tgt_len eos_idx
          else torch.set_entry target i tgt_len (Z.of_nat maxlen));
       prev_output_tokens ←
         torch.set_row_slice prev_output_tokens i 1 (tgt_len + 1) s;
       mret (target, prev_output_tokens))
    acc (zip (seq k (length rest)) rest) = Ok r →
  ∀ j s, rest !! j = Some s → nsents !! (k + j) = Some (length s).
Proof.
  induction rest as [|s rest IH]; intros k [t p] r Hrun j s' Hj; [done|].
  cbn [length seq zip zip_with py.for_each] in Hrun.
  step_run Hrun. do 2 step_run E. step_run E1.
  apply bool_decide_eq_true_1 in E1. subst a0. step_run E0.
  destruct j as [|j]; simpl in Hj.
  - injection Hj as <-. by rewrite Nat.add_0_r.
  - replace (k + S j) with (S k + j) by lia. by eapply IH.
Qed.

End target_rows.

Lemma create_target_batch_eq (tgt_orders : list (list nat)) (tgt_dict : Dictionary)
    (nsents : list nat) (poniter_net : bool) maxlen :
  py.max_list nsents = Ok maxlen →
  (∀ i s, tgt_orders !! i = Some s → nsents !! i = Some (length s)) →
  create_target_batch tgt_orders tgt_dict nsents poniter_net =
  Ok (torch.Tensor [length tgt_orders; maxlen + 1]
        ((λ s, (Z.of_nat <$> s)
                 ++ (if poniter_net then Z.of_nat maxlen else eos_index tgt_dict)
                 :: replicate (maxlen - length s) (pad_index tgt_dict))
           <$> tgt_orders),
      torch.Tensor [length tgt_orders; maxlen + 1]
        ((λ s, bos_index tgt_dict :: (Z.of_nat <$> s)
                 ++ replicate (maxlen - length s) (pad_index tgt_dict))
           <$> tgt_orders)).
Proof.
  intros Hmax Hall. unfold create_target_batch. rewrite Hmax, rbind_Ok_l.
  cbv zeta. unfold torch.full2, py.enumerate.
  replace (maxlen + 1) with (S maxlen) by lia.
  pose proof (create_target_batch_loop (pad_index tgt_dict) (bos_index tgt_dict)
    (if poniter_net then Z.of_nat maxlen else eos_index tgt_dict) maxlen
    nsents poniter_net (eos_index tgt_dict)
    [length tgt_orders; S maxlen] [length tgt_orders; S maxlen] tgt_orders) as Hloop.
  specialize (Hloop ltac:(by destruct poniter_net) []). simpl in Hloop.
  apply Hloop. intros k s Hk. split; [by apply Hall|].
  apply max_list_Ok in Hmax. eapply Forall_lookup_1 in Hmax; [|by apply Hall].
  done.
Qed.

(** X3.  What [create_target_batch] returns.  Both tensors have one row per
    order array and [max(nsents) + 1] columns.  The target row is the order
    array followed by the end marker ([eos], or [max(nsents)] for a pointer
    network) and padding; the input row is [bos] followed by the order array
    and padding.  It returns only when [nsents[i]] is the length of the
    [i]-th order array, for every one of them. *)
Theorem create_target_batch_rows (tgt_orders : list (list nat))
    (tgt_dict : Dictionary) (nsents : list nat) (poniter_net : bool)
    (target prev_output_tokens : tensor2 Z) :
  create_target_batch tgt_orders tgt_dict nsents poniter_net
    = Ok (target, prev_output_tokens) →
  ∃ maxlen,
    py.max_list nsents = Ok maxlen ∧
    torch.size target = [length tgt_orders; maxlen + 1] ∧
    torch.size prev_output_tokens = [length tgt_orders; maxlen + 1] ∧
    length (torch.data target) = length tgt_orders ∧
    length (torch.data prev_output_tokens) = length tgt_orders ∧
    ∀ i s, tgt_orders !! i = Some s →
      nsents !! i = Some (length s) ∧
      torch.data target !! i
        = Some ((Z.of_nat <$> s)
                  ++ (if poniter_net then Z.of_nat maxlen else eos_index tgt_dict)
                  :: replicate (maxlen - length s) (pad_index tgt_dict)) ∧
      torch.data prev_output_tokens !! i
        = Some (bos_index tgt_dict :: (Z.of_nat <$> s)
                  ++ replicate (maxlen - length s) (pad_index tgt_dict)).
Proof.
  intros Hrun.
  assert (Hcond : ∃ maxlen, py.max_list nsents = Ok maxlen ∧
    ∀ i s, tgt_orders !! i = Some s → nsents !! i = Some (length s)).
  { pose proof Hrun as Hloop. unfold create_target_batch in Hloop.
    step_run Hloop. exists a. split; [done|]. intros i s Hi.
    unfold py.enumerate in Hloop.
    exact (create_target_batch_loop_cond _ _ _ _ _ tgt_orders 0 _ _ Hloop i s Hi). }
  destruct Hcond as (maxlen & Hmax & Hall). exists maxlen.
  rewrite (create_target_batch_eq _ _ _ _ _ Hmax Hall) in Hrun.
  injection Hrun as <- <-. simpl. rewrite !length_fmap.
  split_and!; try done. intros i s Hi.
  rewrite !list_lookup_fmap, Hi. simpl. split; [by apply Hall|done].
Qed.

(** ** The batch tensorizers *)

(** X4.  [docs2tensor] returns exactly when every int it writes is an
    int64.  With such a pad id, it raises [RuntimeError] when a token or a
    sentence start is not one, and otherwise returns: row [i] of
    [src_tokens] is document [i] followed by pad ids, of [doc_pad_mask] is
    [False] on the sentences of document [i] and [True] after them, of
    [cpos] is the sentence starts of document [i] followed by zeros;
    [nsents] lists the numbers of sentences and [segment_ids] is all zeros.
    The rows are as wide as the longest document, or the longest list of
    sentence starts, needs.  With a pad id that is not an int64 it does not
    return. *)
Theorem docs2tensor_rows (docs : list (list token * list nat))
    (pad_idx sep_id : token) :
  if torch.fits_long pad_idx then
    if forallb doc_fits docs then
      ∃ src_tokens doc_pad_mask segment_ids cpos nsents max_doc_len max_nsent,
        docs2tensor docs pad_idx sep_id
          = Ok (src_tokens, doc_pad_mask, segment_ids, cpos, nsents) ∧
        torch.size src_tokens = [length docs; max_doc_len] ∧
        torch.size doc_pad_mask = [length docs; max_nsent] ∧
        torch.size cpos = [length docs; max_nsent] ∧
        segment_ids = torch.full2 (length docs) max_doc_len 0%Z ∧
        nsents = (λ d, length d.2) <$> docs ∧
        (docs ≠ [] → ∃ d d', d ∈ docs ∧ d' ∈ docs ∧
                             length d.1 = max_doc_len ∧ length d'.2 = max_nsent) ∧
        ∀ i doc cls_pos, docs !! i = Some (doc, cls_pos) →
          length doc ≤ max_doc_len ∧ length cls_pos ≤ max_nsent ∧
          torch.data src_tokens !! i
            = Some (doc ++ replicate (max_doc_len - length doc) pad_idx) ∧
          torch.data doc_pad_mask !! i
            = Some (replicate (length cls_pos) false
                      ++ replicate (max_nsent - length cls_pos) true) ∧
          torch.data cpos !! i
            = Some (cls_pos ++ replicate (max_nsent - length cls_pos) 0)
    else docs2tensor docs pad_idx sep_id = Raise RuntimeError
  else ∀ r, docs2tensor docs pad_idx sep_id ≠ Ok r.
Proof.
  rewrite docs2tensor_eq.
  destruct (torch.fits_long pad_idx); [|done].
  destruct (forallb doc_fits docs); [|done]. cbn [andb]. cbv zeta.
  pose proof (max_lens_bound docs) as Hb.
  assert (Hmax : docs ≠ [] → ∃ d d', d ∈ docs ∧ d' ∈ docs ∧
            length d.1 = (max_lens docs).1 ∧ length d'.2 = (max_lens docs).2).
  { unfold max_lens.
    assert (Hgen : ∀ (l : list (list token * list nat)) (acc : nat * nat),
      let r := foldl (λ '(max_doc_len, max_nsent) '(doc, cls_pos),
                        (length doc `max` max_doc_len, max_nsent `max` length cls_pos))
                     acc l in
      (r.1 = acc.1 ∨ ∃ d, d ∈ l ∧ length d.1 = r.1) ∧
      (r.2 = acc.2 ∨ ∃ d, d ∈ l ∧ length d.2 = r.2)).
    { induction l as [|[doc cls_pos] l IH]; intros [m1 m2]; simpl; [by split; left|].
      destruct (IH (length doc `max` m1, m2 `max` length cls_pos)) as [H1 H2].
      simpl in *. split.
      - destruct H1 as [->|(d & Hd & <-)].
        + destruct (Nat.max_spec (length doc) m1) as [[_ ->]|[_ ->]]; [by left|].
          right. exists (doc, cls_pos). split; [left|done].
        + right. exists d. split; [by right|done].
      - destruct H2 as [->|(d & Hd & <-)].
        + destruct (Nat.max_spec m2 (length cls_pos)) as [[_ ->]|[_ ->]]; [|by left].
          right. exists (doc, cls_pos). split; [left|done].
        + right. exists d. split; [by right|done]. }
    intros Hne. destruct docs as [|d0 docs]; [done|].
    destruct (Hgen (d0 :: docs) (0, 0)) as [H1 H2]. simpl in H1, H2.
    pose proof (max_lens_bound (d0 :: docs)) as Hb'. unfold max_lens in Hb'.
    apply Forall_cons in Hb' as [[Hd1 Hd2] _].
    assert (∃ d, d ∈ d0 :: docs ∧ length d.1
      = (foldl (λ '(max_doc_len, max_nsent) '(doc, cls_pos),
                  (length doc `max` max_doc_len, max_nsent `max` length cls_pos))
               (0, 0) (d0 :: docs)).1) as (d & Hd & Hd').
    { destruct H1 as [H1|H1]; [|done]. exists d0. split; [left|].
      simpl in *. lia. }
    assert (∃ d, d ∈ d0 :: docs ∧ length d.2
      = (foldl (λ '(max_doc_len, max_nsent) '(doc, cls_pos),
                  (length doc `max` max_doc_len, max_nsent `max` length cls_pos))
               (0, 0) (d0 :: docs)).2) as (d' & Hd2' & Hd'').
    { destruct H2 as [H2|H2]; [|done]. exists d0. split; [left|].
      simpl in *. lia. }
    by exists d, d'. }
  destruct (max_lens docs) as [w1 w2]. simpl in Hb, Hmax.
  eexists _, _, _, _, _, w1, w2. split; [done|]. simpl.
  split_and!; try done.
  intros i doc cls_pos Hi.
  eapply Forall_lookup_1 in Hb; [|exact Hi]. simpl in Hb.
  rewrite !list_lookup_fmap, Hi. simpl. by destruct Hb.
Qed.

(** X5.  [doc2tensor], the tensorizer of the masking path, gives what
    [docs2tensor] gives on the flattened documents, whatever the separator
    id.  It returns exactly when every int it writes is an int64: with such
    a pad id, it raises [RuntimeError] when a token or a sentence offset is
    not one, and otherwise row [i] of [src_tokens] is the concatenation of
    the sentences of document [i] followed by pad ids, [nsents[i]] is their
    number, and [cpos[i, j]] is the offset at which sentence [j] starts: the
    tokens of the row from there on are that sentence. *)
Theorem doc2tensor_flattened (self : SentsPermAndPredictMaskDataset)
    (docs_ : list (list sentence)) (vocab : Dictionary) :
  let flat := (λ doc_, (concat doc_, starts_from 0 doc_)) <$> docs_ in
  (∀ sep_id,
     doc2tensor self docs_ vocab = docs2tensor flat (pad vocab) sep_id) ∧
  if torch.fits_long (pad vocab) then
    if forallb doc_fits flat then
      ∃ src_tokens doc_pad_mask segment_ids cpos nsents,
        doc2tensor self docs_ vocab
          = Ok (src_tokens, doc_pad_mask, segment_ids, cpos, nsents) ∧
        nsents = length <$> docs_ ∧
        length (torch.data src_tokens) = length docs_ ∧
        length (torch.data cpos) = length docs_ ∧
        ∀ i doc_, docs_ !! i = Some doc_ →
          ∃ (row : list Z) (cpos_row : list nat),
            torch.data src_tokens !! i = Some row ∧
            torch.data cpos !! i = Some cpos_row ∧
            (∃ width, row = concat doc_ ++ replicate width (pad vocab)) ∧
            take (length doc_) cpos_row = starts_from 0 doc_ ∧
            ∀ j sent, doc_ !! j = Some sent →
              ∃ pos,
                cpos_row !! j = Some pos ∧
                pos = length (concat (take j doc_)) ∧
                take (length sent) (drop pos row) = sent
    else doc2tensor self docs_ vocab = Raise RuntimeError
  else ∀ r, doc2tensor self docs_ vocab ≠ Ok r.
Proof.
  intros flat.
  assert (Heq : ∀ sep_id,
    doc2tensor self docs_ vocab = docs2tensor flat (pad vocab) sep_id).
  { intros sep_id. rewrite doc2tensor_docs2tensor. subst flat.
    rewrite (list_fmap_ext flatten_doc (λ doc_, (concat doc_, starts_from 0 doc_))
               docs_) by (intros; apply flatten_doc_eq).
    by rewrite !docs2tensor_eq. }
  split; [done|]. rewrite (Heq 0%Z), docs2tensor_eq.
  destruct (torch.fits_long (pad vocab)); [|done].
  destruct (forallb doc_fits flat); [|done]. cbn [andb]. cbv zeta.
  destruct (max_lens flat) as [w1 w2].
  eexists _, _, _, _, _. split; [done|]. simpl. subst flat.
  rewrite !length_fmap. split_and!; try done.
  { rewrite <- list_fmap_compose. apply list_fmap_ext.
    intros ? doc_ ?. simpl. apply starts_from_length. }
  intros i doc_ Hi. rewrite !list_lookup_fmap, Hi. simpl.
  unfold padded_tokens, padded_cls_pos. simpl.
  eexists _, _. split_and!; try done.
  - by eexists.
  - by rewrite take_app_length' by by rewrite starts_from_length.
  - intros j sent Hsent.
    assert (Hj : j < length doc_) by by eapply lookup_lt_Some.
    exists (length (concat (take j doc_))).
    rewrite lookup_app_l by by rewrite starts_from_length.
    rewrite starts_from_lookup by done. simpl.
    split_and!; try done. by apply concat_take_drop.
Qed.

(** ** The permutation path *)

(** X6.  What the shuffler does with the sentences.  It keeps the longest
    prefix of the document that fits in [max_tokens_len] tokens, and returns
    these sentences in another order: the sentence at position [idx] of the
    document is at position [target_order[idx]] of the result, so that
    [target_order] reads off, for every original sentence, where it went. *)
Theorem shuffle_sents_placement {G : Type} `{RandomState G}
    (fix_ratio : Q) (max_tokens_len : Z) (sents shuffled : list sentence)
    (target_order : list nat) (g g' : G) :
  shuffle_sents fix_ratio max_tokens_len sents g
    = Ok ((shuffled, target_order), g') →
  ∃ count,
    count ≤ length sents ∧
    truncate_loop max_tokens_len [] sents = take count sents ∧
    ((0 ≤ max_tokens_len)%Z →
     (Z.of_nat (length (concat (take count sents))) ≤ max_tokens_len)%Z) ∧
    (count < length sents →
     (max_tokens_len < Z.of_nat (length (concat (take (S count) sents))))%Z) ∧
    length shuffled = count ∧
    length target_order = count ∧
    shuffled ≡ₚ take count sents ∧
    ∀ idx o, target_order !! idx = Some o →
      idx < count ∧ o < count ∧ shuffled !! o = sents !! idx.
Proof.
  intros (Hperm & Horder & Hplace)%shuffle_sents_Ok.
  assert (Hcut : ∀ (l acc : list sentence), ∃ k, k ≤ length l ∧
    truncate_loop max_tokens_len acc l = acc ++ take k l ∧
    ((0 ≤ max_tokens_len)%Z ∨ acc ≠ [] →
     (Z.of_nat (py.sum_len acc) ≤ max_tokens_len)%Z →
     (Z.of_nat (py.sum_len (acc ++ take k l)) ≤ max_tokens_len)%Z) ∧
    (k < length l →
     (max_tokens_len < Z.of_nat (py.sum_len (acc ++ take (S k) l)))%Z)).
  { induction l as [|s l IH]; intros acc; simpl.
    - exists 0. rewrite app_nil_r. split_and!; [done..|lia].
    - destruct (Z.leb_spec
        (Z.of_nat (py.sum_len acc) + Z.of_nat (length s)) max_tokens_len) as [Hle|Hgt].
      + destruct (IH (acc ++ [s])) as (k & Hk & -> & Hfit & Hnext).
        exists (S k). simpl. rewrite <- !app_assoc in *. simpl in *.
        split_and!; [lia|done| |].
        * intros _ _. apply Hfit; [right; by destruct acc|].
          rewrite sum_len_app. simpl. lia.
        * intros Hlt. apply Hnext. lia.
      + exists 0. simpl. rewrite app_nil_r. split_and!; [lia|done|done|].
        intros _. rewrite take_0, sum_len_app. simpl. lia. }
  destruct (Hcut sents []) as (count & Hcount & Htake & Hfit & Hnext).
  simpl in *. rewrite Htake in *. rewrite length_take in Horder.
  replace (count `min` length sents) with count in Horder by lia.
  exists count. rewrite <- !sum_len_concat.
  assert (Hlen : length target_order = count) by by rewrite Horder, length_seq.
  split_and!; try done.
  - intros Hpos. apply Hfit; [by left|lia].
  - rewrite Hperm, length_take. lia.
  - intros idx o Hidx. split_and!; [| |by apply Hplace].
    + rewrite <- Hlen. by eapply lookup_lt_Some.
    + assert (o ∈ seq 0 count) as ?%elem_of_seq; [|lia].
      rewrite <- Horder. by eapply list_elem_of_lookup_2.
Qed.

Section permutation_batch.
Context {G : Type} `{RandomState G}.

(** The documents and the order arrays of the batch, sample by sample. *)
Lemma src_tok_docs_orders sep_id cls_idx fix_ratio max_doc_length max_sent_length
    max_tokens_len samples :
  ∀ (docs : list (list token * list nat)) (target_orders : list (list nat)) (g : G)
    docs' target_orders' g',
  py.for_each
    (src_tok_doc sep_id cls_idx fix_ratio max_doc_length max_sent_length
       max_tokens_len)
    (docs, target_orders) samples g = Ok ((docs', target_orders'), g') →
  ∃ new_docs new_orders,
    docs' = docs ++ new_docs ∧
    target_orders' = target_orders ++ new_orders ∧
    length new_docs ≤ length samples ∧
    Forall2 (λ d order, order ≡ₚ seq 0 (length d.2)) new_docs new_orders ∧
    Forall (λ d : list token * list nat,
              (0 ≤ max_tokens_len)%Z →
              (Z.of_nat (length d.1) ≤ max_tokens_len)%Z) new_docs.
Proof.
  induction samples as [|s samples IH];
    intros docs orders g docs' orders' g' Hrun; simpl in Hrun.
  - run. simplify_eq. exists [], []. rewrite !app_nil_r.
    split_and!; [done..|simpl; lia|constructor|constructor].
  - step_run Hrun. destruct a as [docs1 orders1].
    apply src_tok_doc_Ok in E.
    apply IH in Hrun as (nd & no & -> & -> & Hlen & Hall & Hfit).
    destruct (sample_doc _ _ _ _ _ s) as [t|] eqn:Ht.
    + destruct E as (shuffled & order & Hsh & Horder & -> & ->).
      exists ((concat shuffled, starts_from 0 shuffled) :: nd), (order :: no).
      rewrite <- !app_assoc. simpl. split_and!; [done|done|lia| |].
      * constructor; [|done]. simpl. by rewrite starts_from_length, Hsh.
      * constructor; [|done]. simpl. intros Hpos.
        apply sample_doc_take in Ht as (sents & k & _ & -> & Hk).
        rewrite <- sum_len_concat, Hsh. by apply Hk.
    + destruct E as [-> ->]. exists nd, no. split_and!; [done|done|simpl; lia|done..].
Qed.

Lemma max_lens_le (docs : list (list token * list nat)) (b : nat) :
  Forall (λ d, length d.1 ≤ b) docs → (max_lens docs).1 ≤ b.
Proof.
  unfold max_lens. intros Hall.
  assert (Hgen : ∀ acc : nat * nat, acc.1 ≤ b →
    (foldl (λ '(max_doc_len, max_nsent) '(doc, cls_pos),
              (length doc `max` max_doc_len, max_nsent `max` length cls_pos))
           acc docs).1 ≤ b).
  { induction Hall as [|[doc cls_pos] docs Hd _ IH]; intros [m1 m2] Hacc; simpl;
      [done|].
    apply IH. simpl in *. lia. }
  apply Hgen. simpl. lia.
Qed.

Lemma create_src_tok_batch_Ok samples src_dict fix_ratio max_doc_length
    max_sent_length max_tokens_len bert_model (g g' : G)
    src_tokens doc_pad_mask segment_ids cpos nsents target_orders :
  create_src_tok_batch samples src_dict fix_ratio max_doc_length
    max_sent_length max_tokens_len bert_model g
    = Ok ((src_tokens, doc_pad_mask, segment_ids, cpos, nsents, target_orders), g') →
  ∃ docs,
    docs2tensor docs (pad src_dict) (index src_dict "</s>"%string)
      = Ok (src_tokens, doc_pad_mask, segment_ids, cpos, nsents) ∧
    length docs ≤ length samples ∧
    Forall2 (λ d order, order ≡ₚ seq 0 (length d.2)) docs target_orders ∧
    Forall (λ d : list token * list nat,
              (0 ≤ max_tokens_len)%Z →
              (Z.of_nat (length d.1) ≤ max_tokens_len)%Z) docs.
Proof.
  unfold create_src_tok_batch. intros Hrun.
  step_run Hrun. step_run E. subst. rename a into sep.
  step_run Hrun. clear E0 a.
  step_run Hrun. destruct a as [docs orders].
  apply src_tok_docs_orders in E0 as (nd & no & Hd & Ho & Hlen & Hall & Hfit).
  simpl in Hd, Ho. subst nd no.
  step_run Hrun. step_run E0. run. simplify_eq.
  exists docs. split; [|done].
  rewrite !docs2tensor_eq in *. done.
Qed.

End permutation_batch.

(** X7.  The batch of the permutation path keeps the token budget and
    labels every sentence.  It has at most one row per sample; no row of
    [src_tokens] is longer than [max_tokens_len]; and the order array of
    document [i] is a permutation of [0 .. nsents[i] - 1], one target
    position for each of the [nsents[i]] sentences of the row. *)
Theorem create_src_tok_batch_budget {G : Type} `{RandomState G}
    (samples : list sample) (src_dict : Dictionary) (fix_ratio : Q)
    (max_doc_length max_sent_length : option Z) (max_tokens_len : Z)
    (bert_model : string) (g g' : G)
    (src_tokens : tensor2 Z) (doc_pad_mask : tensor2 bool)
    (segment_ids : tensor2 Z) (cpos : tensor2 nat) (nsents : list nat)
    (target_orders : list (list nat)) :
  create_src_tok_batch samples src_dict fix_ratio max_doc_length
    max_sent_length max_tokens_len bert_model g
    = Ok ((src_tokens, doc_pad_mask, segment_ids, cpos, nsents, target_orders), g') →
  length nsents ≤ length samples ∧
  length (torch.data src_tokens) = length nsents ∧
  Forall2 (λ order n, order ≡ₚ seq 0 n) target_orders nsents ∧
  ((0 ≤ max_tokens_len)%Z →
   Forall (λ row, (Z.of_nat (length row) ≤ max_tokens_len)%Z)
     (torch.data src_tokens)).
Proof.
  intros (docs & Hten & Hlen & Horders & Hfit)%create_src_tok_batch_Ok.
  apply docs2tensor_inv in Hten. cbv zeta in Hten.
  destruct (max_lens docs) as [w1 w2] eqn:Hmax. simplify_eq. simpl.
  rewrite !length_fmap. split_and!; [done|done| |].
  - apply Forall2_fmap_r, Forall2_flip. done.
  - intros Hpos.
    assert (Hw : (Z.of_nat w1 ≤ max_tokens_len)%Z).
    { pose proof (max_lens_le docs (Z.to_nat max_tokens_len)) as Hle.
      rewrite Hmax in Hle. simpl in Hle.
      assert (w1 ≤ Z.to_nat max_tokens_len); [|lia]. apply Hle.
      eapply Forall_impl; [exact Hfit|]. simpl. intros d Hd.
      specialize (Hd Hpos). lia. }
    pose proof (max_lens_bound docs) as Hb. rewrite Hmax in Hb. simpl in Hb.
    apply Forall_fmap, Forall_forall. intros d Hd.
    eapply Forall_forall in Hb; [|exact Hd]. simpl.
    unfold padded_tokens. rewrite length_app, length_replicate. lia.
Qed.

(** X8.  The permutation targets can always be built from what
    [create_src_tok_batch] returns: on its order arrays and sentence counts
    [create_target_batch] returns, its length assertion never failing,
    unless the batch has no document at all, in which case it raises
    [ValueError]. *)
Theorem create_target_batch_on_batch {G : Type} `{RandomState G}
    (samples : list sample) (src_dict tgt_dict : Dictionary) (fix_ratio : Q)
    (max_doc_length max_sent_length : option Z) (max_tokens_len : Z)
    (bert_model : string) (poniter_net : bool) (g g' : G)
    (src_tokens : tensor2 Z) (doc_pad_mask : tensor2 bool)
    (segment_ids : tensor2 Z) (cpos : tensor2 nat) (nsents : list nat)
    (target_orders : list (list nat)) :
  create_src_tok_batch samples src_dict fix_ratio max_doc_length
    max_sent_length max_tokens_len bert_model g
    = Ok ((src_tokens, doc_pad_mask, segment_ids, cpos, nsents, target_orders), g') →
  match nsents with
  | [] => create_target_batch target_orders tgt_dict nsents poniter_net
            = Raise ValueError
  | _ => ∃ target prev_output_tokens,
           create_target_batch target_orders tgt_dict nsents poniter_net
             = Ok (target, prev_output_tokens)
  end.
Proof.
  intros (docs & Hten & Hlen & Horders & Hfit)%create_src_tok_batch_Ok.
  apply docs2tensor_inv in Hten. cbv zeta in Hten.
  destruct (max_lens docs) as [w1 w2] eqn:Hmax. simplify_eq.
  destruct ((λ d : list token * list nat, length d.2) <$> docs)
    as [|n nsents] eqn:Hn; [done|].
  rewrite <- Hn.
  eexists _, _. apply create_target_batch_eq with (maxlen := foldr Nat.max 0
    ((λ d : list token * list nat, length d.2) <$> docs)).
  { by rewrite Hn. }
  intros i s Hi. rewrite list_lookup_fmap.
  destruct (Forall2_lookup_r _ _ _ _ _ Horders Hi) as (d & -> & Hperm).
  simpl. by rewrite Hperm, length_seq.
Qed.

(** ** The masking path *)

Section masking_more.
Context {G : Type} `{RandomState G}.
Variable self : SentsPermAndPredictMaskDataset.

(** The sentences outside the selection are moved, never changed. *)
Lemma mask_sentences_moved index (docs : list (list sentence)) p max_pred vocab g
    output_doc selected masked_sents g' :
  Forall (Forall (λ s : sentence, s ≠ [])) docs →
  mask_sentences self index docs p max_pred vocab g
    = Ok ((output_doc, selected, masked_sents), g') →
  ∃ doc shuffled,
    docs !! index = Some doc ∧
    let n := length (truncate_loop (max_tokens_len self) [] doc) in
    n ≤ length doc ∧
    shuffled ≡ₚ take n doc ∧
    length output_doc = n ∧
    (∀ i, i ∈ selected → i < n ∧ shuffled !! i = doc !! i) ∧
    (∀ k, k ∉ selected → output_doc !! k = shuffled !! k) ∧
    Forall2 (λ i orig, doc !! i = Some orig) selected masked_sents.
Proof.
  intros Hne Hrun. unfold mask_sentences in Hrun.
  step_run Hrun. do 2 step_run E. rename a into doc.
  step_run Hrun. rename a into candi. clear E0.
  step_run Hrun. clear E0. rename a into k.
  step_run Hrun. step_run Hrun. rename a0 into shuffled.
  step_run Hrun. destruct a0 as [out masked]. run. simplify_eq.
  apply shuffle_sents_except_Ok in E1 as (Hfixed & Hn & Hlen & Hperm & Hkeep).
  set (sel0 := py.take _ candi) in *.
  assert (Hsel : ∀ i, i ∈ merge_sort le sel0 ↔ i ∈ sel0)
    by (intros i; by rewrite merge_sort_Permutation).
  assert (Hdoc : doc ∈ docs) by by eapply list_elem_of_lookup_2.
  apply corrupt_loop_Ok in E2 as (Hlens & Hout & _ & originals & Hm & Hall);
    [|done|done|].
  2:{ intros i cur orig Hi%Hsel Hcur Horig.
      rewrite Hkeep in Hcur by done. by simplify_eq. }
  simpl in Hm. subst originals.
  exists doc, shuffled. split; [done|]. cbv zeta. split_and!; try done.
  - rewrite <- Hlen. apply (f_equal length) in Hlens.
    by rewrite !length_fmap in Hlens.
  - intros i Hi%Hsel. split; [|by apply Hkeep].
    by eapply Forall_forall in Hfixed.
Qed.

End masking_more.

(** X9.  What [mask_sentences] returns beside the corrupted sentences.
    [masked_sents], the prediction targets, are the original sentences of the
    document at the selected positions, in the order of [selected_indexes].
    The output document has as many sentences as the document retains within
    [max_tokens_len] tokens; at the positions outside the selection it holds
    original sentences, moved among these positions and never changed. *)
Theorem mask_sentences_targets {G : Type} `{RandomState G}
    (self : SentsPermAndPredictMaskDataset) (index : nat)
    (docs : list (list sentence)) (doc : list sentence)
    (p : Q) (max_pred : Z) (vocab : Dictionary) (g g' : G)
    (output_doc : list sentence) (selected : list nat)
    (masked_sents : list sentence) :
  Forall (Forall (λ s : sentence, s ≠ [])) docs →
  docs !! index = Some doc →
  mask_sentences self index docs p max_pred vocab g
    = Ok ((output_doc, selected, masked_sents), g') →
  let n := length (truncate_loop (max_tokens_len self) [] doc) in
  length output_doc = n ∧
  length masked_sents = length selected ∧
  (∀ j i, selected !! j = Some i → i < n ∧ masked_sents !! j = doc !! i) ∧
  ∃ shuffled,
    shuffled ≡ₚ take n doc ∧
    (∀ i, i ∈ selected → shuffled !! i = doc !! i) ∧
    (∀ k, k ∉ selected → output_doc !! k = shuffled !! k).
Proof.
  intros Hne Hdoc Hrun n.
  apply mask_sentences_moved in Hrun
    as (doc' & shuffled & Hdoc' & _ & Hperm & Hlen & Hsel & Hout & Hall); [|done].
  simplify_eq. fold n in Hperm, Hlen, Hsel.
  split_and!; [done|by erewrite <- Forall2_length| |].
  - intros j i Hj.
    destruct (Forall2_lookup_l _ _ _ _ _ Hall Hj) as (orig & -> & ->).
    split; [|done]. apply Hsel. by eapply list_elem_of_lookup_2.
  - exists shuffled. split_and!; [done| |done]. intros i Hi. by apply Hsel.
Qed.

(** X10.  The replacement sentence of the third corruption branch is a
    sentence of some document of the batch; the ten draws do not make it
    come from a different document, and in a batch of one document it always
    comes from the document that is being corrupted. *)
Theorem get_rnd_sent_from_batch {G : Type} `{RandomState G}
    (index : nat) (docs : list (list sentence)) (g g' : G) (rnd_sent : sentence) :
  get_rnd_sent index docs g = Ok (rnd_sent, g') →
  (∃ doc, doc ∈ docs ∧ rnd_sent ∈ doc) ∧
  (∀ doc, docs = [doc] → rnd_sent ∈ doc).
Proof.
  intros (doc & Hdoc & Hs)%get_rnd_sent_Ok. split; [by exists doc|].
  intros doc' ->. by apply list_elem_of_singleton in Hdoc as ->.
Qed.

(** ** Construction and the checks of the two paths *)

(** X11.  A dataset that [__init__] has built passes the check of
    [get_docs]: on the dictionary it was built with, [get_docs] returns for
    every batch and every cap. *)
Theorem init_get_docs (o : options) (self : SentsPermAndPredictMaskDataset)
    (samples : list sample) (maxlen max_doc_length : option Z) (max_tokens_len : Z) :
  init o = Ok self →
  opts self = o ∧
  min_predictions_per_doc self = 1%Z ∧
  ∃ docs cls_poses,
    get_docs samples (src_dict self) maxlen max_doc_length max_tokens_len
      (bert_model self) = Ok (docs, cls_poses).
Proof.
  unfold init. intros Hrun. step_run Hrun. step_run Hrun. step_run E0.
  apply negb_true_iff, Z.eqb_neq in E0. injection Hrun as <-. simpl.
  split; [done|]. split; [done|]. by eapply get_docs_total.
Qed.

Lemma bind_raise {G A B} (m : M G A) (f : A → M G B) g e :
  m g = Raise e → (m ≫= f) g = Raise e.
Proof. unfold mbind, M_bind. by intros ->. Qed.

(** X12.  The check of the permutation path is not the check of
    [__init__]: [create_src_tok_batch] asserts that the separator id is not
    [1], whatever the unknown-token id is.  So for a dataset that [__init__]
    has built with a number for [max_sent_len] (as [options] has it; with
    the default [None], [collate] raises [TypeError] before it calls
    anything), on a vocabulary that gives the separator the id [1],
    [collater] raises [AssertionError] on every batch that is not empty and
    whose sample ids are int64, and [RuntimeError], from the tensor of ids,
    when an id is not one. *)
Theorem collater_separator_one {G : Type} `{RandomState G}
    (o : options) (self : SentsPermAndPredictMaskDataset)
    (samples : list sample) (g : G) :
  init o = Ok self →
  sent_sep_idx self = 1%Z →
  samples ≠ [] →
  collater self samples g
  = Raise (if forallb torch.fits_long (id <$> samples)
           then AssertionError else RuntimeError).
Proof.
  unfold init. intros Hrun Hone Hne. do 2 step_run Hrun.
  injection Hrun as <-. simpl in Hone.
  unfold collater, collate. simpl.
  rewrite decide_False by (by destruct samples). unfold torch.LongTensor.
  destruct (forallb torch.fits_long (id <$> samples)); [|done].
  rewrite (lift_run _ _ _ _ eq_refl).
  apply bind_raise. unfold create_src_tok_batch.
  rewrite (lift_run _ _ _ _ E). cbv zeta. rewrite Hone. done.
Qed.

Lemma py_take_nil {A} (n : Z) : py.take n (@nil A) = [].
Proof. unfold py.take. by case_match; rewrite take_nil. Qed.

Section no_sentences.
Context {G : Type} `{RandomState G}.

Lemma src_tok_docs_empty sep_id cls_idx fix_ratio max_doc_length max_sent_length
    max_tokens_len samples acc (g : G) :
  Forall (λ s, source s = []) samples →
  py.for_each
    (src_tok_doc sep_id cls_idx fix_ratio max_doc_length max_sent_length
       max_tokens_len) acc samples g = Ok (acc, g).
Proof.
  induction 1 as [|s samples Hs _ IH]; simpl; [done|].
  erewrite bind_run; [exact IH|].
  destruct acc as [docs orders]. unfold src_tok_doc. rewrite Hs. cbv zeta.
  change (split_list [] sep_id) with (@nil (list Z)).
  by destruct max_doc_length as [n|], max_sent_length; try destruct (n =? 0)%Z;
    rewrite ?py_take_nil.
Qed.

Lemma get_docs_empty sep_id cls_idx max_sent_length max_doc_length
    max_tokens_len samples acc :
  Forall (λ s, source s = []) samples →
  py.for_each
    (get_doc sep_id cls_idx max_sent_length max_doc_length max_tokens_len)
    acc samples = Ok acc.
Proof.
  induction 1 as [|s samples Hs _ IH]; [done|]. cbn [py.for_each].
  assert (Hstep : get_doc sep_id cls_idx max_sent_length max_doc_length
                    max_tokens_len acc s = Ok acc).
  { destruct acc as [docs cls_poses]. unfold get_doc. rewrite Hs. cbv zeta.
    change (split_list [] sep_id) with (@nil (list Z)).
    by destruct max_doc_length as [n|], max_sent_length; rewrite ?py_take_nil. }
  by rewrite Hstep, rbind_Ok_l.
Qed.

End no_sentences.

(** X13.  A batch whose samples are all without tokens does not give an
    empty batch.  For a dataset with a number for [max_sent_len] (as
    [options] has it; with the default [None], [collate] raises [TypeError]
    before it calls anything) and a pad id that is an int64, both paths skip
    every sample, and the masking path then takes the maximum of an empty
    list, so that [collate] raises [ValueError]; when a sample id is not an
    int64, the tensor of ids raises [RuntimeError] before that. *)
Theorem collate_no_sentences {G : Type} `{RandomState G}
    (self : SentsPermAndPredictMaskDataset) (samples : list sample)
    (vocab tgt_dict : Dictionary) (is_poniter_net : bool)
    (max_doc_length : option Z) (sep : string) (g : G) :
  dict_get sent_sep_dic (bert_model self) = Ok sep →
  index vocab sep ≠ 1%Z →
  index vocab sep ≠ unk_index vocab →
  torch.fits_long (pad vocab) = true →
  samples ≠ [] →
  Forall (λ s, source s = []) samples →
  collate self samples vocab tgt_dict is_poniter_net max_doc_length g
  = Raise (if forallb torch.fits_long (id <$> samples)
           then ValueError else RuntimeError).
Proof.
  intros Hsep Hone Hunk Hpad Hne Hall. unfold collate.
  rewrite decide_False by (by destruct samples). unfold torch.LongTensor.
  destruct (forallb torch.fits_long (id <$> samples)); [|done].
  rewrite (lift_run _ _ _ _ eq_refl).
  assert (Hperm : ∃ r, create_src_tok_batch samples vocab (fix_ratio self)
    max_doc_length (Some (max_sent_len self + 1)%Z) (max_tokens_len self)
    (bert_model self) g = Ok (r, g)).
  { unfold create_src_tok_batch. rewrite (lift_run _ _ _ _ Hsep). cbv zeta.
    destruct (Z.eqb_spec (index vocab sep) 1); [done|]. simpl negb.
    rewrite (lift_run _ _ _ tt) by done.
    rewrite (bind_run _ _ _ _ _ (src_tok_docs_empty _ _ _ _ _ _ _ _ _ Hall)).
    cbv beta iota. rewrite docs2tensor_eq, Hpad. cbn [forallb andb max_lens foldl].
    by eexists. }
  destruct Hperm as [[[[[[t1 m1] s1] c1] n1] o1] Hperm].
  rewrite (bind_run _ _ _ _ _ Hperm). cbv beta iota.
  apply bind_raise. unfold create_batch.
  assert (Hdocs : get_docs samples vocab (Some (max_sent_len self + 1)%Z)
    (max_doc_len self) (max_tokens_len self) (bert_model self)
    = Ok ([], [])).
  { unfold get_docs. rewrite Hsep, rbind_Ok_l. cbv zeta.
    destruct (Z.eqb_spec (index vocab sep) (unk_index vocab)); [done|].
    simpl. by apply get_docs_empty. }
  rewrite (lift_run _ _ _ _ Hdocs). cbv beta iota. cbn [length seq py.for_each].
  erewrite bind_run by reflexivity.
  cbv beta iota. rewrite doc2tensor_docs2tensor, docs2tensor_eq, Hpad.
  done.
Qed.

(** ** The tensor of selected positions *)

Lemma selected_rows_loop (w : nat) sz (rest : list (list nat)) :
  ∀ (done : list (list nat)),
  Forall (λ sel, length sel ≤ w) rest →
  py.for_each
    (λ tgt_selected_indexes '(i, sel_idxs),
       let si_len := length sel_idxs in
       positions ← torch.LongTensor_nat sel_idxs;
       torch.set_row_slice tgt_selected_indexes i 0 si_len positions)
    (torch.Tensor sz (((λ sel, sel ++ replicate (w - length sel) 0) <$> done)
                        ++ replicate (length rest) (replicate w 0)))
    (zip (seq (length done) (length rest)) rest)
  = if forallb (forallb (λ p, torch.fits_long (Z.of_nat p))) rest
    then Ok (torch.Tensor sz ((λ sel, sel ++ replicate (w - length sel) 0)
                                <$> (done ++ rest)))
    else Raise RuntimeError.
Proof.
  induction rest as [|sel rest IH]; intros done Hall.
  - simpl. by rewrite !app_nil_r.
  - apply Forall_cons in Hall as [Hsel Hall].
    cbn [length seq zip zip_with py.for_each forallb]. cbn beta iota zeta.
    unfold torch.LongTensor_nat.
    destruct (forallb _ sel); [|done]. rewrite rbind_Ok_l. cbn [andb].
    rewrite set_row_slice_next, rbind_Ok_l by done.
    specialize (IH (done ++ [sel]) Hall).
    rewrite !fmap_app, length_app in IH. simpl in IH.
    replace (length done + 1) with (S (length done)) in IH by lia.
    rewrite <- !app_assoc in IH. simpl in IH.
    rewrite !fmap_app, !fmap_cons. exact IH.
Qed.

Lemma max_nsent2_loop (docs_masked_sents : list (list sentence)) :
  ∀ a b a' b',
  py.for_each
    (λ '(max_nsent2, max_sent_len) masked_sents,
       let max_nsent2 := max_nsent2 `max` length masked_sents in
       local_max_sent_len ← py.max_list (length <$> masked_sents);
       mret (max_nsent2, max_sent_len `max` local_max_sent_len))
    (a, b) docs_masked_sents = Ok (a', b') →
  a' = a `max` foldr Nat.max 0 (length <$> docs_masked_sents) ∧
  Forall (λ ms, ms ≠ []) docs_masked_sents.
Proof.
  induction docs_masked_sents as [|ms l IH]; intros a b a' b' Hrun;
    simpl in Hrun.
  - step_run Hrun. simplify_eq. simpl. split; [lia|constructor].
  - step_run Hrun. step_run E. step_run E. subst a0.
    apply IH in Hrun as [-> Hall]. rewrite fmap_cons. cbn [foldr].
    split; [lia|]. constructor; [|done]. by destruct ms.
Qed.

(** X14.  The tensor of selected positions.  [masked_sents2tensor] returns
    only on a batch that has a document, in which every document has at
    least one masked sentence (otherwise a maximum of an empty list raises
    [ValueError]), and in which the longest selection is as long as the
    longest list of masked sentences.  Row [i] of [tgt_selected_indexes] is
    then the selection of document [i] followed by zeros, which read as
    position [0]. *)
Theorem masked_sents2tensor_indexes (self : SentsPermAndPredictMaskDataset)
    (docs_selected_indexes : list (list nat))
    (docs_masked_sents : list (list sentence))
    (tgt_selected_indexes : tensor2 nat)
    (tgt_input_masked_sents tgt_masked_sents : tensor3 Z) :
  masked_sents2tensor self docs_selected_indexes docs_masked_sents
    = Ok (tgt_selected_indexes, tgt_input_masked_sents, tgt_masked_sents) →
  docs_selected_indexes ≠ [] ∧
  Forall (λ masked_sents, masked_sents ≠ []) docs_masked_sents ∧
  ∃ max_nsent,
    max_nsent = foldr Nat.max 0 (length <$> docs_selected_indexes) ∧
    max_nsent = foldr Nat.max 0 (length <$> docs_masked_sents) ∧
    torch.size tgt_selected_indexes = [length docs_selected_indexes; max_nsent] ∧
    length (torch.data tgt_selected_indexes) = length docs_selected_indexes ∧
    ∀ i sel_idxs, docs_selected_indexes !! i = Some sel_idxs →
      length sel_idxs ≤ max_nsent ∧
      torch.data tgt_selected_indexes !! i
        = Some (sel_idxs ++ replicate (max_nsent - length sel_idxs) 0).
Proof.
  intros Hrun. unfold masked_sents2tensor in Hrun.
  step_run Hrun. rename a into max_nsent.
  assert (Hne : docs_selected_indexes ≠ []) by (by intros ->).
  assert (Hmax : max_nsent = foldr Nat.max 0 (length <$> docs_selected_indexes)).
  { destruct docs_selected_indexes; [done|]. by injection E as <-. }
  assert (Hb : Forall (λ sel : list nat, length sel ≤ max_nsent)
                 docs_selected_indexes).
  { rewrite Hmax. pose proof (foldr_max_bound (length <$> docs_selected_indexes)) as Hf.
    by apply Forall_fmap in Hf. }
  step_run Hrun. unfold torch.full2, py.enumerate in E0.
  pose proof (selected_rows_loop max_nsent
    [length docs_selected_indexes; max_nsent] docs_selected_indexes [] Hb) as Hloop.
  simpl in Hloop. rewrite Hloop in E0. clear Hloop.
  destruct (forallb _ docs_selected_indexes); [|done]. injection E0 as <-.
  step_run Hrun. destruct a as [max_nsent2 width].
  apply max_nsent2_loop in E0 as [-> Hall]. simpl in Hrun.
  step_run Hrun. step_run E0. apply bool_decide_eq_true_1 in E0.
  do 2 step_run Hrun. destruct a1 as [tin tgt]. run. simplify_eq.
  split; [done|]. split; [done|].
  exists (foldr Nat.max 0 (length <$> docs_masked_sents)).
  split; [done|]. simpl. rewrite length_fmap.
  split_and!; try done.
  intros i sel Hi. rewrite list_lookup_fmap, Hi. simpl. split; [|done].
  by eapply Forall_lookup_1 in Hb.
Qed.

(** ** Attention masks *)

Lemma mask_others_unbound (src_tokens : tensor2 Z) (cpos : tensor2 nat)
    (pad_idx : token) bsz width rows c row0 :
  torch.size src_tokens = [bsz; width] →
  torch.size cpos = [rows; c] →
  0 < bsz → 0 < rows →
  torch.data cpos !! 0 = Some row0 →
  length row0 ≤ 1 →
  mask_others src_tokens cpos true pad_idx = Raise UnboundLocalError.
Proof.
  intros Hs Hc Hbsz Hrows Hrow Hlen. unfold mask_others. rewrite Hs, Hc.
  destruct rows as [|rows]; [lia|]. destruct bsz as [|bsz]; [lia|].
  cbn [seq py.for_each replicate].
  rewrite (py_index_Some _ _ _ Hrow), rbind_Ok_l.
  erewrite (py_index_Some (_ :: _) 0) by reflexivity. rewrite rbind_Ok_l.
  replace (drop 1 row0) with (@nil nat)
    by (by destruct row0 as [|p [|q row0]]; simpl in *; [..|lia]).
  by rewrite zip_with_nil_r.
Qed.

Lemma max_lens_le_2 (docs : list (list token * list nat)) (b : nat) :
  Forall (λ d, length d.2 ≤ b) docs → (max_lens docs).2 ≤ b.
Proof.
  unfold max_lens. intros Hall.
  assert (Hgen : ∀ acc : nat * nat, acc.2 ≤ b →
    (foldl (λ '(max_doc_len, max_nsent) '(doc, cls_pos),
              (length doc `max` max_doc_len, max_nsent `max` length cls_pos))
           acc docs).2 ≤ b).
  { induction Hall as [|[doc cls_pos] docs Hd _ IH]; intros [m1 m2] Hacc; simpl;
      [done|].
    apply IH. simpl in *. lia. }
  apply Hgen. simpl. lia.
Qed.

(** X15.  With [mask_other_sents] on, [mask_others] reads the loop
    variables [j] and [k] after its inner loop.  On the tensors of a batch
    in which no document has more than one sentence the inner loop has
    nothing to run through, so that on every such batch that is not empty
    [mask_others] raises [UnboundLocalError]. *)
Theorem mask_others_single_sentence (docs : list (list token * list nat))
    (pad_idx sep_id pad_idx' : token)
    (src_tokens : tensor2 Z) (doc_pad_mask : tensor2 bool)
    (segment_ids : tensor2 Z) (cpos : tensor2 nat) (nsents : list nat) :
  docs ≠ [] →
  Forall (λ d, length d.2 ≤ 1) docs →
  docs2tensor docs pad_idx sep_id
    = Ok (src_tokens, doc_pad_mask, segment_ids, cpos, nsents) →
  mask_others src_tokens cpos true pad_idx' = Raise UnboundLocalError.
Proof.
  intros Hne Hone Hten. apply docs2tensor_inv in Hten. cbv zeta in Hten.
  pose proof (max_lens_le_2 docs 1 Hone) as Hw.
  destruct (max_lens docs) as [w1 w2]. simplify_eq. simpl in Hw.
  destruct docs as [|d docs]; [done|].
  apply Forall_cons in Hone as [Hd _].
  eapply mask_others_unbound with (row0 := padded_cls_pos w2 d);
    [done|done|simpl; lia|simpl; lia|done|].
  unfold padded_cls_pos. rewrite length_app, length_replicate. lia.
Qed.

(** ** Examples and their sizes *)

(** X16.  The order in which the examples are visited.  [ordered_indices]
    always returns, a permutation of the indices [0 .. len(self) - 1]
    (these indices in order, and the generator untouched, when [shuffle] is
    off); so every example is visited once, and on every index of the order
    [__getitem__] returns, the example it returns carrying that index as its
    [id], provided there are as many targets as sources. *)
Theorem ordered_indices_examples {G : Type} `{RandomState G}
    (self : examples) (g : G) :
  (∀ targets, tgt self = Some targets → length targets = len self) →
  ∃ indices g',
    ordered_indices self g = Ok (indices, g') ∧
    indices ≡ₚ seq 0 (len self) ∧
    (shuffle self = false → indices = seq 0 (len self) ∧ g' = g) ∧
    Forall (λ index, ∃ s, getitem self index = Ok s ∧ id s = Z.of_nat index ∧
                          src self !! index = Some (source s)) indices.
Proof.
  intros Htgt.
  assert (Hget : ∀ indices, indices ≡ₚ seq 0 (len self) →
    Forall (λ index, ∃ s, getitem self index = Ok s ∧ id s = Z.of_nat index ∧
                          src self !! index = Some (source s)) indices).
  { intros indices Hperm. apply Forall_forall. intros index Hin.
    rewrite Hperm in Hin. apply elem_of_seq in Hin as [_ Hin]. simpl in Hin.
    unfold getitem, len in *.
    destruct (lookup_lt_is_Some_2 (src self) index Hin) as [s Hs].
    rewrite (py_index_Some _ _ _ Hs), rbind_Ok_l.
    destruct (tgt self) as [targets|] eqn:Ht.
    - specialize (Htgt _ eq_refl).
      destruct (lookup_lt_is_Some_2 targets index) as [t Hti]; [lia|].
      rewrite (py_index_Some _ _ _ Hti). by eexists.
    - by eexists. }
  unfold ordered_indices. destruct (shuffle self).
  - destruct (shuffle_total (np.arange (len self)) g) as (indices & g' & Hrun & Hperm).
    exists indices, g'. split; [done|]. split; [done|]. split; [done|].
    by apply Hget.
  - exists (seq 0 (len self)), g. split; [done|]. split; [done|].
    split; [done|]. by apply Hget.
Qed.

(** X17.  Size filtering.  An example that [valid_size] accepts under the
    limits of a caller fits the limits of the dataset and those of the
    caller, on the source side and, when there are targets, on the target
    side; it is accepted without the caller's limits too; and its
    [num_tokens] is the larger component of its [size]. *)
Theorem valid_size_limits (self : examples) (index : Z)
    (max_positions : option (list Z)) :
  valid_size self index max_positions = Ok true →
  ∃ src_size tgt_size,
    size self index = Ok (src_size, tgt_size) ∧
    num_tokens self index = Ok (Z.max src_size tgt_size) ∧
    (src_size ≤ max_source_positions self)%Z ∧
    (tgt_sizes self ≠ None → (tgt_size ≤ max_target_positions self)%Z) ∧
    (∀ max_src_pos max_tgt_pos,
       max_positions = Some [max_src_pos; max_tgt_pos] →
       (src_size ≤ max_src_pos)%Z ∧
       (tgt_sizes self ≠ None → (tgt_size ≤ max_tgt_pos)%Z)) ∧
    valid_size self index None = Ok true.
Proof.
  unfold valid_size, size, num_tokens. intros Hrun.
  step_run Hrun. destruct a as [msp mtp]. step_run Hrun.
  rename a into src_size. rewrite E0. simpl.
  destruct (Z.leb_spec src_size msp) as [Hsrc|]; [|done].
  assert (Hlim : (msp ≤ max_source_positions self)%Z ∧
                 (mtp ≤ max_target_positions self)%Z ∧
                 ∀ a b, max_positions = Some [a; b] → (msp ≤ a)%Z ∧ (mtp ≤ b)%Z).
  { unfold _get_max_positions in E. destruct max_positions as [l|].
    - step_run E. destruct l as [|x [|y [|z l]]]; simplify_eq.
      split; [lia|]. split; [lia|]. intros ? ? [= <- <-]. lia.
    - simplify_eq. split; [lia|]. split; [lia|]. done. }
  destruct Hlim as (Hmsp & Hmtp & Hcaller).
  destruct (tgt_sizes self) as [ts|] eqn:Hts.
  - step_run Hrun. rename a into tgt_size. simplify_eq.
    apply Z.leb_le in Hrun. rewrite E1. simpl.
    exists src_size, tgt_size. split; [done|]. split; [done|].
    split; [lia|]. split; [intros _; lia|]. split.
    + intros a b Hmp. destruct (Hcaller a b Hmp). split; [lia|intros _; lia].
    + destruct (Z.leb_spec src_size (max_source_positions self)); [|lia].
      f_equal. apply Z.leb_le. lia.
  - exists src_size, 0%Z. split; [done|]. split; [done|].
    split; [lia|]. split; [done|]. split.
    + intros a b Hmp. destruct (Hcaller a b Hmp). split; [lia|done].
    + destruct (Z.leb_spec src_size (max_source_positions self)); [done|lia].
Qed.

(** ** The source of the dummy batch *)

Lemma split_list_concat key (closed : list sentence) (remainder : sentence) :
  Forall (closed_sentence key) closed →
  key ∉ remainder →
  split_list (concat closed ++ remainder) key
  = closed ++ (match remainder with [] => [] | _ => [remainder] end).
Proof.
  intros Hall Hk. unfold split_list.
  rewrite split_list_loop_closed by done.
  rewrite <- (app_nil_r remainder), split_list_loop_body by done.
  simpl. destruct remainder; simpl; by rewrite ?app_nil_r.
Qed.

Lemma create_src_eq (self : SentsPermAndPredictMaskDataset)
    (sent_len last_sent_len : Z) (n : nat) :
  create_src self sent_len last_sent_len (Z.of_nat (S n))
  = concat (replicate n (replicate (Z.to_nat (sent_len - 1))
                           (unk_index (src_dict self)) ++ [sent_sep_idx self]))
      ++ replicate (Z.to_nat (last_sent_len - 1)) (unk_index (src_dict self)).
Proof.
  unfold create_src. rewrite Nat2Z.id.
  match goal with |- foldl ?f0 _ _ = _ => set (f := f0) end.
  assert (Hgen : ∀ m k acc, k + m ≤ n →
    foldl f acc (seq k m)
    = acc ++ concat (replicate m (replicate (Z.to_nat (sent_len - 1))
                                    (unk_index (src_dict self))
                                    ++ [sent_sep_idx self]))).
  { induction m as [|m IH]; intros k acc Hk; cbn [seq foldl replicate concat].
    - by rewrite app_nil_r.
    - rewrite IH by lia. unfold f. rewrite !decide_True by lia.
      by rewrite <- !app_assoc. }
  rewrite seq_S, foldl_app, Hgen by lia. cbn [foldl]. unfold f.
  by rewrite !decide_False by lia.
Qed.

Lemma length_concat_replicate {A} (n : nat) (l : list A) :
  length (concat (replicate n l)) = n * length l.
Proof. induction n as [|n IH]; simpl; [done|]. by rewrite length_app, IH. Qed.

(** X18.  The source of the dummy batch.  For [1 <= max_doc_len <=
    max_tokens_len], the document that [get_dummy_batch] builds has
    [max_tokens_len - 1] tokens, one less than the budget; as the separator
    is not the unknown token, [split_list] cuts it into [max_doc_len - 1]
    sentences of [max_tokens_len // max_doc_len] tokens, each closed by the
    separator, and a last sentence of unknown tokens, which is missing when
    [max_doc_len = max_tokens_len]. *)
Theorem create_src_sentences (self : SentsPermAndPredictMaskDataset)
    (max_doc_length : Z) :
  max_doc_len self = Some max_doc_length →
  (1 ≤ max_doc_length ≤ max_tokens_len self)%Z →
  sent_sep_idx self ≠ unk_index (src_dict self) →
  ∃ sent_len last_sent_len,
    dummy_sent_lens self = Some (sent_len, last_sent_len) ∧
    sent_len = (max_tokens_len self / max_doc_length)%Z ∧
    (1 ≤ sent_len ≤ last_sent_len)%Z ∧
    let doc := create_src self sent_len last_sent_len max_doc_length in
    Z.of_nat (length doc) = (max_tokens_len self - 1)%Z ∧
    split_list doc (sent_sep_idx self)
    = replicate (Z.to_nat (max_doc_length - 1))
        (replicate (Z.to_nat (sent_len - 1)) (unk_index (src_dict self))
           ++ [sent_sep_idx self])
      ++ (if (last_sent_len =? 1)%Z then []
          else [replicate (Z.to_nat (last_sent_len - 1))
                  (unk_index (src_dict self))]) ∧
    (last_sent_len = 1%Z ↔ max_doc_length = max_tokens_len self).
Proof.
  intros Hd [Hd1 HdT] Hsep.
  set (T := max_tokens_len self) in *.
  set (q := (T / max_doc_length)%Z).
  set (l := (T - (max_doc_length - 1) * q)%Z).
  assert (Hq : (1 ≤ q)%Z).
  { unfold q. apply Z.div_le_lower_bound; lia. }
  assert (Hmul : (max_doc_length * q ≤ T)%Z).
  { unfold q. apply Z.mul_div_le. lia. }
  assert (Hlt : (T < max_doc_length * (q + 1))%Z).
  { unfold q. pose proof (Z.mul_succ_div_gt T max_doc_length ltac:(lia)). lia. }
  assert (Hl : (q ≤ l)%Z) by (unfold l; nia).
  exists q, l. split.
  { unfold dummy_sent_lens. rewrite Hd.
    destruct (Z.eqb_spec max_doc_length 0); [lia|done]. }
  split; [done|]. split; [lia|]. cbv zeta.
  replace max_doc_length with (Z.of_nat (S (Z.to_nat (max_doc_length - 1))))
    at 1 2 by lia.
  rewrite create_src_eq. split; [|split].
  - rewrite length_app, length_replicate, length_concat_replicate, length_app,
      length_replicate. simpl.
    rewrite Nat2Z.inj_add, Nat2Z.inj_mul, Nat2Z.inj_add.
    rewrite !Z2Nat.id by lia. unfold l. lia.
  - rewrite split_list_concat.
    + f_equal. destruct (Z.eqb_spec l 1) as [->|Hl1]; [done|].
      destruct (Z.to_nat (l - 1)) eqn:Hn; [lia|done].
    + apply Forall_replicate. eexists. split; [done|].
      by intros Hin%elem_of_replicate_inv.
    + by intros Hin%elem_of_replicate_inv.
  - unfold l. nia.
Qed.

(** ** Blocks of an attention mask *)

Lemma splice_lookup {A} (l mid : list A) (start n i : nat) :
  start + n ≤ length l →
  length mid = n →
  (take start l ++ mid ++ drop (start + n) l) !! i
  = if decide (start ≤ i < start + n) then mid !! (i - start) else l !! i.
Proof.
  intros Hle Hmid. case_decide as Hi.
  - rewrite lookup_app_r; rewrite length_take; [|lia].
    replace (start `min` length l) with start by lia.
    rewrite lookup_app_l by lia. done.
  - destruct (decide (i < start)) as [Hlt|Hge].
    + rewrite lookup_app_l by (rewrite length_take; lia).
      by rewrite lookup_take_lt.
    + rewrite lookup_app_r; rewrite length_take; [|lia].
      replace (start `min` length l) with start by lia.
      rewrite lookup_app_r by lia. rewrite lookup_drop. f_equal. lia.
Qed.

Lemma fill_slice_lookup {A} (row : list A) (lo hi b : nat) (v old : A) :
  row !! b = Some old →
  torch.fill_slice row lo hi v !! b
  = Some (if decide (lo ≤ b < hi) then v else old).
Proof.
  intros Hb. pose proof (lookup_lt_Some _ _ _ Hb) as Hlt.
  unfold torch.fill_slice, torch.clamp_slice.
  rewrite splice_lookup by (rewrite ?length_replicate; lia).
  repeat case_decide; try lia; [|done].
  apply lookup_replicate_2. lia.
Qed.

Lemma set_block_cell (m : list (list bool)) (lo hi a b : nat) (old : bool) :
  cell m a b = Some old →
  cell (set_block m lo hi) a b
  = Some (if decide (in_range a b (lo, hi)) then true else old).
Proof.
  unfold cell. intros Hcell.
  destruct (m !! a) as [row|] eqn:Ha; [|done]. simpl in Hcell.
  pose proof (lookup_lt_Some _ _ _ Ha) as Hlt.
  unfold set_block, torch.clamp_slice.
  rewrite splice_lookup;
    [|lia|rewrite length_fmap, length_take, length_drop; lia].
  unfold in_range. simpl. case_decide as Hin.
  - rewrite list_lookup_fmap, lookup_take_lt, lookup_drop by lia.
    replace (lo `min` (hi `min` length m) + (a - lo `min` (hi `min` length m)))
      with a by lia.
    rewrite Ha. simpl. rewrite (fill_slice_lookup _ _ _ _ _ _ Hcell).
    repeat case_decide; try done; lia.
  - rewrite Ha. simpl. rewrite Hcell. case_decide; [lia|done].
Qed.

(** The blocks set one after the other. *)
Lemma set_blocks_cell (blocks : list (nat * nat)) :
  ∀ (m : list (list bool)) (a b : nat) (old : bool),
  cell m a b = Some old →
  cell (foldl (λ m r, set_block m r.1 r.2) m blocks) a b
  = Some (bool_decide (Exists (in_range a b) blocks) || old).
Proof.
  induction blocks as [|[lo hi] blocks IH]; intros m a b old Hcell; simpl.
  - done.
  - erewrite IH; [|by apply set_block_cell]. f_equal.
    destruct (decide (in_range a b (lo, hi))) as [Hin|Hout].
    + rewrite orb_true_r. symmetry. rewrite orb_true_iff. left.
      apply bool_decide_eq_true_2. by left.
    + f_equal. apply bool_decide_ext. rewrite Exists_cons. naive_solver.
Qed.

Lemma sentence_blocks_eq (pairs : list (nat * nat)) :
  ∀ jk (plane : list (list (list bool))),
  sentence_blocks pairs jk plane
  = (left_pair pairs jk,
     (λ m, foldl (λ m r, set_block m r.1 r.2) m (run_pairs pairs)) <$> plane).
Proof.
  induction pairs as [|[j k] pairs IH]; intros jk plane; simpl.
  - by rewrite list_fmap_id.
  - destruct (k =? 0); [by rewrite list_fmap_id|].
    rewrite IH. f_equal. rewrite <- list_fmap_compose. done.
Qed.

Lemma zip_removelast {A B} (l : list A) (k : list B) :
  length k < length l → zip (removelast l) k = zip l k.
Proof.
  revert k. induction l as [|x l IH]; intros k Hk; [by destruct k|].
  destruct l as [|y l]; simpl in *.
  - destruct k; simpl in *; [done|lia].
  - destruct k as [|z k]; [done|]. simpl. f_equal. apply IH. simpl in *. lia.
Qed.

Section consecutive.
Variable z : nat.

Lemma run_pairs_starts (rest : list nat) : ∀ s,
  Forall (λ p, p ≠ 0) rest →
  run_pairs (zip (s :: rest ++ replicate z 0) (rest ++ replicate z 0))
  = zip (s :: rest) rest.
Proof.
  induction rest as [|r rest IH]; intros s Hall; simpl.
  - by destruct z.
  - apply Forall_cons in Hall as [Hr Hall].
    destruct (Nat.eqb_spec r 0); [done|]. f_equal. by apply IH.
Qed.

Lemma left_pair_starts (rest : list nat) : ∀ s jk,
  Forall (λ p, p ≠ 0) rest →
  rest ≠ [] ∨ 0 < z →
  ∃ j k,
    left_pair (zip (s :: rest ++ replicate z 0) (rest ++ replicate z 0)) jk
      = Some (j, k) ∧
    (if k =? 0 then j else k) = default s (last rest).
Proof.
  induction rest as [|r rest IH]; intros s jk Hall Hne; simpl.
  - destruct Hne as [?|Hz]; [done|]. destruct z; [lia|]. simpl.
    by exists s, 0.
  - apply Forall_cons in Hall as [Hr Hall].
    destruct (Nat.eqb_spec r 0); [done|].
    destruct (decide (rest ≠ [] ∨ 0 < z)) as [Hne'|Hnil].
    + destruct (IH r (Some (s, r)) Hall Hne') as (j & k & Hjk & Hk).
      exists j, k. split; [exact Hjk|]. rewrite Hk.
      rewrite (last_cons r rest). by destruct (last rest).
    + assert (rest = [] ∧ z = 0) as [-> ->].
      { destruct rest; [split; [done|lia]|]. exfalso. apply Hnil. by left. }
      simpl. exists s, r. split; [done|]. by destruct (Nat.eqb_spec r 0).
Qed.

End consecutive.

Lemma sentence_ranges_snoc (s : nat) (rest : list nat) (n : nat) :
  sentence_ranges (s :: rest) n = zip (s :: rest) rest ++ [(default s (last rest), n)].
Proof.
  unfold sentence_ranges. simpl. revert s.
  induction rest as [|r rest IH]; intros s; simpl; [done|].
  f_equal. rewrite IH. do 3 f_equal.
  rewrite (last_cons r rest). by destruct (last rest).
Qed.

Lemma filter_non_pad (pad_idx : token) (row : list token) :
  length (filter (λ b, b = true) (map (λ t, negb (t =? pad_idx)%Z) row))
  = length (filter (λ t, t ≠ pad_idx) row).
Proof.
  induction row as [|t row IH]; [done|]. simpl. rewrite !filter_cons.
  destruct (Z.eqb_spec t pad_idx); simpl; repeat case_decide; simpl;
    congruence.
Qed.

Section mask_rows.
Variables (width c : nat) (n_tokens : list nat) (starts : list (list nat)).
Hypothesis Hc : 2 ≤ c.
Hypothesis Hstarts :
  Forall (λ st, 1 ≤ length st ≤ c ∧ Forall (λ p, p ≠ 0) (drop 1 st)) starts.
Hypothesis Hn : length n_tokens = length starts.

Let blocks (m : list (list bool)) (rs : list (nat * nat)) : list (list bool) :=
  foldl (λ m r, set_block m r.1 r.2) m rs.
Let plane_of (sn : list nat * nat) : list (list (list bool)) :=
  [blocks (replicate width (replicate width false)) (sentence_ranges sn.1 sn.2)].

Lemma mask_row (st : list nat) (n : nat) jk (plane : list (list (list bool))) :
  1 ≤ length st ≤ c →
  Forall (λ p, p ≠ 0) (drop 1 st) →
  ∃ j k,
    sentence_blocks
      (zip (py.take (-1) (st ++ replicate (c - length st) 0))
           (drop 1 (st ++ replicate (c - length st) 0))) jk plane
    = (Some (j, k),
       (λ m, blocks m (zip st (drop 1 st))) <$> plane) ∧
    (if k =? 0 then (λ m, set_block m j n) <$>
                      ((λ m, blocks m (zip st (drop 1 st))) <$> plane)
     else (λ m, set_block m k n) <$>
            ((λ m, blocks m (zip st (drop 1 st))) <$> plane))
    = (λ m, blocks m (sentence_ranges st n)) <$> plane.
Proof using Hc.
  clear Hstarts Hn. intros Hlen Hrest. destruct st as [|s rest]; [simpl in Hlen; lia|].
  simpl in Hlen, Hrest. rewrite drop_0 in Hrest.
  rewrite py_take_removelast.
  change (drop 1 ((s :: rest) ++ ?l)) with (rest ++ l).
  change (drop 1 (s :: rest)) with rest.
  rewrite zip_removelast by (simpl; lia).
  rewrite sentence_blocks_eq.
  change ((s :: rest) ++ ?l) with (s :: rest ++ l).
  rewrite run_pairs_starts by done.
  destruct (left_pair_starts (c - length (s :: rest)) rest s jk Hrest)
    as (j & k & -> & Hk).
  { destruct rest; [right; simpl; lia|by left]. }
  exists j, k. split; [done|].
  rewrite sentence_ranges_snoc. subst blocks. simpl.
  transitivity ((λ m, set_block m (if k =? 0 then j else k) n) <$>
    ((λ m, foldl (λ m r, set_block m r.1 r.2) m (zip (s :: rest) rest)) <$> plane)).
  { by destruct (k =? 0). }
  rewrite Hk, <- list_fmap_compose. apply list_fmap_ext. intros _ m _. simpl.
  by rewrite foldl_app.
Qed.

Lemma mask_others_loop (cpos_data : list (list nat)) :
  cpos_data = (λ st, st ++ replicate (c - length st) 0) <$> starts →
  ∀ r i jk, i + r = length starts →
  ∃ jk',
    py.for_each
      (λ '(jk, token_mask) i,
         cpos_i ← py.index cpos_data i;
         plane ← py.index token_mask i;
         let '(jk, plane) :=
           sentence_blocks (zip (py.take (-1) cpos_i) (drop 1 cpos_i))
             jk plane in
         match jk with
         | None => Raise UnboundLocalError
         | Some (j, k) =>
             n ← py.index n_tokens i;
             let plane :=
               if k =? 0 then (λ m, set_block m j n) <$> plane
               else (λ m, set_block m k n) <$> plane in
             mret (jk, <[i:=plane]> token_mask)
         end)
      (jk, (plane_of <$> take i (zip starts n_tokens))
             ++ replicate r [replicate width (replicate width false)])
      (seq i r)
    = Ok (jk', plane_of <$> zip starts n_tokens).
Proof using Hc Hstarts Hn.
  intros Hcpos r. induction r as [|r IH]; intros i jk Hi.
  - exists jk. simpl. rewrite app_nil_r, take_ge; [done|].
    rewrite length_zip_with. lia.
  - destruct (lookup_lt_is_Some_2 starts i) as [st Hst]; [lia|].
    destruct (lookup_lt_is_Some_2 n_tokens i) as [n Hni]; [lia|].
    destruct (proj1 (Forall_lookup _ _) Hstarts i st Hst) as [Hlen Hrest].
    cbn [seq py.for_each].
    erewrite (py_index_Some cpos_data i)
      by (rewrite Hcpos, list_lookup_fmap, Hst; reflexivity).
    rewrite rbind_Ok_l.
    erewrite (py_index_Some (_ ++ _) i); cycle 1.
    { rewrite lookup_app_r; rewrite length_fmap, length_take, length_zip_with;
        [|lia].
      replace (i - i `min` (length starts `min` length n_tokens)) with 0 by lia.
      reflexivity. }
    rewrite rbind_Ok_l.
    destruct (mask_row st n jk [replicate width (replicate width false)]
                Hlen Hrest) as (j & k & -> & Hfinal).
    rewrite (py_index_Some _ _ _ Hni), rbind_Ok_l. cbv zeta.
    unfold mret, result_ret. rewrite rbind_Ok_l.
    destruct (IH (S i) (Some (j, k))) as [jk' Hloop]; [lia|].
    exists jk'. rewrite <- Hloop. do 2 f_equal.
    rewrite Hfinal.
    rewrite (take_S_r _ _ (st, n)) by (by apply lookup_zip_with_Some; eauto).
    rewrite fmap_app, <- app_assoc. simpl.
    rewrite insert_app_r_alt;
      rewrite length_fmap, length_take, length_zip_with; [|lia].
    replace (i - i `min` (length starts `min` length n_tokens)) with 0 by lia.
    done.
Qed.

End mask_rows.

(** X19.  With [mask_other_sents] on, on a batch whose sentence starts are
    laid out as [docs2tensor] lays them out (the starts of a document, then
    zeros up to the common width [c >= 2]; only the first start may be 0),
    [mask_others] returns one [width x width] plane per document in which
    the cell [(a, b)] is set exactly when the positions [a] and [b] fall in
    one sentence of the document: between two consecutive starts, or between
    the last start and the number of tokens of the row that are not padding. *)
Theorem mask_others_sentence_blocks (src_tokens : tensor2 Z) (cpos : tensor2 nat)
    (pad_idx : token) (starts : list (list nat)) (width c : nat) :
  torch.size src_tokens = [length starts; width] →
  length (torch.data src_tokens) = length starts →
  torch.size cpos = [length starts; c] →
  torch.data cpos = (λ st, st ++ replicate (c - length st) 0) <$> starts →
  2 ≤ c →
  Forall (λ st, 1 ≤ length st ≤ c ∧ Forall (λ p, p ≠ 0) (drop 1 st)) starts →
  ∃ planes,
    mask_others src_tokens cpos true pad_idx
      = Ok (PBool4 (torch.Tensor [length starts; 1; width; width] planes)) ∧
    length planes = length starts ∧
    ∀ i st row,
      starts !! i = Some st →
      torch.data src_tokens !! i = Some row →
      ∃ m, planes !! i = Some [m] ∧
        ∀ a b, a < width → b < width →
          cell m a b
          = Some (bool_decide
                    (Exists (in_range a b)
                       (sentence_ranges st
                          (length (filter (λ t, t ≠ pad_idx) row))))).
Proof.
  intros Hsize Hdata Hcsize Hcdata Hc Hstarts.
  set (n_tokens := (λ row, length (filter (λ t : token, t ≠ pad_idx) row))
                     <$> torch.data src_tokens).
  assert (Hn : length n_tokens = length starts)
    by (subst n_tokens; by rewrite length_fmap).
  destruct (mask_others_loop width c n_tokens starts Hc Hstarts Hn
              (torch.data cpos) Hcdata (length starts) 0 None eq_refl)
    as [jk' Hloop].
  eexists. split; [|split].
  - unfold mask_others. rewrite Hsize, Hcsize.
    replace ((λ row, length (filter (λ b, b = true) row)) <$>
               map (map (λ t, negb (t =? pad_idx)%Z)) (torch.data src_tokens))
      with n_tokens.
    2:{ subst n_tokens. rewrite <- list_fmap_compose. apply list_fmap_ext.
        intros _ row _. simpl. symmetry. apply filter_non_pad. }
    simpl in Hloop. rewrite Hloop. reflexivity.
  - rewrite length_fmap, length_zip_with. lia.
  - intros i st row Hst Hrow. eexists. split.
    + rewrite list_lookup_fmap.
      erewrite (proj2 (lookup_zip_with_Some _ _ _ _ _)); [reflexivity|].
      exists st, (length (filter (λ t, t ≠ pad_idx) row)).
      split; [done|]. split; [done|].
      subst n_tokens. by rewrite list_lookup_fmap, Hrow.
    + intros a b Ha Hb. simpl. erewrite set_blocks_cell; [by rewrite orb_false_r|].
      unfold cell. rewrite lookup_replicate_2 by done. simpl.
      by rewrite lookup_replicate_2.
Qed.

(** ** The further theorems at work on small inputs *)

Lemma get_docs_documents_witness :
  ∃ docs cls_poses,
    get_docs demo_samples demo_dict (Some 11%Z) (Some 30%Z) 100 "roberta-base"
      = Ok (docs, cls_poses) ∧
    Forall (λ d, (Z.of_nat (length (concat d)) ≤ 100)%Z) docs.
Proof.
  eassert (Hrun : get_docs demo_samples demo_dict (Some 11%Z) (Some 30%Z) 100
                    "roberta-base" = Ok (_, _))
    by (vm_compute; reflexivity).
  eexists _, _. split; [exact Hrun|].
  destruct (get_docs_documents _ _ _ _ _ _ _ _ Hrun)
    as (sep & _ & _ & _ & _ & Hbudget & _).
  apply Hbudget. lia.
Defined.

Lemma create_target_batch_rows_witness :
  ∃ target prev_output_tokens,
    create_target_batch [[1; 0]; [0]] demo_dict [2; 1] true
      = Ok (target, prev_output_tokens) ∧
    torch.data target !! 1 = Some [0; 2; 1]%Z ∧
    torch.data prev_output_tokens !! 1 = Some [0; 0; 1]%Z.
Proof.
  eassert (Hrun : create_target_batch [[1; 0]; [0]] demo_dict [2; 1] true
                  = Ok (_, _))
    by (vm_compute; reflexivity).
  eexists _, _. split; [exact Hrun|].
  destruct (create_target_batch_rows _ _ _ _ _ _ Hrun)
    as (maxlen & Hmax & _ & _ & _ & _ & Hrows).
  injection Hmax as <-.
  destruct (Hrows 1 [0] eq_refl) as (_ & Htarget & Hprev).
  split; [exact Htarget|exact Hprev].
Defined.

Lemma docs2tensor_rows_witness :
  docs2tensor [([0; 2 ^ 63; 2]%Z, [0])] 1%Z 2%Z = Raise RuntimeError ∧
  ∃ r, docs2tensor [([0; 2 ^ 63 - 1; 2]%Z, [0])] 1%Z 2%Z = Ok r.
Proof.
  split.
  - exact (docs2tensor_rows [([0; 2 ^ 63; 2]%Z, [0])] 1%Z 2%Z).
  - destruct (docs2tensor_rows [([0; 2 ^ 63 - 1; 2]%Z, [0])] 1%Z 2%Z)
      as (t & m & s & c & n & _ & _ & Hrun & _).
    eexists. exact Hrun.
Defined.

Lemma doc2tensor_flattened_witness :
  doc2tensor demo_dataset [[[0; 2 ^ 63; 2]]]%Z demo_dict = Raise RuntimeError ∧
  ∃ r, doc2tensor demo_dataset demo_docs demo_dict = Ok r.
Proof.
  split.
  - exact (proj2 (doc2tensor_flattened demo_dataset [[[0; 2 ^ 63; 2]]]%Z demo_dict)).
  - destruct (proj2 (doc2tensor_flattened demo_dataset demo_docs demo_dict))
      as (t & m & s & c & n & Hrun & _).
    eexists. exact Hrun.
Defined.

Lemma shuffle_sents_placement_witness :
  ∃ shuffled target_order g' count,
    shuffle_sents (1 # 2) 100
      [[0; 5; 6; 2]; [0; 7; 2]; [0; 8; 9; 10; 2]; [0; 3; 2]]%Z [1; 1; 0; 7]%Z
      = Ok ((shuffled, target_order), g') ∧
    length shuffled = count ∧
    shuffled ≡ₚ take count
      [[0; 5; 6; 2]; [0; 7; 2]; [0; 8; 9; 10; 2]; [0; 3; 2]]%Z.
Proof.
  eassert (Hrun : shuffle_sents (1 # 2) 100
                    [[0; 5; 6; 2]; [0; 7; 2]; [0; 8; 9; 10; 2]; [0; 3; 2]]%Z
                    [1; 1; 0; 7]%Z = Ok ((_, _), _))
    by (vm_compute; reflexivity).
  destruct (@shuffle_sents_placement (list Z) tape_random_state _ _ _ _ _ _ _ Hrun)
    as (count & _ & _ & _ & _ & Hlen & _ & Hperm & _).
  eexists _, _, _, count. split; [exact Hrun|]. split; [exact Hlen|exact Hperm].
Defined.

Lemma create_src_tok_batch_budget_witness :
  ∃ src_tokens doc_pad_mask segment_ids cpos nsents target_orders g',
    create_src_tok_batch demo_samples demo_dict 0 (Some 30%Z) (Some 11%Z) 100
      "roberta-base" demo_tape
      = Ok ((src_tokens, doc_pad_mask, segment_ids, cpos, nsents, target_orders), g') ∧
    Forall2 (λ order n, order ≡ₚ seq 0 n) target_orders nsents ∧
    Forall (λ row, (Z.of_nat (length row) ≤ 100)%Z) (torch.data src_tokens).
Proof.
  eassert (Hrun : create_src_tok_batch demo_samples demo_dict 0 (Some 30%Z)
                    (Some 11%Z) 100 "roberta-base" demo_tape
                  = Ok ((_, _, _, _, _, _), _))
    by (vm_compute; reflexivity).
  eexists _, _, _, _, _, _, _. split; [exact Hrun|].
  destruct (@create_src_tok_batch_budget (list Z) tape_random_state
              _ _ _ _ _ _ _ _ _ _ _ _ _ _ _ Hrun)
    as (_ & _ & Horders & Hbudget).
  split; [exact Horders|]. apply Hbudget. lia.
Defined.

Lemma create_target_batch_on_batch_witness :
  ∃ src_tokens doc_pad_mask segment_ids cpos nsents target_orders g'
    target prev_output_tokens,
    create_src_tok_batch demo_samples demo_dict 0 (Some 30%Z) (Some 11%Z) 100
      "roberta-base" demo_tape
      = Ok ((src_tokens, doc_pad_mask, segment_ids, cpos, nsents, target_orders), g') ∧
    create_target_batch target_orders demo_dict nsents true
      = Ok (target, prev_output_tokens).
Proof.
  eassert (Hrun : create_src_tok_batch demo_samples demo_dict 0 (Some 30%Z)
                    (Some 11%Z) 100 "roberta-base" demo_tape
                  = Ok ((_, _, _, _, _, _), _))
    by (vm_compute; reflexivity).
  destruct (@create_target_batch_on_batch (list Z) tape_random_state
              _ _ demo_dict _ _ _ _ _ true _ _ _ _ _ _ _ _ Hrun)
    as (target & prev_output_tokens & Htarget).
  eexists _, _, _, _, _, _, _, target, prev_output_tokens.
  split; [exact Hrun|exact Htarget].
Defined.

Lemma mask_sentences_targets_witness :
  ∃ output_doc selected masked_sents g',
    mask_sentences demo_dataset 0 demo_docs (7 # 16) 5 demo_dict demo_tape
      = Ok ((output_doc, selected, masked_sents), g') ∧
    length output_doc = 4 ∧
    length masked_sents = length selected.
Proof.
  eassert (Hrun : mask_sentences demo_dataset 0 demo_docs (7 # 16) 5 demo_dict
                    demo_tape = Ok ((_, _, _), _))
    by (vm_compute; reflexivity).
  eexists _, _, _, _. split; [exact Hrun|].
  destruct (@mask_sentences_targets (list Z) tape_random_state demo_dataset 0
              demo_docs _ (7 # 16) 5 demo_dict demo_tape _ _ _ _
              ltac:(repeat constructor; discriminate) eq_refl Hrun)
    as (Hout & Hlen & _).
  split; [exact Hout|exact Hlen].
Defined.

Lemma get_rnd_sent_from_batch_witness :
  ∃ rnd_sent g',
    get_rnd_sent 0 demo_docs demo_tape = Ok (rnd_sent, g') ∧
    ∃ doc, doc ∈ demo_docs ∧ rnd_sent ∈ doc.
Proof.
  eassert (Hrun : get_rnd_sent 0 demo_docs demo_tape = Ok (_, _))
    by (vm_compute; reflexivity).
  eexists _, _. split; [exact Hrun|].
  exact (proj1 (@get_rnd_sent_from_batch (list Z) tape_random_state _ _ _ _ _ Hrun)).
Defined.

Lemma init_get_docs_witness :
  init demo_options = Ok demo_dataset ∧
  ∃ docs cls_poses,
    get_docs demo_samples demo_dict (Some 11%Z) None 100 "roberta-base"
      = Ok (docs, cls_poses).
Proof.
  split; [reflexivity|].
  destruct (init_get_docs demo_options demo_dataset demo_samples (Some 11%Z) None
              100 eq_refl) as (_ & _ & Hdocs).
  exact Hdocs.
Defined.

Lemma collater_separator_one_witness :
  ∃ self,
    init sep_one_options = Ok self ∧
    collater self demo_samples demo_tape = Raise AssertionError.
Proof.
  eexists. split; [reflexivity|].
  apply (@collater_separator_one (list Z) tape_random_state sep_one_options);
    [reflexivity|reflexivity|discriminate].
Defined.

Lemma collate_no_sentences_witness :
  collate demo_dataset [ {| id := 0%Z; source := []; target := None |} ]
    demo_dict demo_dict true (Some 30%Z) demo_tape
  = Raise ValueError.
Proof.
  exact (@collate_no_sentences (list Z) tape_random_state demo_dataset
           [ {| id := 0%Z; source := []; target := None |} ]
           demo_dict demo_dict true (Some 30%Z) "</s>"%string demo_tape
           eq_refl ltac:(vm_compute; discriminate)
           ltac:(vm_compute; discriminate) eq_refl ltac:(discriminate)
           ltac:(repeat constructor)).
Defined.

Lemma masked_sents2tensor_indexes_witness :
  ∃ tgt_selected_indexes tgt_input_masked_sents tgt_masked_sents,
    masked_sents2tensor demo_dataset [[1; 2]; [0]]
      [[[0; 12; 13; 14; 2]; [0; 15; 2]]; [[0; 20; 21; 22; 2]]]%Z
      = Ok (tgt_selected_indexes, tgt_input_masked_sents, tgt_masked_sents) ∧
    torch.data tgt_selected_indexes !! 1 = Some [0; 0].
Proof.
  eassert (Hrun : masked_sents2tensor demo_dataset [[1; 2]; [0]]
                    [[[0; 12; 13; 14; 2]; [0; 15; 2]]; [[0; 20; 21; 22; 2]]]%Z
                  = Ok (_, _, _))
    by (vm_compute; reflexivity).
  eexists _, _, _. split; [exact Hrun|].
  destruct (masked_sents2tensor_indexes _ _ _ _ _ _ Hrun)
    as (_ & _ & max_nsent & -> & _ & _ & _ & Hrows).
  exact (proj2 (Hrows 1 [0] eq_refl)).
Defined.

Lemma mask_others_single_sentence_witness :
  ∃ src_tokens doc_pad_mask segment_ids cpos nsents,
    docs2tensor [([0; 5; 6; 2]%Z, [0]); ([0; 7; 2]%Z, [0])] 1%Z 2%Z
      = Ok (src_tokens, doc_pad_mask, segment_ids, cpos, nsents) ∧
    mask_others src_tokens cpos true 1%Z = Raise UnboundLocalError.
Proof.
  eassert (Hrun : docs2tensor [([0; 5; 6; 2]%Z, [0]); ([0; 7; 2]%Z, [0])] 1%Z 2%Z
                  = Ok (_, _, _, _, _))
    by (vm_compute; reflexivity).
  eexists _, _, _, _, _. split; [exact Hrun|].
  apply (mask_others_single_sentence
           [([0; 5; 6; 2]%Z, [0]); ([0; 7; 2]%Z, [0])] _ _ _ _ _ _ _ _
           ltac:(discriminate) ltac:(repeat constructor) Hrun).
Defined.

Lemma ordered_indices_examples_witness :
  ordered_indices demo_examples demo_tape = Ok ([0; 1], demo_tape) ∧
  ∃ s, getitem demo_examples 1 = Ok s ∧ id s = 1%Z.
Proof.
  destruct (@ordered_indices_examples (list Z) tape_random_state demo_examples
              demo_tape ltac:(intros targets Htgt; simpl in Htgt; discriminate Htgt))
    as (indices & g' & Hrun & _ & Hplain & Hall).
  destruct (Hplain eq_refl) as [-> ->]. split; [exact Hrun|].
  destruct (proj1 (Forall_lookup _ _) Hall 1 1 eq_refl) as (s & Hs & Hid & _).
  exists s. split; [exact Hs|exact Hid].
Defined.

Lemma valid_size_limits_witness :
  valid_size demo_examples 0 (Some [5; 512]%Z) = Ok true ∧
  ∃ src_size tgt_size,
    size demo_examples 0 = Ok (src_size, tgt_size) ∧ (src_size ≤ 5)%Z.
Proof.
  split; [reflexivity|].
  destruct (valid_size_limits demo_examples 0 (Some [5; 512]%Z) eq_refl)
    as (src_size & tgt_size & Hsize & _ & _ & _ & Hcaller & _).
  exists src_size, tgt_size. split; [exact Hsize|].
  exact (proj1 (Hcaller _ _ eq_refl)).
Defined.

Lemma create_src_sentences_witness :
  ∃ sent_len last_sent_len,
    dummy_sent_lens demo_dataset = Some (sent_len, last_sent_len) ∧
    Z.of_nat (length (create_src demo_dataset sent_len last_sent_len 30)) = 99%Z.
Proof.
  destruct (create_src_sentences demo_dataset 30 eq_refl ltac:(simpl; lia)
              ltac:(discriminate))
    as (sent_len & last_sent_len & Hlens & _ & _ & Hlen & _).
  exists sent_len, last_sent_len. split; [exact Hlens|exact Hlen].
Defined.

Lemma mask_others_sentence_blocks_witness :
  ∃ planes,
    mask_others (torch.Tensor [1; 4] [[5; 6; 7; 1]%Z]) (torch.Tensor [1; 2] [[0; 2]])
      true 1%Z
      = Ok (PBool4 (torch.Tensor [1; 1; 4; 4] planes)) ∧
    length planes = 1.
Proof.
  destruct (mask_others_sentence_blocks
              (torch.Tensor [1; 4] [[5; 6; 7; 1]%Z]) (torch.Tensor [1; 2] [[0; 2]])
              1%Z [[0; 2]] 4 2 eq_refl eq_refl eq_refl eq_refl ltac:(lia)
              ltac:(repeat constructor; simpl; lia))
    as (planes & Hrun & Hlen & _).
  exists planes. split; [exact Hrun|exact Hlen].
Defined.

(** ** The ids of a batch *)

Lemma omap_length_lt {A B} (f : A → option B) (l : list A) (x : A) :
  x ∈ l → f x = None → length (omap f l) < length l.
Proof.
  intros Hx Hf. induction Hx as [x l|x y l Hx IH]; csimpl.
  - rewrite Hf. pose proof (omap_length_le f l). lia.
  - specialize (IH Hf). destruct (f y); csimpl; lia.
Qed.

Lemma sample_doc_empty sep_id cls_idx max_doc_length max_sent_length
    max_tokens_len (s : sample) :
  source s = [] →
  sample_doc sep_id cls_idx max_doc_length max_sent_length max_tokens_len s = None.
Proof.
  intros Hs. unfold sample_doc, prepare_sents. rewrite Hs. cbv zeta.
  change (split_list [] sep_id) with (@nil (list Z)).
  by destruct max_doc_length, max_sent_length; rewrite ?py_take_nil.
Qed.

Lemma create_src_tok_batch_rows {G : Type} `{RandomState G}
    samples src_dict fix_ratio max_doc_length
    max_sent_length max_tokens_len bert_model (g g' : G)
    src_tokens doc_pad_mask segment_ids cpos nsents target_orders :
  create_src_tok_batch samples src_dict fix_ratio max_doc_length
    max_sent_length max_tokens_len bert_model g
    = Ok ((src_tokens, doc_pad_mask, segment_ids, cpos, nsents, target_orders), g') →
  ∃ sep_id,
    length (torch.data src_tokens)
    = length (omap (sample_doc sep_id (cls_index src_dict)
                      (if_truthy max_doc_length) max_sent_length max_tokens_len)
                samples).
Proof.
  unfold create_src_tok_batch. intros Hrun.
  step_run Hrun. step_run E. subst. rename a into sep.
  step_run Hrun. clear E0 a.
  step_run Hrun. destruct a as [docs orders].
  apply src_tok_docs_Ok in E0 as (new & Hd & Hall). simpl in Hd. subst new.
  step_run Hrun. step_run E0. run. simplify_eq.
  apply docs2tensor_inv in E0. cbv zeta in E0.
  destruct (max_lens docs) as [w1 w2]. simplify_eq. simpl.
  exists (index src_dict sep). rewrite length_fmap. by eapply Forall2_length.
Qed.

(** X20.  The ids of a batch are those of all the samples, while its rows
    are the documents of the samples that have tokens.  A batch that
    [collate] returns for samples that are not none has at least one row and
    at most one per sample; and when one of the samples has no token, it has
    fewer rows than ids, so that ids and rows are not aligned. *)
Theorem collate_ids_and_rows {G : Type} `{RandomState G}
    (self : SentsPermAndPredictMaskDataset) (samples : list sample)
    (vocab tgt_dict : Dictionary) (is_poniter_net : bool)
    (max_doc_length : option Z) (g g' : G) (b : batch) :
  samples ≠ [] →
  collate self samples vocab tgt_dict is_poniter_net max_doc_length g
    = Ok (b, g') →
  ∃ net_input src_tokens,
    ("id"%string, PLong1 (id <$> samples)) ∈ b ∧
    ("net_input"%string, PDict net_input) ∈ b ∧
    ("src_tokens"%string, PLong2 src_tokens) ∈ net_input ∧
    1 ≤ length (torch.data src_tokens) ≤ length samples ∧
    ((∃ s, s ∈ samples ∧ source s = []) →
     length (torch.data src_tokens) < length samples).
Proof.
  intros Hne Hrun. unfold collate in Hrun.
  rewrite decide_False in Hrun by (by destruct samples).
  cbv zeta in Hrun. step_run Hrun. rename a into ids.
  assert (ids = id <$> samples) as ->.
  { step_run E. unfold torch.LongTensor in E. by case_match; simplify_eq. }
  clear E. step_run Hrun.
  destruct a as [[[[[src_tokens doc_pad_mask] segment_ids] cpos] nsents] tgt_orders].
  apply create_src_tok_batch_rows in E as [sep_id Hrows].
  step_run Hrun.
  destruct a as [[[[[[[src_tokens_with_mask doc_pad_mask_2] tgt_selected_indexes]
    tgt_input_masked_sents] tgt_masked_sents] segment_ids_2] cpos_mask] nsents_2].
  do 3 step_run Hrun. step_run Hrun. step_run E3.
  apply py_index_Ok in E3. apply lookup_lt_Some in E3.
  do 2 step_run Hrun. destruct a4 as [target_perm prev_output_tokens_perm].
  run. simplify_eq.
  eexists _, src_tokens. split_and!.
  - apply list_elem_of_here.
  - do 3 apply list_elem_of_further. apply list_elem_of_here.
  - apply list_elem_of_here.
  - lia.
  - rewrite Hrows. apply omap_length_le.
  - intros (s & Hs & Hempty). rewrite Hrows.
    eapply omap_length_lt; [done|]. by apply sample_doc_empty.
Qed.

Lemma collate_ids_and_rows_witness :
  ∃ b g' (src_tokens : tensor2 Z),
    collate demo_dataset
      (demo_samples ++ [ {| id := 2%Z; source := []; target := None |} ])
      demo_dict demo_dict true (Some 30%Z) demo_tape = Ok (b, g') ∧
    ("id"%string, PLong1 [0; 1; 2]%Z) ∈ b ∧
    length (torch.data src_tokens) < 3.
Proof.
  eassert (Hrun : collate demo_dataset
                    (demo_samples ++ [ {| id := 2%Z; source := []; target := None |} ])
                    demo_dict demo_dict true (Some 30%Z) demo_tape = Ok (_, _))
    by (vm_compute; reflexivity).
  destruct (@collate_ids_and_rows (list Z) tape_random_state demo_dataset
              (demo_samples ++ [ {| id := 2%Z; source := []; target := None |} ])
              demo_dict demo_dict true (Some 30%Z) demo_tape _ _
              ltac:(discriminate) Hrun)
    as (net_input & src_tokens & Hid & _ & _ & _ & Hlt).
  eexists _, _, src_tokens. split; [exact Hrun|]. split; [exact Hid|].
  apply Hlt. exists {| id := 2%Z; source := []; target := None |}.
  split; [|reflexivity]. unfold demo_samples. cbn [app]. right. right. left.
Defined.
